(** * simple-smtp-queue: a shallow embedding of the message pipeline

    The development follows the Python sources module by module:
    [app/models.py], [app/queue_manager.py], [app/rate_limiter.py],
    [app/email_sender.py], [app/smtp_proxy.py] and [app/monitoring.py].  Every Python class
    becomes a Rocq [Module] of the same name; methods keep their names.

    Conventions.
    - A Python [str] is a Rocq [string] holding its UTF-8 bytes, so that
      [len(s.encode('utf-8'))] is [String.length s].
    - A Python [int] is a [Z].  A Python [float] is a binary64 number,
      [Binary64.t], in the token bucket and the fixed window, whose
      decisions turn on rounded sums; elsewhere (timestamps, delays, the
      leaky bucket, the monitoring figures) it is a rational [Q] with
      exact arithmetic.
    - The value of a message header is a [str]; the [Header] objects the
      [email] package returns for fields with raw 8-bit bytes are not
      modelled.
    - A [dict] is an association list in insertion order with unique
      keys; [Dict[str, Any]] holds values of the dynamic type [pyval].
    - A call that can raise returns a [result]; [try]/[except Exception]
      is [try_except]. *)

From Stdlib Require Import ZArith QArith Qminmax List String Ascii Bool Lia Lqa.
From Stdlib Require Floats.
Import ListNotations.

Set Implicit Arguments.
Set Warnings "-register-all".
Local Open Scope Z_scope.

(** ** Python values *)

(** The floats whose rounding is not modelled. *)
Definition float := Q.

Inductive pyval : Type :=
| PNone
| PStr (s : string)
| PInt (z : Z)
| PFloat (q : float)
| PList (l : list pyval)
| PDict (d : list (string * pyval)).

Definition pydict := list (string * pyval).

(** [d.get(k)] *)
Fixpoint dict_get {V : Type} (d : list (string * V)) (k : string) : option V :=
  match d with
  | [] => None
  | (k', v) :: d' => if String.eqb k' k then Some v else dict_get d' k
  end.

(** [d.get(k, default)] *)
Definition dict_get_default {V : Type} (d : list (string * V)) (k : string) (dflt : V) : V :=
  match dict_get d k with
  | Some v => v
  | None => dflt
  end.

(** [d[k] = v]: an existing key keeps its position, a new key goes last. *)
Fixpoint dict_set {V : Type} (d : list (string * V)) (k : string) (v : V) : list (string * V) :=
  match d with
  | [] => [(k, v)]
  | (k', v') :: d' =>
      if String.eqb k' k then (k', v) :: d' else (k', v') :: dict_set d' k v
  end.

(** Equality of two JSON texts, seen on the values they denote. *)
Fixpoint pyval_eqb (a b : pyval) {struct a} : bool :=
  match a, b with
  | PNone, PNone => true
  | PStr s, PStr t => String.eqb s t
  | PInt x, PInt y => Z.eqb x y
  | PFloat x, PFloat y => Qeq_bool x y
  | PList l, PList m =>
      (fix list_eqb (l m : list pyval) {struct l} : bool :=
         match l, m with
         | [], [] => true
         | x :: l', y :: m' => pyval_eqb x y && list_eqb l' m'
         | _, _ => false
         end) l m
  | PDict d, PDict e =>
      (fix dict_eqb (d e : list (string * pyval)) {struct d} : bool :=
         match d, e with
         | [], [] => true
         | (k, x) :: d', (k', y) :: e' =>
             String.eqb k k' && pyval_eqb x y && dict_eqb d' e'
         | _, _ => false
         end) d e
  | _, _ => false
  end.

Definition pydict_eqb (d e : pydict) : bool := pyval_eqb (PDict d) (PDict e).

(** ** Exceptions *)

Record exn : Type := Exception { exc_type : string; exc_text : string }.

Inductive result (A : Type) : Type :=
| Ok (a : A)
| Raise (e : exn).
Arguments Ok {A} a.
Arguments Raise {A} e.

(** A Python coroutine or method acting on a mutable object of type [S]:
    it ends normally or raises, and leaves the object in a new state. *)
Definition M (S A : Type) : Type := S -> result A * S.

Definition ret {S A : Type} (a : A) : M S A := fun s => (Ok a, s).

Definition raise {S A : Type} (e : exn) : M S A := fun s => (Raise e, s).

Definition bind {S A B : Type} (m : M S A) (k : A -> M S B) : M S B :=
  fun s =>
    match m s with
    | (Ok a, s') => k a s'
    | (Raise e, s') => (Raise e, s')
    end.

Notation "x <- m ;; k" := (bind m (fun x => k))
  (at level 61, m at next level, right associativity).
Notation "m ;;; k" := (bind m (fun _ => k))
  (at level 61, right associativity).

(** [try: body except Exception as e: handler(e)] *)
Definition try_except {S A : Type} (body : M S A) (handler : exn -> M S A) : M S A :=
  fun s =>
    match body s with
    | (Ok a, s') => (Ok a, s')
    | (Raise e, s') => handler e s'
    end.

(** Reading and writing the object. *)
Definition get {S : Type} : M S S := fun s => (Ok s, s).
Definition put {S : Type} (s : S) : M S unit := fun _ => (Ok tt, s).

(** Python truthiness of a [str] and of a [list]. *)
Definition str_truthy (s : string) : bool := negb (String.eqb s "").
Definition list_truthy {A : Type} (l : list A) : bool :=
  match l with [] => false | _ :: _ => true end.

(** ** The standard [email] package, as far as the code uses it *)

Definition lower_ascii (c : ascii) : ascii :=
  let n := nat_of_ascii c in
  if (Nat.leb 65 n && Nat.leb n 90)%bool then ascii_of_nat (n + 32) else c.

(** [s.lower()] on header names, which are ASCII. *)
Fixpoint lower (s : string) : string :=
  match s with
  | EmptyString => EmptyString
  | String c s' => String (lower_ascii c) (lower s')
  end.

(** [needle in s] *)
Fixpoint str_contains (needle s : string) : bool :=
  if String.prefix needle s then true
  else match s with
       | EmptyString => false
       | String _ s' => str_contains needle s'
       end.

(** [sep.join(l)] *)
Fixpoint join (sep : string) (l : list string) : string :=
  match l with
  | [] => EmptyString
  | [x] => x
  | x :: l' => (x ++ sep ++ join sep l')%string
  end.

Definition CR : ascii := ascii_of_nat 13.
Definition LF : ascii := ascii_of_nat 10.

(** The value holds a carriage return or a line feed. *)
Fixpoint has_cr_or_lf (s : string) : bool :=
  match s with
  | EmptyString => false
  | String c s' => Ascii.eqb c CR || Ascii.eqb c LF || has_cr_or_lf s'
  end.

Module email.

(** A parsed message, [email.message.Message]: its header fields in
    order, its content type, and either the payload decoded from its
    transfer encoding ([get_payload(decode=True)]) or its sub-parts. *)
Inductive Message : Type :=
| Single (headers : list (string * string)) (content_type : string) (payload : string)
| Multipart (headers : list (string * string)) (content_type : string)
    (parts : list Message).

Definition headers_of (m : Message) : list (string * string) :=
  match m with Single h _ _ => h | Multipart h _ _ => h end.

Definition keys (m : Message) : list string := map fst (headers_of m).

(** [msg[name]]: the first field of that name, compared without case. *)
Fixpoint first_field (hs : list (string * string)) (name : string) : option string :=
  match hs with
  | [] => None
  | (k, v) :: hs' =>
      if String.eqb (lower k) (lower name) then Some v else first_field hs' name
  end.

Definition getitem (m : Message) (name : string) : option string :=
  first_field (headers_of m) name.

Definition is_multipart (m : Message) : bool :=
  match m with Single _ _ _ => false | Multipart _ _ _ => true end.

Definition get_content_type (m : Message) : string :=
  match m with Single _ c _ => c | Multipart _ c _ => c end.

(** [get_payload(decode=True)]: [None] for a multipart message. *)
Definition get_payload_decoded (m : Message) : option string :=
  match m with Single _ _ p => Some p | Multipart _ _ _ => None end.

(** [msg.walk()]: the message, then its parts, depth first. *)
Fixpoint walk (m : Message) : list Message :=
  match m with
  | Single _ _ _ => [m]
  | Multipart _ _ parts => m :: flat_map walk parts
  end.

(** A message under construction ([MIMEText] or [MIMEMultipart]): the
    header fields set so far and the text payload, if any. *)
Record MIME : Type := mkMIME {
  fields : list (string * string);
  text : option string
}.

Definition dquote : string := String (ascii_of_nat 34) EmptyString.

(** [MIMEMultipart()] *)
Definition MIMEMultipart : MIME :=
  {| fields := [ ("Content-Type"%string, "multipart/mixed"%string);
                 ("MIME-Version"%string, "1.0"%string) ];
     text := None |}.

(** [MIMEText(body, 'plain', 'utf-8')] *)
Definition MIMEText (body : string) : MIME :=
  {| fields := [ ("Content-Type"%string,
                   ("text/plain; charset=" ++ dquote ++ "utf-8" ++ dquote)%string);
                 ("MIME-Version"%string, "1.0"%string);
                 ("Content-Transfer-Encoding"%string, "base64"%string) ];
     text := Some body |}.

(** [msg[name] = value]: the field is appended, the value is not
    inspected. *)
Definition setitem (msg : MIME) (name value : string) : MIME :=
  {| fields := fields msg ++ [(name, value)]; text := text msg |}.

(** [name in msg], without case. *)
Definition contains (msg : MIME) (name : string) : bool :=
  existsb (fun kv => String.eqb (lower (fst kv)) (lower name)) (fields msg).

End email.

(** ** app/models.py *)

Module EmailMessageData.

Record t : Type := mk {
  id : string;
  from_addr : string;
  to_addrs : list string;
  message_headers : list (string * string);
  message_body : string;
  created_at : float;
  retry_count : Z;
  last_retry_at : float;
  status : string
}.

Definition to_dict (self : t) : pydict :=
  [ ("id"%string, PStr (id self));
    ("from_addr"%string, PStr (from_addr self));
    ("to_addrs"%string, PList (map PStr (to_addrs self)));
    ("message_headers"%string,
       PDict (map (fun kv => (fst kv, PStr (snd kv))) (message_headers self)));
    ("message_body"%string, PStr (message_body self));
    ("created_at"%string, PFloat (created_at self));
    ("retry_count"%string, PInt (retry_count self));
    ("last_retry_at"%string, PFloat (last_retry_at self));
    ("status"%string, PStr (status self)) ].

(** Python stores whatever value the dictionary holds under a key.  The
    record is typed by the dataclass annotations, so the readers below
    keep a value of the annotated type and read any other as the
    field's default. *)
Definition as_str (dflt : string) (v : pyval) : string :=
  match v with PStr s => s | _ => dflt end.

Definition as_int (dflt : Z) (v : pyval) : Z :=
  match v with PInt z => z | _ => dflt end.

Definition as_float (dflt : float) (v : pyval) : float :=
  match v with
  | PFloat q => q
  | PInt z => inject_Z z
  | _ => dflt
  end.

Fixpoint strs_of (l : list pyval) : option (list string) :=
  match l with
  | [] => Some []
  | PStr s :: l' => option_map (cons s) (strs_of l')
  | _ :: _ => None
  end.

Definition as_str_list (dflt : list string) (v : pyval) : list string :=
  match v with
  | PList l => match strs_of l with Some ss => ss | None => dflt end
  | _ => dflt
  end.

Fixpoint str_items_of (d : list (string * pyval)) : option (list (string * string)) :=
  match d with
  | [] => Some []
  | (k, PStr s) :: d' => option_map (cons (k, s)) (str_items_of d')
  | _ :: _ => None
  end.

Definition as_str_dict (dflt : list (string * string)) (v : pyval) : list (string * string) :=
  match v with
  | PDict d => match str_items_of d with Some kvs => kvs | None => dflt end
  | _ => dflt
  end.

(** [fresh_uuid] is [str(uuid.uuid4())] and [now] is [time.time()], the
    two defaults that [from_dict] evaluates. *)
Definition from_dict (fresh_uuid : string) (now : float) (data : pydict) : t :=
  {| id := as_str fresh_uuid (dict_get_default data "id" (PStr fresh_uuid));
     from_addr := as_str "" (dict_get_default data "from_addr" (PStr ""));
     to_addrs := as_str_list [] (dict_get_default data "to_addrs" (PList []));
     message_headers :=
       as_str_dict [] (dict_get_default data "message_headers" (PDict []));
     message_body := as_str "" (dict_get_default data "message_body" (PStr ""));
     created_at := as_float now (dict_get_default data "created_at" (PFloat now));
     retry_count := as_int 0 (dict_get_default data "retry_count" (PInt 0));
     last_retry_at := as_float 0%Q (dict_get_default data "last_retry_at" (PInt 0));
     status := as_str "pending" (dict_get_default data "status" (PStr "pending")) |}.

(** [self.retry_count += 1; self.last_retry_at = time.time()] *)
Definition increment_retry (now : float) (self : t) : t :=
  {| id := id self;
     from_addr := from_addr self;
     to_addrs := to_addrs self;
     message_headers := message_headers self;
     message_body := message_body self;
     created_at := created_at self;
     retry_count := retry_count self + 1;
     last_retry_at := now;
     status := status self |}.

Definition can_retry (self : t) (max_retries : Z) : bool :=
  retry_count self <? max_retries.

(** [base_delay * (2 ** self.retry_count)]; the exponent is a count of
    failed attempts, never negative in a run of the program. *)
Definition get_retry_delay (self : t) (base_delay : Z) : Z :=
  base_delay * 2 ^ retry_count self.

(** [message.status = s] *)
Definition set_status (s : string) (self : t) : t :=
  {| id := id self;
     from_addr := from_addr self;
     to_addrs := to_addrs self;
     message_headers := message_headers self;
     message_body := message_body self;
     created_at := created_at self;
     retry_count := retry_count self;
     last_retry_at := last_retry_at self;
     status := s |}.

(** [envelope] of aiosmtpd: [mail_from] may be [None]. *)
Record Envelope : Type := mkEnvelope {
  mail_from : option string;
  rcpt_tos : list string;
  content : string
}.

Definition AttributeError_decode : exn :=
  Exception "AttributeError" "'NoneType' object has no attribute 'decode'".

(** The two values below are the library's: [message_from_bytes] parses
    the DATA bytes, [decode_utf8_ignore] is
    [bytes.decode('utf-8', errors='ignore')]. *)
Section FromSmtp.

Variable message_from_bytes : string -> email.Message.
Variable decode_utf8_ignore : string -> string.

(** [part.get_payload(decode=True).decode('utf-8', errors='ignore')] *)
Definition decoded_text (part : email.Message) : result string :=
  match email.get_payload_decoded part with
  | Some p => Ok (decode_utf8_ignore p)
  | None => Raise AttributeError_decode
  end.

(** The [for part in message.walk()] loop: [text/plain] ends it,
    [text/html] is kept and the loop goes on. *)
Fixpoint walk_loop (parts : list email.Message) (message_body : string)
  : result string :=
  match parts with
  | [] => Ok message_body
  | part :: rest =>
      if String.eqb (email.get_content_type part) "text/plain" then
        decoded_text part
      else if String.eqb (email.get_content_type part) "text/html" then
        match decoded_text part with
        | Ok b => walk_loop rest b
        | Raise e => Raise e
        end
      else walk_loop rest message_body
  end.

(** [for header_name in message.keys():
       message_headers[header_name] = message[header_name]]
    The values are taken as [str]: a field with raw 8-bit bytes, for
    which [message[name]] is a [Header] object that [json.dumps] later
    refuses, is outside the messages modelled. *)
Definition collect_headers (message : email.Message) : list (string * string) :=
  fold_left
    (fun d header_name =>
       dict_set d header_name
         (match email.getitem message header_name with
          | Some v => v
          | None => EmptyString
          end))
    (email.keys message) [].

Definition from_smtp_message (fresh_uuid : string) (now : float)
    (envelope : Envelope) (message_data : string) : result t :=
  let message := message_from_bytes message_data in
  let from_addr := match mail_from envelope with Some a => a | None => EmptyString end in
  let to_addrs := rcpt_tos envelope in
  let message_headers := collect_headers message in
  match (if email.is_multipart message
         then walk_loop (email.walk message) EmptyString
         else decoded_text message) with
  | Raise e => Raise e
  | Ok message_body =>
      Ok {| id := fresh_uuid;
            from_addr := from_addr;
            to_addrs := to_addrs;
            message_headers := message_headers;
            message_body := message_body;
            created_at := now;
            retry_count := 0;
            last_retry_at := 0%Q;
            status := "pending" |}
  end.

End FromSmtp.

(** [header_name.lower() not in ['content-type', 'content-transfer-encoding']],
    negated. *)
Definition skipped_header (header_name : string) : bool :=
  String.eqb (lower header_name) "content-type"
  || String.eqb (lower header_name) "content-transfer-encoding".

(** The [for header_name, header_value in self.message_headers.items()]
    loop. *)
Definition copy_headers (headers : list (string * string)) (msg : email.MIME) : email.MIME :=
  fold_left
    (fun msg kv =>
       if negb (skipped_header (fst kv)) then email.setitem msg (fst kv) (snd kv) else msg)
    headers msg.

Definition ensure (name value : string) (msg : email.MIME) : email.MIME :=
  if negb (email.contains msg name) then email.setitem msg name value else msg.

(** [MIMEMultipart()] when the headers hold a [Content-Type] that names
    [multipart], [MIMEText(self.message_body, 'plain', 'utf-8')] if not. *)
Definition new_msg (self : t) : email.MIME :=
  if match dict_get (message_headers self) "Content-Type" with
     | Some v => str_contains "multipart" v
     | None => false
     end
  then email.MIMEMultipart
  else email.MIMEText (message_body self).

(** The message object that [to_smtp_message] builds before it calls
    [msg.as_bytes()].  [formatdate] and [make_msgid] are the values of
    [email.utils.formatdate()] and [email.utils.make_msgid()]. *)
Definition build_msg (formatdate make_msgid : string) (self : t) : email.MIME :=
  let msg := new_msg self in
  let msg := copy_headers (message_headers self) msg in
  let msg := ensure "From" (from_addr self) msg in
  let msg := ensure "To" (join ", " (to_addrs self)) msg in
  let msg := ensure "Date" formatdate msg in
  ensure "Message-ID" make_msgid msg.

(** [as_bytes] is the library's generator, [msg.as_bytes()]. *)
Definition to_smtp_message (as_bytes : email.MIME -> result string)
    (formatdate make_msgid : string) (self : t) : result string :=
  as_bytes (build_msg formatdate make_msgid self).

End EmailMessageData.

Module SendingResult.

Record t : Type := mk {
  success : bool;
  message_id : string;
  error_message : string;
  retry_count : Z
}.

End SendingResult.

(** ** app/queue_manager.py *)

(** The Redis server as the manager uses it: two lists of JSON texts.  A
    JSON text is identified with the dictionary it denotes
    ([json.loads(json.dumps(d)) = d]).  The head of a list is its left
    end.  When the connection is down every command raises. *)
Module Redis.

Inductive key : Type := smtp_queue | smtp_processing.

Record store : Type := mk {
  queue : list pydict;
  processing : list pydict;
  up : bool
}.

Definition ConnectionError : exn := Exception "ConnectionError" "connection lost".

Definition read (k : key) (s : store) : list pydict :=
  match k with smtp_queue => queue s | smtp_processing => processing s end.

Definition write (k : key) (l : list pydict) (s : store) : store :=
  match k with
  | smtp_queue => {| queue := l; processing := processing s; up := up s |}
  | smtp_processing => {| queue := queue s; processing := l; up := up s |}
  end.

(** Every command first needs the connection. *)
Definition command {A : Type} (body : store -> A * store) : M store A :=
  fun s => if up s then (let '(a, s') := body s in (Ok a, s'))
           else (Raise ConnectionError, s).

Definition lpush (k : key) (v : pydict) : M store unit :=
  command (fun s => (tt, write k (v :: read k s) s)).

(** The last element of a list and the elements before it. *)
Fixpoint pop_right (l : list pydict) : option (list pydict * pydict) :=
  match l with
  | [] => None
  | x :: l' =>
      match pop_right l' with
      | None => Some ([], x)
      | Some (front, last) => Some (x :: front, last)
      end
  end.

Definition rpoplpush (src dst : key) : M store (option pydict) :=
  command (fun s =>
    match pop_right (read src s) with
    | None => (None, s)
    | Some (front, v) =>
        let s1 := write src front s in
        (Some v, write dst (v :: read dst s1) s1)
    end).

(** [LRANGE key 0 -1] *)
Definition lrange_all (k : key) : M store (list pydict) :=
  command (fun s => (read k s, s)).

(** Removal of the first element equal to [v], from the head. *)
Fixpoint remove_first (v : pydict) (l : list pydict) : list pydict :=
  match l with
  | [] => []
  | x :: l' => if pydict_eqb x v then l' else x :: remove_first v l'
  end.

(** [LREM key 1 v] *)
Definition lrem_1 (k : key) (v : pydict) : M store unit :=
  command (fun s => (tt, write k (remove_first v (read k s)) s)).

Definition llen (k : key) : M store Z :=
  command (fun s => (Z.of_nat (List.length (read k s)), s)).

End Redis.

Module RedisQueueManager.

Definition queue_key := Redis.smtp_queue.
Definition processing_key := Redis.smtp_processing.

Definition KeyError (k : string) : exn := Exception "KeyError" k.

Definition enqueue (message : EmailMessageData.t) : M Redis.store bool :=
  try_except
    (let message_data := EmailMessageData.to_dict message in
     Redis.lpush queue_key message_data ;;;
     ret true)
    (fun _ => ret false).

Definition dequeue (fresh_uuid : string) (now : float)
  : M Redis.store (option EmailMessageData.t) :=
  try_except
    (message_data <- Redis.rpoplpush queue_key processing_key ;;
     match message_data with
     | Some data => ret (Some (EmailMessageData.from_dict fresh_uuid now data))
     | None => ret None
     end)
    (fun _ => ret None).

(** The [for item in processing_items] loop with its [break]. *)
Fixpoint mark_completed_scan (message_id : string) (items : list pydict)
  : M Redis.store unit :=
  match items with
  | [] => ret tt
  | item :: rest =>
      match dict_get item "id" with
      | None => raise (KeyError "id")
      | Some v =>
          if pyval_eqb v (PStr message_id)
          then Redis.lrem_1 processing_key item
          else mark_completed_scan message_id rest
      end
  end.

(** [mark_completed(self, message_id)]: one argument besides [self]. *)
Definition mark_completed (message_id : string) : M Redis.store unit :=
  try_except
    (processing_items <- Redis.lrange_all processing_key ;;
     mark_completed_scan message_id processing_items)
    (fun _ => ret tt).

Definition get_queue_size : M Redis.store Z :=
  try_except (Redis.llen queue_key) (fun _ => ret 0).

Definition get_processing_size : M Redis.store Z :=
  try_except (Redis.llen processing_key) (fun _ => ret 0).

(** [aioredis.from_url] builds the client and opens no connection: the
    call returns whether or not the server can be reached, and the lists
    on the server are not touched. *)
Definition connect : M Redis.store unit :=
  fun s => (Ok tt, s).

End RedisQueueManager.

(** The SQLite file as the manager uses it: the rows of [smtp_queue] in
    rowid order.  The two JSON columns hold the value their text denotes.
    When the file cannot be used every statement raises. *)
Module SQLite.

Record row : Type := mk_row {
  id : string;
  from_addr : string;
  to_addrs : pyval;
  message_headers : pyval;
  message_body : string;
  created_at : float;
  retry_count : Z;
  last_retry_at : float;
  status : string;
  processing : Z
}.

Record db : Type := mk {
  smtp_queue : list row;
  usable : bool
}.

Definition OperationalError : exn := Exception "OperationalError" "unable to open database file".
Definition IntegrityError : exn :=
  Exception "IntegrityError" "UNIQUE constraint failed: smtp_queue.id".

Definition statement {A : Type} (body : list row -> result A * list row) : M db A :=
  fun d => if usable d
           then (let '(r, rows) := body (smtp_queue d) in
                 (r, {| smtp_queue := rows; usable := usable d |}))
           else (Raise OperationalError, d).

Definition has_id (i : string) (rows : list row) : bool :=
  existsb (fun r => String.eqb (id r) i) rows.

(** [INSERT INTO smtp_queue (...) VALUES (...)]: [id] is the primary
    key; [processing] takes its default 0. *)
Definition insert (r : row) : M db unit :=
  statement (fun rows =>
    if has_id (id r) rows then (Raise IntegrityError, rows)
    else (Ok tt, rows ++ [r])).

(** [WHERE processing = 0 AND status = 'pending'] *)
Definition dispatchable (r : row) : bool :=
  Z.eqb (processing r) 0 && String.eqb (status r) "pending".

(** [ORDER BY created_at ASC LIMIT 1] over the dispatchable rows; among
    rows of equal [created_at] the one of least rowid. *)
Fixpoint oldest (best : option row) (rows : list row) : option row :=
  match rows with
  | [] => best
  | r :: rows' =>
      if dispatchable r then
        match best with
        | None => oldest (Some r) rows'
        | Some b =>
            if Qle_bool (created_at b) (created_at r)
            then oldest best rows'
            else oldest (Some r) rows'
        end
      else oldest best rows'
  end.

Definition select_oldest_pending : M db (option row) :=
  statement (fun rows => (Ok (oldest None rows), rows)).

(** [UPDATE smtp_queue SET ... WHERE id = ?] *)
Definition update_where_id (i : string) (f : row -> row) : M db unit :=
  statement (fun rows =>
    (Ok tt, map (fun r => if String.eqb (id r) i then f r else r) rows)).

Definition set_processing (p : Z) (r : row) : row :=
  {| id := id r; from_addr := from_addr r; to_addrs := to_addrs r;
     message_headers := message_headers r; message_body := message_body r;
     created_at := created_at r; retry_count := retry_count r;
     last_retry_at := last_retry_at r; status := status r; processing := p |}.

Definition set_status_processing (st : string) (p : Z) (r : row) : row :=
  {| id := id r; from_addr := from_addr r; to_addrs := to_addrs r;
     message_headers := message_headers r; message_body := message_body r;
     created_at := created_at r; retry_count := retry_count r;
     last_retry_at := last_retry_at r; status := st; processing := p |}.

Definition count_pending : M db Z :=
  statement (fun rows =>
    (Ok (Z.of_nat (List.length (filter dispatchable rows))), rows)).

End SQLite.

Module SQLiteQueueManager.

(** [CREATE TABLE IF NOT EXISTS smtp_queue (...)]: an existing table
    keeps its rows, a new file has none. *)
Definition _create_table : M SQLite.db unit :=
  SQLite.statement (fun rows => (Ok tt, rows)).

Definition connect : M SQLite.db unit := _create_table.

Definition row_of (message_dict : pydict) : SQLite.row :=
  {| SQLite.id := EmailMessageData.as_str "" (dict_get_default message_dict "id" PNone);
     SQLite.from_addr :=
       EmailMessageData.as_str "" (dict_get_default message_dict "from_addr" PNone);
     SQLite.to_addrs := dict_get_default message_dict "to_addrs" PNone;
     SQLite.message_headers := dict_get_default message_dict "message_headers" PNone;
     SQLite.message_body :=
       EmailMessageData.as_str "" (dict_get_default message_dict "message_body" PNone);
     SQLite.created_at :=
       EmailMessageData.as_float 0%Q (dict_get_default message_dict "created_at" PNone);
     SQLite.retry_count :=
       EmailMessageData.as_int 0 (dict_get_default message_dict "retry_count" PNone);
     SQLite.last_retry_at :=
       EmailMessageData.as_float 0%Q (dict_get_default message_dict "last_retry_at" PNone);
     SQLite.status :=
       EmailMessageData.as_str "" (dict_get_default message_dict "status" PNone);
     SQLite.processing := 0 |}.

Definition enqueue (message : EmailMessageData.t) : M SQLite.db bool :=
  try_except
    (let message_dict := EmailMessageData.to_dict message in
     SQLite.insert (row_of message_dict) ;;;
     ret true)
    (fun _ => ret false).

Definition message_data_of (row : SQLite.row) : pydict :=
  [ ("id"%string, PStr (SQLite.id row));
    ("from_addr"%string, PStr (SQLite.from_addr row));
    ("to_addrs"%string, SQLite.to_addrs row);
    ("message_headers"%string, SQLite.message_headers row);
    ("message_body"%string, PStr (SQLite.message_body row));
    ("created_at"%string, PFloat (SQLite.created_at row));
    ("retry_count"%string, PInt (SQLite.retry_count row));
    ("last_retry_at"%string, PFloat (SQLite.last_retry_at row));
    ("status"%string, PStr (SQLite.status row)) ].

Definition dequeue (fresh_uuid : string) (now : float)
  : M SQLite.db (option EmailMessageData.t) :=
  try_except
    (row <- SQLite.select_oldest_pending ;;
     match row with
     | Some row =>
         SQLite.update_where_id (SQLite.id row) (SQLite.set_processing 1) ;;;
         ret (Some (EmailMessageData.from_dict fresh_uuid now (message_data_of row)))
     | None => ret None
     end)
    (fun _ => ret None).

(** [mark_completed(self, message_id, status="sent")] *)
Definition mark_completed (message_id : string) (status : string) : M SQLite.db unit :=
  try_except
    (SQLite.update_where_id message_id (SQLite.set_status_processing status 0))
    (fun _ => ret tt).

Definition get_queue_size : M SQLite.db Z :=
  try_except SQLite.count_pending (fun _ => ret 0).

End SQLiteQueueManager.

(** The object behind [self.queue_manager]: one of the two managers,
    called through the method names they share. *)
Module QueueManager.

Inductive t : Type :=
| RedisQM (s : Redis.store)
| SQLiteQM (d : SQLite.db).

Definition on_redis {A : Type} (m : M Redis.store A) (s : Redis.store) : result A * t :=
  let '(r, s') := m s in (r, RedisQM s').

Definition on_sqlite {A : Type} (m : M SQLite.db A) (d : SQLite.db) : result A * t :=
  let '(r, d') := m d in (r, SQLiteQM d').

Definition enqueue (message : EmailMessageData.t) : M t bool :=
  fun qm =>
    match qm with
    | RedisQM s => on_redis (RedisQueueManager.enqueue message) s
    | SQLiteQM d => on_sqlite (SQLiteQueueManager.enqueue message) d
    end.

Definition dequeue (fresh_uuid : string) (now : float)
  : M t (option EmailMessageData.t) :=
  fun qm =>
    match qm with
    | RedisQM s => on_redis (RedisQueueManager.dequeue fresh_uuid now) s
    | SQLiteQM d => on_sqlite (SQLiteQueueManager.dequeue fresh_uuid now) d
    end.

Definition TypeError_mark_completed : exn :=
  Exception "TypeError"
    "RedisQueueManager.mark_completed() takes 2 positional arguments but 3 were given".

(** The call [queue_manager.mark_completed(message_id, status)] with two
    positional arguments, as the worker writes it.  The Redis manager's
    method takes [message_id] only, so binding the arguments raises
    [TypeError] before its body runs. *)
Definition mark_completed (message_id : string) (status : string) : M t unit :=
  fun qm =>
    match qm with
    | RedisQM s => (Raise TypeError_mark_completed, RedisQM s)
    | SQLiteQM d => on_sqlite (SQLiteQueueManager.mark_completed message_id status) d
    end.

(** The call [queue_manager.mark_completed(message_id)], which both
    managers accept (SQLite with its default [status="sent"]). *)
Definition mark_completed_1 (message_id : string) : M t unit :=
  fun qm =>
    match qm with
    | RedisQM s => on_redis (RedisQueueManager.mark_completed message_id) s
    | SQLiteQM d => on_sqlite (SQLiteQueueManager.mark_completed message_id "sent") d
    end.

(** The two collections of the queue, as message ids.  [ready] is what
    [dequeue] draws from and [get_queue_size] counts; [in_flight] is
    the processing list, respectively the rows with [processing = 1]. *)
Definition item_id (item : pydict) : option string :=
  match dict_get item "id" with
  | Some (PStr i) => Some i
  | _ => None
  end.

Fixpoint item_ids (items : list pydict) : list string :=
  match items with
  | [] => []
  | item :: rest =>
      match item_id item with
      | Some i => i :: item_ids rest
      | None => item_ids rest
      end
  end.

Definition in_processing (r : SQLite.row) : bool := Z.eqb (SQLite.processing r) 1.

Definition ready_ids (qm : t) : list string :=
  match qm with
  | RedisQM s => item_ids (Redis.queue s)
  | SQLiteQM d => map SQLite.id (filter SQLite.dispatchable (SQLite.smtp_queue d))
  end.

Definition in_flight_ids (qm : t) : list string :=
  match qm with
  | RedisQM s => item_ids (Redis.processing s)
  | SQLiteQM d => map SQLite.id (filter in_processing (SQLite.smtp_queue d))
  end.

End QueueManager.

(** [config.queue] of [app/config.py]. *)
Module QueueConfig.
Record t : Type := mk {
  backend : string;
  redis_url : string;
  sqlite_path : string
}.
End QueueConfig.

(** What outlives the process: the Redis server and the SQLite file. *)
Record Backends : Type := mkBackends {
  redis_server : Redis.store;
  sqlite_file : SQLite.db
}.

(** [create_queue_manager()]: build the manager named by the
    configuration, connect it and return it. *)
Definition create_queue_manager (cfg : QueueConfig.t) (b : Backends) : result QueueManager.t :=
  if String.eqb (QueueConfig.backend cfg) "redis" then
    match RedisQueueManager.connect (redis_server b) with
    | (Ok _, s) => Ok (QueueManager.RedisQM s)
    | (Raise e, _) => Raise e
    end
  else
    match SQLiteQueueManager.connect (sqlite_file b) with
    | (Ok _, d) => Ok (QueueManager.SQLiteQM d)
    | (Raise e, _) => Raise e
    end.

(** Modelled from the spec: [get_queue_manager], the lazy accessor of the
    process-wide queue manager that [app/main.py] and [app/smtp_proxy.py]
    import and [app/queue_manager.py] does not define.  The spec (design
    notes) describes it: the instance is constructed on first use and
    returned as it is afterwards. *)
Definition get_queue_manager (cfg : QueueConfig.t) (b : Backends)
    (global : option QueueManager.t) : result QueueManager.t :=
  match global with
  | Some qm => Ok qm
  | None => create_queue_manager cfg b
  end.

(** ** Python floats in the token bucket and the fixed window

    These two limiters decide by comparing sums, differences and
    products of floats with a bound, so there a Python [float] is the
    binary64 number the interpreter computes with: Rocq's primitive
    floats, whose operations round to nearest even as IEEE 754 says.
    The Standard Library specifies them by [SpecFloat]. *)

Module Binary64.

Import PrimFloat.

Definition t : Set := PrimFloat.float.

Definition zero : t := 0%float.
Definition one : t := 1%float.

(** [2.0 ** 53], up to which every integer is a float. *)
Definition two_53 : t := 9007199254740992%float.

(** [a <= b] and [a < b] of Python: false when either is a NaN. *)
Definition le (a b : t) : Prop := PrimFloat.leb a b = true.
Definition lt (a b : t) : Prop := PrimFloat.ltb a b = true.

(** [min(a, b)] of Python: the first argument unless the second is
    smaller. *)
Definition py_min (a b : t) : t := if PrimFloat.ltb b a then b else a.

(** The value of a finite number, counted in units of [2 ** -1074], the
    least positive float; 0 for an infinity or a NaN. *)
Definition units (x : SpecFloat.spec_float) : Z :=
  match x with
  | SpecFloat.S754_finite s m e => (if s then -1 else 1) * (Z.pos m * 2 ^ (e + 1074))
  | _ => 0
  end.

Definition value (x : t) : Z := units (FloatOps.Prim2SF x).

(** The order of two positive finite numbers in canonical form: by the
    exponent, then by the mantissa. *)
Definition lexc (e1 : Z) (m1 : positive) (e2 : Z) (m2 : positive) : comparison :=
  match Z.compare e1 e2 with
  | Lt => Lt
  | Gt => Gt
  | Eq => Pos.compare_cont Eq m1 m2
  end.

Definition SFzero : SpecFloat.spec_float := SpecFloat.S754_zero false.
Definition SFone : SpecFloat.spec_float :=
  SpecFloat.S754_finite false (2 ^ 52)%positive (-52).
Definition SFtwo_53 : SpecFloat.spec_float :=
  SpecFloat.S754_finite false (2 ^ 52)%positive 1.

End Binary64.

(** ** app/rate_limiter.py *)

Definition Qlt_bool (a b : Q) : bool := negb (Qle_bool b a).

Module TokenBucketRateLimiter.

Import PrimFloat.
Local Open Scope float_scope.

Record t : Type := mk {
  tokens : Binary64.t;
  last_refill_time : Binary64.t
}.

(** The outcome of one pass of the [while True] loop of [acquire]. *)
Inductive pass : Type :=
| Granted (self : t)
| Waits (wait_time : Binary64.t) (slept : bool) (self : t)
| ZeroDivisionError (self : t).

Section Limiter.

(** [config.rate_limit.max_tokens] and
    [config.rate_limit.tokens_per_second]: read by the limiter, not
    declared in [app/config.py]; taken as floats. *)
Variable max_tokens : Binary64.t.
Variable tokens_per_second : Binary64.t.

(** [__init__], with [now] the value of [time.time()]. *)
Definition init (now : Binary64.t) : t :=
  {| tokens := max_tokens; last_refill_time := now |}.

Definition _refill_tokens (now : Binary64.t) (self : t) : t :=
  let time_passed := now - last_refill_time self in
  let tokens_to_add := time_passed * tokens_per_second in
  if 0 <? tokens_to_add then
    {| tokens := Binary64.py_min max_tokens (tokens self + tokens_to_add);
       last_refill_time := now |}
  else self.

(** One pass of the loop of [acquire]; [now] is what [time.time()]
    returns in [_refill_tokens].  A division by zero raises. *)
Definition acquire_pass (now : Binary64.t) (self : t) : pass :=
  let self := _refill_tokens now self in
  if 1 <=? tokens self then
    Granted {| tokens := tokens self - 1;
               last_refill_time := last_refill_time self |}
  else
    let tokens_needed := 1 - tokens self in
    if tokens_per_second =? 0 then ZeroDivisionError self
    else
      let wait_time := tokens_needed / tokens_per_second in
      Waits wait_time (0 <? wait_time) self.

(** [acquire] against the successive readings of the clock, one per
    pass.  [None]: the readings given are used up and the caller is
    still waiting.  The second component lists the sleeps made. *)
Fixpoint acquire (clock : list Binary64.t) (self : t) (sleeps : list Binary64.t)
  : option (result unit * t * list Binary64.t) :=
  match clock with
  | [] => None
  | now :: clock' =>
      match acquire_pass now self with
      | Granted self' => Some (Ok tt, self', sleeps)
      | ZeroDivisionError self' =>
          Some (Raise (Exception "ZeroDivisionError" "float division by zero"),
                self', sleeps)
      | Waits wait_time slept self' =>
          acquire clock' self' (if slept then sleeps ++ [wait_time] else sleeps)
      end
  end.






End Limiter.

Definition within (max_tokens : Binary64.t) (self : t) : Prop :=
  Binary64.le Binary64.zero (tokens self) /\ Binary64.le (tokens self) max_tokens.


(** The waits that make the caller sleep. *)
Definition sleeps_of (waits : list Binary64.t) : list Binary64.t :=
  filter (fun w => 0 <? w) waits.


End TokenBucketRateLimiter.

(** ** app/email_sender.py *)

(** [config.rate_limit] of [app/config.py]. *)
Module RateLimitConfig.
Record t : Type := mk {
  messages_per_second : Z;
  max_retries : Z;
  retry_delay : Z
}.
End RateLimitConfig.

(** What the outside world does during one call of [send_email]: the
    outcome of connecting to the target server (asked for only when there
    is no client yet), the outcome of [sendmail] (a raise, or the
    dictionary of refused recipients), and the values read from the clock
    and the generators of the [email] package. *)
Module Upstream.
Record io : Type := mk {
  connect_outcome : result unit;
  sendmail_outcome : result (list (string * (Z * string)));
  formatdate : string;
  make_msgid : string;
  time_time : float
}.
End Upstream.

Module EmailSender.

(** [self.smtp_client]: [None] or the client object. *)
Record t : Type := mk { smtp_client : option unit }.

(** [connect]: the client object is stored before the connection is
    attempted; a failure is logged and raised again. *)
Definition connect (io : Upstream.io) : M t unit :=
  try_except
    (put {| smtp_client := Some tt |} ;;;
     (fun s => (Upstream.connect_outcome io, s)))
    (fun e => raise e).

Definition failed (message : EmailMessageData.t) (error_msg : string) : SendingResult.t :=
  {| SendingResult.success := false;
     SendingResult.message_id := EmailMessageData.id message;
     SendingResult.error_message := error_msg;
     SendingResult.retry_count := EmailMessageData.retry_count message |}.

Definition succeeded (message : EmailMessageData.t) : SendingResult.t :=
  {| SendingResult.success := true;
     SendingResult.message_id := EmailMessageData.id message;
     SendingResult.error_message := EmptyString;
     SendingResult.retry_count := EmailMessageData.retry_count message |}.

(** [repr] of the dictionary of refused recipients: only its emptiness
    matters to the code, the text is kept short. *)
Definition repr_errors (errors : list (string * (Z * string))) : string :=
  join ", " (map fst errors).

Section Sender.

(** The library's generator, [msg.as_bytes()]. *)
Variable as_bytes : email.MIME -> result string.

Definition send_email (io : Upstream.io) (message : EmailMessageData.t)
  : M t SendingResult.t :=
  try_except
    (self <- get ;;
     match smtp_client self with
     | None => connect io
     | Some _ => ret tt
     end ;;;
     message_bytes <-
       (fun s => (EmailMessageData.to_smtp_message as_bytes
                    (Upstream.formatdate io) (Upstream.make_msgid io) message, s)) ;;
     errors <- (fun s => (Upstream.sendmail_outcome io, s)) ;;
     if list_truthy errors then
       ret (failed message ("发送失败，错误: " ++ repr_errors errors))
     else
       ret (succeeded message))
    (fun e => ret (failed message ("发送异常: " ++ exc_text e))).

End Sender.

End EmailSender.

Module RetryManager.

(** What [send_with_retry] leaves behind: what it returned or raised,
    the message object as mutated, the delays slept in order, the
    sender, and the part of the script not yet played. *)
Record outcome : Type := mk {
  returned : result SendingResult.t;
  message_after : EmailMessageData.t;
  sleeps : list Z;
  sender_after : EmailSender.t;
  script_left : list Upstream.io
}.

Section Retry.

Variable as_bytes : email.MIME -> result string.
Variable config_rate_limit : RateLimitConfig.t.

(** The [while True] loop; every pass plays one entry of the script.
    [None]: the script is used up and the loop is still running. *)
Fixpoint send_with_retry (script : list Upstream.io) (message : EmailMessageData.t)
    (slept : list Z) (sender : EmailSender.t) : option outcome :=
  let max_retries := RateLimitConfig.max_retries config_rate_limit in
  match script with
  | [] => None
  | io :: script' =>
      match EmailSender.send_email as_bytes io message sender with
      | (Raise e, sender') =>
          Some {| returned := Raise e; message_after := message; sleeps := slept;
                  sender_after := sender'; script_left := script' |}
      | (Ok result, sender') =>
          if SendingResult.success result then
            Some {| returned := Ok result; message_after := message; sleeps := slept;
                    sender_after := sender'; script_left := script' |}
          else if negb (EmailMessageData.can_retry message max_retries) then
            Some {| returned := Ok result; message_after := message; sleeps := slept;
                    sender_after := sender'; script_left := script' |}
          else
            let delay :=
              EmailMessageData.get_retry_delay message
                (RateLimitConfig.retry_delay config_rate_limit) in
            let message := EmailMessageData.increment_retry (Upstream.time_time io) message in
            send_with_retry script' message (slept ++ [delay]) sender'
      end
  end.

End Retry.

End RetryManager.

Module EmailWorker.

Section Worker.

Variable as_bytes : email.MIME -> result string.
Variable config_rate_limit : RateLimitConfig.t.

(** The statements of [_process_message] after the send, inside its
    [try]. *)
Definition settle (result : SendingResult.t) (message : EmailMessageData.t)
  : M QueueManager.t unit :=
  if SendingResult.success result then
    QueueManager.mark_completed (EmailMessageData.id message) "sent"
  else if EmailMessageData.can_retry message
            (RateLimitConfig.max_retries config_rate_limit) then
    let message := EmailMessageData.set_status "pending" message in
    QueueManager.enqueue message ;;;
    QueueManager.mark_completed (EmailMessageData.id message) "failed_retry"
  else
    QueueManager.mark_completed (EmailMessageData.id message) "failed".

(** The [except Exception] branch of [_process_message]. *)
Definition requeue_after_exception (message : EmailMessageData.t)
  : M QueueManager.t unit :=
  try_except
    (let message := EmailMessageData.set_status "pending" message in
     QueueManager.enqueue message ;;;
     QueueManager.mark_completed (EmailMessageData.id message) "failed_retry")
    (fun _ => ret tt).

(** [_process_message]: the retry-wrapped send, then the settlement on
    the queue manager.  [None]: the script ended before the send
    returned. *)
Definition _process_message (script : list Upstream.io) (message : EmailMessageData.t)
    (sender : EmailSender.t) (qm : QueueManager.t)
  : option (QueueManager.t * RetryManager.outcome) :=
  match RetryManager.send_with_retry as_bytes config_rate_limit script message [] sender with
  | None => None
  | Some o =>
      let message := RetryManager.message_after o in
      let body : M QueueManager.t unit :=
        match RetryManager.returned o with
        | Ok result => settle result message
        | Raise e => raise e
        end in
      let '(_, qm') :=
        try_except body (fun _ => requeue_after_exception message) qm in
      Some (qm', o)
  end.

End Worker.

End EmailWorker.

(** ** app/smtp_proxy.py *)

Module SMTPProxyHandler.

Section Handler.

Variable message_from_bytes : string -> email.Message.
Variable decode_utf8_ignore : string -> string.

(** [config.proxy.max_message_size]: read by the handler, not
    declared in [app/config.py]. *)
Variable max_message_size : Z.

Definition _validate_message (message : EmailMessageData.t) : bool :=
  if negb (str_truthy (EmailMessageData.from_addr message)) then false
  else if negb (list_truthy (EmailMessageData.to_addrs message)) then false
  else
    let message_size := Z.of_nat (String.length (EmailMessageData.message_body message)) in
    if message_size >? max_message_size then false
    else true.

Definition reply_550 : string := "550 邮件数据无效".
Definition reply_250 : string := "250 邮件已接收并加入队列".
Definition reply_451 : string := "451 处理邮件时发生错误".

(** [handle_DATA] on the process-wide queue manager, the object that
    [get_queue_manager()] hands to the handler.  [fresh_uuid] and
    [now] are the values drawn for the new message. *)
Definition handle_DATA (fresh_uuid : string) (now : float)
    (envelope : EmailMessageData.Envelope) : M QueueManager.t string :=
  try_except
    (message <-
       (fun qm => (EmailMessageData.from_smtp_message message_from_bytes
                     decode_utf8_ignore fresh_uuid now envelope
                     (EmailMessageData.content envelope), qm)) ;;
     if negb (_validate_message message) then ret reply_550
     else
       QueueManager.enqueue message ;;;
       ret reply_250)
    (fun _ => ret reply_451).

End Handler.

(** The three-digit code that opens a reply line. *)
Definition reply_code (reply : string) : string := String.substring 0 3 reply.

End SMTPProxyHandler.

(** ** Library behaviour on plain messages

    The closed examples below need the [email] package on concrete
    input.  [PlainMail.message_from_bytes] follows the parser on
    single-part messages: header lines [Name: value] ended by LF or CRLF,
    an empty line, then the body, with no transfer encoding.
    [PlainMail.decode_utf8_ignore] is the decoder on valid UTF-8, where
    nothing is ignored.  [PlainMail.as_bytes] is a generator that refuses
    every header value holding CR or LF and otherwise writes the fields
    and the payload. *)
Module PlainMail.

(** The text up to the first LF, and what follows that LF if any. *)
Fixpoint take_line (s : string) : string * option string :=
  match s with
  | EmptyString => (EmptyString, None)
  | String c s' =>
      if Ascii.eqb c LF then (EmptyString, Some s')
      else let '(l, r) := take_line s' in (String c l, r)
  end.

Fixpoint strip_cr (line : string) : string :=
  match line with
  | EmptyString => EmptyString
  | String c EmptyString => if Ascii.eqb c CR then EmptyString else line
  | String c l' => String c (strip_cr l')
  end.

Fixpoint lstrip (s : string) : string :=
  match s with
  | String c s' =>
      if Ascii.eqb c " " || Ascii.eqb c (ascii_of_nat 9) then lstrip s' else s
  | EmptyString => EmptyString
  end.

(** [line.split(':', 1)] *)
Fixpoint split_colon (line : string) : option (string * string) :=
  match line with
  | EmptyString => None
  | String c l' =>
      if Ascii.eqb c ":" then Some (EmptyString, l')
      else match split_colon l' with
           | Some (n, v) => Some (String c n, v)
           | None => None
           end
  end.

(** The header block and the body; [fuel] bounds the number of lines. *)
Fixpoint parse (fuel : nat) (s : string) (acc : list (string * string))
  : list (string * string) * string :=
  match fuel with
  | O => (acc, s)
  | S fuel' =>
      let '(raw, rest) := take_line s in
      let line := strip_cr raw in
      if String.eqb line "" then
        (acc, match rest with Some r => r | None => EmptyString end)
      else
        match split_colon line with
        | None => (acc, s)
        | Some (name, value) =>
            match rest with
            | Some r => parse fuel' r (acc ++ [(name, lstrip value)])
            | None => (acc ++ [(name, lstrip value)], EmptyString)
            end
        end
  end.

Fixpoint before_semicolon (s : string) : string :=
  match s with
  | EmptyString => EmptyString
  | String c s' => if Ascii.eqb c ";" then EmptyString else String c (before_semicolon s')
  end.

Definition message_from_bytes (data : string) : email.Message :=
  let '(hs, body) := parse (S (String.length data)) data [] in
  let ctype :=
    match email.first_field hs "Content-Type" with
    | Some v => lower (before_semicolon v)
    | None => "text/plain"%string
    end in
  email.Single hs ctype body.

Definition decode_utf8_ignore (b : string) : string := b.

Definition MalformedHeader : exn :=
  Exception "MalformedHeader" "header value contains CR or LF".

Definition CRLF : string := String CR (String LF EmptyString).

Definition render (msg : email.MIME) : string :=
  (String.concat EmptyString
     (map (fun kv => fst kv ++ ": " ++ snd kv ++ CRLF) (email.fields msg))
   ++ CRLF
   ++ match email.text msg with Some t => t | None => EmptyString end)%string.

Definition as_bytes (msg : email.MIME) : result string :=
  if existsb (fun kv => has_cr_or_lf (snd kv)) (email.fields msg)
  then Raise MalformedHeader
  else Ok (render msg).

(** [n] copies of a character. *)
Fixpoint replicate (n : nat) (c : ascii) : string :=
  match n with
  | O => EmptyString
  | S n' => String c (replicate n' c)
  end.

End PlainMail.

(** ** Sequences of queue operations *)

(** The three operations of the queue contract.  [Settle] is
    [mark_completed]: on Redis it takes the message id alone, on SQLite
    the id and the terminal status. *)
Inductive queue_op : Type :=
| Enqueue (message : EmailMessageData.t)
| Dequeue (fresh_uuid : string) (now : float)
| Settle (message_id : string) (status : string).

Definition apply_op (o : queue_op) (qm : QueueManager.t) : QueueManager.t :=
  match o with
  | Enqueue m => snd (QueueManager.enqueue m qm)
  | Dequeue u n => snd (QueueManager.dequeue u n qm)
  | Settle i st =>
      match qm with
      | QueueManager.RedisQM s =>
          snd (QueueManager.on_redis (RedisQueueManager.mark_completed i) s)
      | QueueManager.SQLiteQM d =>
          snd (QueueManager.on_sqlite (SQLiteQueueManager.mark_completed i st) d)
      end
  end.

Definition run_ops (ops : list queue_op) (qm : QueueManager.t) : QueueManager.t :=
  fold_left (fun q o => apply_op o q) ops qm.

(** No message id is in [ready] and in [in_flight] at once. *)
Definition disjoint_collections (qm : QueueManager.t) : Prop :=
  forall i, In i (QueueManager.ready_ids qm) -> ~ In i (QueueManager.in_flight_ids qm).

(** Every id is held once: in the two Redis lists together, respectively
    in the table (its primary key). *)
Definition ids_unique (qm : QueueManager.t) : Prop :=
  match qm with
  | QueueManager.RedisQM s =>
      NoDup (QueueManager.item_ids (Redis.queue s)
             ++ QueueManager.item_ids (Redis.processing s))
  | QueueManager.SQLiteQM d => NoDup (map SQLite.id (SQLite.smtp_queue d))
  end.

(** On Redis, the message that [o] enqueues is not on the queue already,
    ready or in flight. *)
Definition enqueues_fresh (o : queue_op) (qm : QueueManager.t) : Prop :=
  match o, qm with
  | Enqueue m, QueueManager.RedisQM s =>
      ~ In (EmailMessageData.id m)
           (QueueManager.item_ids (Redis.queue s)
            ++ QueueManager.item_ids (Redis.processing s))
  | _, _ => True
  end.

Fixpoint all_enqueues_fresh (ops : list queue_op) (qm : QueueManager.t) : Prop :=
  match ops with
  | [] => True
  | o :: ops' => enqueues_fresh o qm /\ all_enqueues_fresh ops' (apply_op o qm)
  end.

(** The queue as the backend named by the configuration holds it when the
    process starts. *)
Definition stored_queue (cfg : QueueConfig.t) (b : Backends) : QueueManager.t :=
  if String.eqb (QueueConfig.backend cfg) "redis"
  then QueueManager.RedisQM (redis_server b)
  else QueueManager.SQLiteQM (sqlite_file b).

(** ** Inputs of the examples *)

(** The second scenario of the specification, run: [max_retries = 3],
    [base_delay = 1], the upstream answers 421 twice and then accepts. *)
Definition scenario_message : EmailMessageData.t :=
  {| EmailMessageData.id := "m-1";
     EmailMessageData.from_addr := "a@x";
     EmailMessageData.to_addrs := ["b@y"%string];
     EmailMessageData.message_headers := [("Subject"%string, "hi"%string)];
     EmailMessageData.message_body := "hello";
     EmailMessageData.created_at := 100%Q;
     EmailMessageData.retry_count := 0;
     EmailMessageData.last_retry_at := 0%Q;
     EmailMessageData.status := "pending" |}.

Definition answers_421 (now : float) : Upstream.io :=
  {| Upstream.connect_outcome := Ok tt;
     Upstream.sendmail_outcome := Raise (Exception "SMTPResponseException" "421");
     Upstream.formatdate := "Tue, 03 Nov 2026 10:00:00 -0000";
     Upstream.make_msgid := "<1@relay>";
     Upstream.time_time := now |}.

Definition accepts (now : float) : Upstream.io :=
  {| Upstream.connect_outcome := Ok tt;
     Upstream.sendmail_outcome := Ok [];
     Upstream.formatdate := "Tue, 03 Nov 2026 10:00:00 -0000";
     Upstream.make_msgid := "<1@relay>";
     Upstream.time_time := now |}.

Definition scenario_config : RateLimitConfig.t :=
  {| RateLimitConfig.messages_per_second := 10;
     RateLimitConfig.max_retries := 3;
     RateLimitConfig.retry_delay := 1 |}.

(** The Redis server out of reach, its lists empty. *)
Definition redis_down : QueueManager.t :=
  QueueManager.RedisQM {| Redis.queue := []; Redis.processing := []; Redis.up := false |}.

(** The envelope of the first scenario of the specification. *)
Definition hello_envelope : EmailMessageData.Envelope :=
  {| EmailMessageData.mail_from := Some "a@x"%string;
     EmailMessageData.rcpt_tos := ["b@y"%string];
     EmailMessageData.content :=
       ("Subject: hi" ++ PlainMail.CRLF ++ PlainMail.CRLF ++ "hello")%string |}.

Definition hello_message : EmailMessageData.t :=
  {| EmailMessageData.id := "uuid-1";
     EmailMessageData.from_addr := "a@x";
     EmailMessageData.to_addrs := ["b@y"%string];
     EmailMessageData.message_headers := [("Subject"%string, "hi"%string)];
     EmailMessageData.message_body := "hello";
     EmailMessageData.created_at := 100%Q;
     EmailMessageData.retry_count := 0;
     EmailMessageData.last_retry_at := 0%Q;
     EmailMessageData.status := "pending" |}.

(** A DATA block of 2048 bytes: one header of 2033 characters, the empty
    line, and a body of two bytes. *)
Definition long_header_envelope : EmailMessageData.Envelope :=
  {| EmailMessageData.mail_from := Some "a@x"%string;
     EmailMessageData.rcpt_tos := ["b@y"%string];
     EmailMessageData.content :=
       ("Subject: " ++ PlainMail.replicate 2033 "x" ++ PlainMail.CRLF ++ PlainMail.CRLF
        ++ "hi")%string |}.

Definition long_header_message : EmailMessageData.t :=
  {| EmailMessageData.id := "uuid-2";
     EmailMessageData.from_addr := "a@x";
     EmailMessageData.to_addrs := ["b@y"%string];
     EmailMessageData.message_headers :=
       [("Subject"%string, PlainMail.replicate 2033 "x")];
     EmailMessageData.message_body := "hi";
     EmailMessageData.created_at := 100%Q;
     EmailMessageData.retry_count := 0;
     EmailMessageData.last_retry_at := 0%Q;
     EmailMessageData.status := "pending" |}.

Definition redis_empty : QueueManager.t :=
  QueueManager.RedisQM {| Redis.queue := []; Redis.processing := []; Redis.up := true |}.

(** A DATA block whose body text alone is 2048 bytes is refused with 550
    and the queue is left as it was. *)
Definition long_body_envelope : EmailMessageData.Envelope :=
  {| EmailMessageData.mail_from := Some "a@x"%string;
     EmailMessageData.rcpt_tos := ["b@y"%string];
     EmailMessageData.content :=
       ("Subject: hi" ++ PlainMail.CRLF ++ PlainMail.CRLF
        ++ PlainMail.replicate 2048 "x")%string |}.

(** The worker's order on a message taken from the queue: the message is
    enqueued again while its entry is still in flight. *)
Definition requeue_in_flight : list queue_op :=
  [ Enqueue hello_message; Dequeue "uuid-9" 101%Q; Enqueue hello_message ].

(** A Redis server that is reached at process start with one entry left
    in flight by a worker that was killed. *)
Definition crashed_backends : Backends :=
  {| redis_server :=
       {| Redis.queue := [];
          Redis.processing := [EmailMessageData.to_dict hello_message];
          Redis.up := true |};
     sqlite_file := {| SQLite.smtp_queue := []; SQLite.usable := true |} |}.

Definition redis_config : QueueConfig.t :=
  {| QueueConfig.backend := "redis";
     QueueConfig.redis_url := "redis://localhost:6379";
     QueueConfig.sqlite_path := "/data/queue.db" |}.

(** Redis after [hello_message] was enqueued and dequeued: the entry is in
    flight. *)
Definition redis_in_flight : QueueManager.t :=
  QueueManager.RedisQM
    {| Redis.queue := [];
       Redis.processing := [EmailMessageData.to_dict hello_message];
       Redis.up := true |}.

(** A message whose only header is a [Content-Type] with a line break
    and a second header line in its value. *)
Definition injected_content_type : EmailMessageData.t :=
  {| EmailMessageData.id := "uuid-4";
     EmailMessageData.from_addr := "a@x";
     EmailMessageData.to_addrs := ["b@y"%string];
     EmailMessageData.message_headers :=
       [("Content-Type"%string,
         ("text/plain" ++ PlainMail.CRLF ++ "Bcc: c@z")%string)];
     EmailMessageData.message_body := "hi";
     EmailMessageData.created_at := 100%Q;
     EmailMessageData.retry_count := 0;
     EmailMessageData.last_retry_at := 0%Q;
     EmailMessageData.status := "pending" |}.

(** The same break in the value of a header that is copied. *)
Definition injected_subject : EmailMessageData.t :=
  {| EmailMessageData.id := "uuid-5";
     EmailMessageData.from_addr := "a@x";
     EmailMessageData.to_addrs := ["b@y"%string];
     EmailMessageData.message_headers :=
       [("Subject"%string, ("hi" ++ PlainMail.CRLF ++ "Bcc: c@z")%string)];
     EmailMessageData.message_body := "hi";
     EmailMessageData.created_at := 100%Q;
     EmailMessageData.retry_count := 0;
     EmailMessageData.last_retry_at := 0%Q;
     EmailMessageData.status := "pending" |}.

(** Some header value of the message holds CR or LF. *)
Definition some_header_has_cr_or_lf (m : EmailMessageData.t) : bool :=
  existsb (fun kv => has_cr_or_lf (snd kv)) (EmailMessageData.message_headers m).

(** The generator refuses, with [e], every message object one of whose
    field values holds CR or LF. *)
Definition refuses_cr_or_lf (as_bytes : email.MIME -> result string) (e : exn) : Prop :=
  forall msg,
    existsb (fun kv => has_cr_or_lf (snd kv)) (email.fields msg) = true ->
    as_bytes msg = Raise e.

(** ** Helpers for stating further properties *)

(** The body text that the loop over [message.walk()] leaves for a list
    of parts: the text of the first [text/plain] part when there is one,
    otherwise the text of the last [text/html] part, otherwise [dflt]. *)
Definition is_plain (p : email.Message) : bool :=
  String.eqb (email.get_content_type p) "text/plain".

Definition is_html (p : email.Message) : bool :=
  String.eqb (email.get_content_type p) "text/html".

Definition payload_text (decode : string -> string) (p : email.Message) : string :=
  match email.get_payload_decoded p with
  | Some b => decode b
  | None => EmptyString
  end.

(** The parts before the first [text/plain] part. *)
Fixpoint before_plain (parts : list email.Message) : list email.Message :=
  match parts with
  | [] => []
  | p :: rest => if is_plain p then [] else p :: before_plain rest
  end.

Definition first_plain_else_last_html (decode : string -> string)
    (parts : list email.Message) (dflt : string) : string :=
  match find is_plain parts with
  | Some p => payload_text decode p
  | None =>
      match find is_html (rev parts) with
      | Some p => payload_text decode p
      | None => dflt
      end
  end.

(** The names that [to_smtp_message] makes sure of. *)
Definition ensured_names : list string :=
  [ "From"%string; "To"%string; "Date"%string; "Message-ID"%string ].

(** A parser that answers every input with one multipart message: an
    HTML part, a plain part, a second HTML part. *)
Definition three_part_message : email.Message :=
  email.Multipart [("Content-Type"%string, "multipart/alternative"%string)]
    "multipart/alternative"
    [ email.Single [] "text/html" "<p>one</p>";
      email.Single [] "text/plain" "two";
      email.Single [] "text/html" "<p>three</p>" ].

(** [enqueue] of each message of a list in turn, on the Redis manager. *)
Definition redis_enqueue_all (ms : list EmailMessageData.t) (s : Redis.store) : Redis.store :=
  fold_left (fun s m => snd (RedisQueueManager.enqueue m s)) ms s.

(** [n] calls of [dequeue] on the Redis manager, stopping at the first
    that returns [None]: the messages returned, in order, and the store
    left. *)
Fixpoint redis_drain (fresh_uuid : string) (now : float) (n : nat) (s : Redis.store)
  : list EmailMessageData.t * Redis.store :=
  match n with
  | O => ([], s)
  | S n' =>
      match RedisQueueManager.dequeue fresh_uuid now s with
      | (Ok (Some m), s') =>
          let '(ms, s'') := redis_drain fresh_uuid now n' s' in (m :: ms, s'')
      | (_, s') => ([], s')
      end
  end.

(** An SQLite table with two pending rows, the second one older. *)
Definition two_row_table : SQLite.db :=
  {| SQLite.smtp_queue :=
       [ SQLiteQueueManager.row_of (EmailMessageData.to_dict hello_message);
         SQLiteQueueManager.row_of (EmailMessageData.to_dict scenario_message) ];
     SQLite.usable := true |}.

(** [SQLiteQueueManager.update_retry_count(message_id, retry_count)];
    [now] is the value of [time.time()]. *)
Definition set_retry (retry_count : Z) (now : float) (r : SQLite.row) : SQLite.row :=
  {| SQLite.id := SQLite.id r; SQLite.from_addr := SQLite.from_addr r;
     SQLite.to_addrs := SQLite.to_addrs r;
     SQLite.message_headers := SQLite.message_headers r;
     SQLite.message_body := SQLite.message_body r;
     SQLite.created_at := SQLite.created_at r; SQLite.retry_count := retry_count;
     SQLite.last_retry_at := now; SQLite.status := SQLite.status r;
     SQLite.processing := SQLite.processing r |}.

Definition update_retry_count (now : float) (message_id : string) (retry_count : Z)
  : M SQLite.db unit :=
  try_except
    (SQLite.update_where_id message_id (set_retry retry_count now))
    (fun _ => ret tt).

(** ** app/rate_limiter.py, the other limiters *)

Module FixedWindowRateLimiter.

Import PrimFloat.
Local Open Scope float_scope.

Record t : Type := mk {
  window_start : Binary64.t;
  request_count : Z
}.

Section Limiter.

(** [config.rate_limit.window_seconds] and
    [config.rate_limit.requests_per_window]: read by the limiter, not
    declared in [app/config.py]. *)
Variable window_seconds : Binary64.t.
Variable requests_per_window : Z.

(** [__init__], with [now] the value of [time.time()]. *)
Definition init (now : Binary64.t) : t :=
  {| window_start := now; request_count := 0 |}.

(** [acquire]: [now] is the first reading of the clock, [later] the one
    taken after the wait.  The result is the limiter afterwards and the
    time slept, if any.  The call returns after one pass. *)
Definition acquire (now later : Binary64.t) (self : t) : t * option Binary64.t :=
  let self :=
    if window_seconds <=? now - window_start self
    then {| window_start := now; request_count := 0 |}
    else self in
  if (request_count self >=? requests_per_window)%Z then
    let wait_time := window_start self + window_seconds - now in
    ({| window_start := later; request_count := (0 + 1)%Z |},
     if 0 <? wait_time then Some wait_time else None)
  else
    ({| window_start := window_start self;
        request_count := (request_count self + 1)%Z |}, None).

End Limiter.

End FixedWindowRateLimiter.

Module LeakyBucketRateLimiter.

Local Open Scope Q_scope.

(** [bucket_capacity] and [leak_rate] are copied from the configuration
    by [__init__] and never assigned again. *)
Record t : Type := mk {
  bucket_capacity : float;
  leak_rate : float;
  current_volume : float;
  last_leak_time : float
}.

Inductive pass : Type :=
| Granted (self : t)
| Waits (wait_time : float) (slept : bool) (self : t)
| ZeroDivisionError (self : t).

(** [__init__], with [now] the value of [time.time()]. *)
Definition init (capacity rate now : float) : t :=
  {| bucket_capacity := capacity; leak_rate := rate;
     current_volume := 0; last_leak_time := now |}.

Definition _leak_bucket (now : float) (self : t) : t :=
  let time_passed := now - last_leak_time self in
  let leaked_amount := time_passed * leak_rate self in
  if Qlt_bool 0 leaked_amount then
    {| bucket_capacity := bucket_capacity self; leak_rate := leak_rate self;
       current_volume := Qmax 0 (current_volume self - leaked_amount);
       last_leak_time := now |}
  else self.

(** One pass of the loop of [acquire]. *)
Definition acquire_pass (now : float) (self : t) : pass :=
  let self := _leak_bucket now self in
  if Qlt_bool (current_volume self) (bucket_capacity self) then
    Granted {| bucket_capacity := bucket_capacity self; leak_rate := leak_rate self;
               current_volume := current_volume self + 1;
               last_leak_time := last_leak_time self |}
  else
    let overflow := current_volume self - bucket_capacity self + 1 in
    if Qeq_bool (leak_rate self) 0 then ZeroDivisionError self
    else
      let wait_time := overflow / leak_rate self in
      Waits wait_time (Qlt_bool 0 wait_time) self.

(** [acquire] against the successive readings of the clock. *)
Fixpoint acquire (clock : list float) (self : t) (sleeps : list float)
  : option (result unit * t * list float) :=
  match clock with
  | [] => None
  | now :: clock' =>
      match acquire_pass now self with
      | Granted self' => Some (Ok tt, self', sleeps)
      | ZeroDivisionError self' =>
          Some (Raise (Exception "ZeroDivisionError" "float division by zero"),
                self', sleeps)
      | Waits wait_time slept self' =>
          acquire clock' self' (if slept then sleeps ++ [wait_time] else sleeps)
      end
  end.

(** The volume is not negative and stays below capacity plus one. *)
Definition within (self : t) : Prop :=
  0 <= current_volume self /\ current_volume self < bucket_capacity self + 1.

End LeakyBucketRateLimiter.

Module CompositeRateLimiter.

Inductive limiter : Type :=
| TokenBucket
| FixedWindow
| LeakyBucket.

(** [__init__]: the limiters created, in order.  [strategy] and the three
    flags are [config.rate_limit.strategy], [enable_token_bucket],
    [enable_fixed_window] and [enable_leaky_bucket], read by the limiter
    and not declared in [app/config.py]. *)
Definition init (strategy : string)
    (enable_token_bucket enable_fixed_window enable_leaky_bucket : bool) : list limiter :=
  let limiters :=
    if String.eqb strategy "token_bucket" then [TokenBucket]
    else if String.eqb strategy "fixed_window" then [FixedWindow]
    else if String.eqb strategy "leaky_bucket" then [LeakyBucket]
    else if String.eqb strategy "composite" then
      (if enable_token_bucket then [TokenBucket] else [])
      ++ (if enable_fixed_window then [FixedWindow] else [])
      ++ (if enable_leaky_bucket then [LeakyBucket] else [])
    else [] in
  if negb (list_truthy limiters) then limiters ++ [TokenBucket] else limiters.

End CompositeRateLimiter.

(** ** app/smtp_proxy.py, the handlers of AUTH and MAIL *)

(** What the handlers keep in the [session] dictionary. *)
Inductive session_value : Type :=
| SBool (b : bool)
| SStr (s : string).

Definition session := list (string * session_value).

(** Python truthiness of [session.get(key)]. *)
Definition session_truthy (v : option session_value) : bool :=
  match v with
  | None => false
  | Some (SBool b) => b
  | Some (SStr s) => str_truthy s
  end.

(** [session[key] = value] *)
Definition session_setitem (key : string) (value : session_value) : M session unit :=
  fun s => (Ok tt, dict_set s key value).

Module SMTPAuthHandler.

Section Handler.

(** [str.upper] and [bytes.decode('utf-8')], which raises on bytes that
    are not UTF-8. *)
Variable upper : string -> string.
Variable decode_utf8 : string -> result string.

(** [config.proxy.auth_required], [auth_username] and [auth_password]:
    read by the handler, not declared in [app/config.py]. *)
Variable auth_required : bool.
Variable auth_username : string.
Variable auth_password : string.

(** [self.valid_users], set by [__init__]. *)
Definition valid_users : list (string * string) :=
  if str_truthy auth_username && str_truthy auth_password
  then [(auth_username, auth_password)]
  else [].

Definition auth_MECHANISM (mechanism : string) (args : string) : M session bool :=
  try_except
    (if negb auth_required then ret true
     else if negb (existsb (String.eqb (upper mechanism)) ["LOGIN"; "PLAIN"]%string)
     then ret false
     else ret true)
    (fun _ => ret false).

Definition _authenticate (args : string) : M session bool :=
  try_except
    (if negb auth_required then ret true
     else
       args <- (fun s => (decode_utf8 args, s)) ;;
       if negb (list_truthy valid_users) then ret false
       else
         let username := auth_username in
         let password := auth_password in
         if match dict_get valid_users username with
            | Some stored => String.eqb stored password
            | None => false
            end
         then
           session_setitem "authenticated" (SBool true) ;;;
           session_setitem "username" (SStr username) ;;;
           ret true
         else ret false)
    (fun _ => ret false).

Definition auth_LOGIN (args : string) : M session bool := _authenticate args.

Definition auth_PLAIN (args : string) : M session bool := _authenticate args.

End Handler.

End SMTPAuthHandler.

Module EnhancedSMTPProxyHandler.

(** The methods of [SMTPAuthHandler] whose name starts with [auth_]. *)
Inductive auth_method : Type :=
| Auth_MECHANISM
| Auth_LOGIN
| Auth_PLAIN.

(** [getattr(self.auth_handler, name, None)] for a name [auth_...]. *)
Definition getattr_auth_handler (name : string) : option auth_method :=
  if String.eqb name "auth_MECHANISM" then Some Auth_MECHANISM
  else if String.eqb name "auth_LOGIN" then Some Auth_LOGIN
  else if String.eqb name "auth_PLAIN" then Some Auth_PLAIN
  else None.

Definition reply_530_disabled : string := "530 认证未启用".
Definition reply_501 : string := "501 语法错误".
Definition reply_504 : string := "504 认证机制不支持".
Definition reply_235 : string := "235 2.7.0 认证成功".
Definition reply_535 : string := "535 5.7.8 认证失败".
Definition reply_451_auth : string := "451 认证处理错误".
Definition reply_530 : string := "530 5.7.0 需要认证".
Definition reply_451_mail : string := "451 处理命令时发生错误".

Section Handler.

(** [str.split()], [str.upper] and [bytes.decode('utf-8')]. *)
Variable split : string -> list string.
Variable upper : string -> string.
Variable decode_utf8 : string -> result string.

Variable auth_required : bool.
Variable auth_username : string.
Variable auth_password : string.

(** The call [auth_method(server, session, args)]: [auth_MECHANISM]
    takes one positional argument more and the call raises. *)
Definition call_auth_method (m : auth_method) (args : string) : M session bool :=
  match m with
  | Auth_MECHANISM =>
      raise (Exception "TypeError"
               "auth_MECHANISM() missing 1 required positional argument: 'args'")
  | Auth_LOGIN =>
      SMTPAuthHandler.auth_LOGIN decode_utf8 auth_required auth_username auth_password args
  | Auth_PLAIN =>
      SMTPAuthHandler.auth_PLAIN decode_utf8 auth_required auth_username auth_password args
  end.

Definition handle_AUTH (command arg : string) : M session string :=
  try_except
    (if negb auth_required then ret reply_530_disabled
     else
       let parts := split command in
       if (Z.of_nat (List.length parts) <? 2)%Z then ret reply_501
       else
         let mechanism := upper (nth 1 parts ""%string) in
         match getattr_auth_handler ("auth_" ++ mechanism) with
         | None => ret reply_504
         | Some auth_method =>
             success <- call_auth_method auth_method
                          (if str_truthy arg then arg else ""%string) ;;
             if success then
               session_setitem "authenticated" (SBool true) ;;;
               ret reply_235
             else ret reply_535
         end)
    (fun _ => ret reply_451_auth).

(** [super().handle_MAIL]: neither [SMTPProxyHandler] nor [object]
    defines [handle_MAIL]. *)
Definition super_handle_MAIL (command from_addr : string) : M session string :=
  raise (Exception "AttributeError" "'super' object has no attribute 'handle_MAIL'").

Definition handle_MAIL (command from_addr : string) : M session string :=
  try_except
    (s <- get ;;
     if auth_required && negb (session_truthy (dict_get s "authenticated"))
     then ret reply_530
     else super_handle_MAIL command from_addr)
    (fun _ => ret reply_451_mail).

End Handler.

End EnhancedSMTPProxyHandler.

(** ** app/monitoring.py *)

Module EmailMetrics.

Local Open Scope Q_scope.

Record t : Type := mk {
  sent_count : Z;
  failed_count : Z;
  retry_count : Z;
  start_time : float
}.

(** [__init__], with [now] the value of [time.time()]. *)
Definition init (now : float) : t :=
  {| sent_count := 0; failed_count := 0; retry_count := 0; start_time := now |}.

Definition record_sent (self : t) : t :=
  {| sent_count := (sent_count self + 1)%Z; failed_count := failed_count self;
     retry_count := retry_count self; start_time := start_time self |}.

Definition record_failed (self : t) : t :=
  {| sent_count := sent_count self; failed_count := (failed_count self + 1)%Z;
     retry_count := retry_count self; start_time := start_time self |}.

Definition record_retry (self : t) : t :=
  {| sent_count := sent_count self; failed_count := failed_count self;
     retry_count := (retry_count self + 1)%Z; start_time := start_time self |}.

(** [get_stats], with [now] the value of [time.time()]. *)
Definition get_stats (now : float) (self : t) : pydict :=
  let uptime := now - start_time self in
  let total_attempts := (sent_count self + failed_count self)%Z in
  [ ("sent_count"%string, PInt (sent_count self));
    ("failed_count"%string, PInt (failed_count self));
    ("retry_count"%string, PInt (retry_count self));
    ("total_attempts"%string, PInt total_attempts);
    ("success_rate"%string,
       if (total_attempts >? 0)%Z
       then PFloat (inject_Z (sent_count self) / inject_Z total_attempts)
       else PInt 0);
    ("uptime_seconds"%string, PFloat uptime);
    ("emails_per_minute"%string,
       if Qlt_bool 0 uptime
       then PFloat (inject_Z (sent_count self) / (uptime / 60))
       else PInt 0) ].

End EmailMetrics.

Module HealthChecker.

Local Open Scope Q_scope.

(** The entries of [system_metrics] that [_calculate_health_status]
    reads: [cpu_usage], [memory_usage.percent] and [disk_usage.percent],
    the numbers given by [psutil]. *)
Record system_metrics : Type := mk_system {
  cpu_usage : float;
  memory_percent : float;
  disk_percent : float
}.

(** [value > bound] and [value < bound] for a number; anything else
    compared with a number raises [TypeError]. *)
Definition number (value : pyval) : result float :=
  match value with
  | PInt z => Ok (inject_Z z)
  | PFloat q => Ok q
  | _ => Raise (Exception "TypeError" "'>' not supported between instances")
  end.

Definition gt (value : pyval) (bound : float) : result bool :=
  match number value with
  | Ok q => Ok (Qlt_bool bound q)
  | Raise e => Raise e
  end.

Definition lt (value : pyval) (bound : float) : result bool :=
  match number value with
  | Ok q => Ok (Qlt_bool q bound)
  | Raise e => Raise e
  end.

Definition _calculate_health_status (system : system_metrics)
    (queue_stats email_stats : pydict) : result string :=
  let cpu_usage := cpu_usage system in
  let memory_usage := memory_percent system in
  let disk_usage := disk_percent system in
  if Qlt_bool 90 cpu_usage || Qlt_bool 90 memory_usage || Qlt_bool 90 disk_usage
  then Ok "unhealthy"%string
  else if Qlt_bool 80 cpu_usage || Qlt_bool 80 memory_usage || Qlt_bool 80 disk_usage
  then Ok "degraded"%string
  else
    let pending_count := dict_get_default queue_stats "pending_count" (PInt 0) in
    match gt pending_count 1000 with
    | Raise e => Raise e
    | Ok true => Ok "degraded"%string
    | Ok false =>
        let success_rate := dict_get_default email_stats "success_rate" (PFloat 1) in
        match lt success_rate (1 # 2) with
        | Raise e => Raise e
        | Ok true => Ok "unhealthy"%string
        | Ok false =>
            match lt success_rate (4 # 5) with
            | Raise e => Raise e
            | Ok true => Ok "degraded"%string
            | Ok false => Ok "healthy"%string
            end
        end
    end.

End HealthChecker.

Module MetricsCollector.

Section Collector.

(** The type of the dictionaries returned by [check_health]. *)
Variable health_status : Type.

Definition max_history_size : Z := 1000.

(** [collect_metrics], with [status] the dictionary that
    [check_health] returned; the object is [self.metrics_history]. *)
Definition collect_metrics (status : health_status) : M (list health_status) health_status :=
  fun metrics_history =>
    let metrics_history := metrics_history ++ [status] in
    let metrics_history :=
      if (Z.of_nat (List.length metrics_history) >? max_history_size)%Z
      then List.tl metrics_history
      else metrics_history in
    (Ok status, metrics_history).

(** The slice [l[start:]]. *)
Definition slice_from (start : Z) (l : list health_status) : list health_status :=
  if (start <? 0)%Z
  then List.skipn (Z.to_nat (Z.max 0 (Z.of_nat (List.length l) + start))) l
  else List.skipn (Z.to_nat start) l.

Definition get_metrics_history (limit : Z) (metrics_history : list health_status)
  : list health_status :=
  if negb (limit =? 0)%Z then slice_from (- limit) metrics_history
  else metrics_history.

(** Successive calls of [collect_metrics], one per status. *)
Fixpoint collect_all (statuses : list health_status) (metrics_history : list health_status)
  : list health_status :=
  match statuses with
  | [] => metrics_history
  | status :: statuses' =>
      collect_all statuses' (snd (collect_metrics status metrics_history))
  end.

End Collector.

End MetricsCollector.

(** Floats of the limiter examples. *)
Module FloatExamples.
Import PrimFloat.
Definition quarter : Binary64.t := 0.25%float.
Definition half : Binary64.t := 0.5%float.
Definition two : Binary64.t := 2%float.
Definition ten : Binary64.t := 10%float.
Definition fifty : Binary64.t := 50%float.
Definition sixty : Binary64.t := 60%float.
Definition seventy : Binary64.t := 70%float.
Definition three : Binary64.t := 3%float.
Definition five : Binary64.t := 5%float.
(** [0.1] and [0.7], as Python reads them. *)
Definition tenth : Binary64.t := 0x1.999999999999ap-4%float.
Definition seven_tenths : Binary64.t := 0x1.6666666666666p-1%float.
(** [0.16259558211053038], [0.044984467446049226] and
    [1.2412764930024345]. *)
Definition tokens_left : Binary64.t := 0x1.4cfee99d1c48cp-3%float.
Definition asleep_at : Binary64.t := 0x1.7083441047bfp-5%float.
Definition awake_at : Binary64.t := 0x1.3dc44bd6bd31p+0%float.
(** [0.9999999999999999], the float below [1.0]. *)
Definition below_one : Binary64.t := 0x1.fffffffffffffp-1%float.
(** [1700000000.0], [1700000000.1] and [1700000001.0]. *)
Definition window_opened : Binary64.t := 0x1.954fc4p+30%float.
Definition window_end : Binary64.t := 0x1.954fc40066666p+30%float.
Definition window_after : Binary64.t := 0x1.954fc404p+30%float.
End FloatExamples.

(** The outcome of the retry loop on [scenario_message] when the upstream
    answers 421 twice and then accepts. *)
Definition retried_twice_message : EmailMessageData.t :=
  {| EmailMessageData.id := "m-1";
     EmailMessageData.from_addr := "a@x";
     EmailMessageData.to_addrs := ["b@y"%string];
     EmailMessageData.message_headers := [("Subject"%string, "hi"%string)];
     EmailMessageData.message_body := "hello";
     EmailMessageData.created_at := 100%Q;
     EmailMessageData.retry_count := 2;
     EmailMessageData.last_retry_at := 102%Q;
     EmailMessageData.status := "pending" |}.

Definition retried_twice_outcome : RetryManager.outcome :=
  {| RetryManager.returned := Ok (EmailSender.succeeded retried_twice_message);
     RetryManager.message_after := retried_twice_message;
     RetryManager.sleeps := [1; 2];
     RetryManager.sender_after := {| EmailSender.smtp_client := Some tt |};
     RetryManager.script_left := [] |}.




(** * Properties *)

Unset Implicit Arguments.

(** ** Facts about the message model *)

Lemma strs_of_map_PStr (l : list string) :
  EmailMessageData.strs_of (map PStr l) = Some l.
Proof.
  induction l as [|s l IH]; simpl; [reflexivity|].
  rewrite IH. reflexivity.
Qed.

Lemma str_items_of_map_PStr (d : list (string * string)) :
  EmailMessageData.str_items_of (map (fun kv => (fst kv, PStr (snd kv))) d) = Some d.
Proof.
  induction d as [|[k v] d IH]; simpl; [reflexivity|].
  rewrite IH. reflexivity.
Qed.

(** C7: the queue dictionary form round-trips: for every message [m],
    [from_dict (to_dict m) = m], whatever the defaults that [from_dict]
    would draw for missing keys; all nine fields are preserved. *)
Theorem from_dict_to_dict :
  forall (fresh_uuid : string) (now : float) (m : EmailMessageData.t),
    EmailMessageData.from_dict fresh_uuid now (EmailMessageData.to_dict m) = m.
Proof.
  intros fresh_uuid now [i f t h b c r l s].
  unfold EmailMessageData.from_dict, EmailMessageData.to_dict, dict_get_default.
  cbn [dict_get String.eqb Ascii.eqb Bool.eqb
       EmailMessageData.id EmailMessageData.from_addr EmailMessageData.to_addrs
       EmailMessageData.message_headers EmailMessageData.message_body
       EmailMessageData.created_at EmailMessageData.retry_count
       EmailMessageData.last_retry_at EmailMessageData.status
       EmailMessageData.as_str EmailMessageData.as_int EmailMessageData.as_float
       EmailMessageData.as_str_list EmailMessageData.as_str_dict].
  rewrite strs_of_map_PStr, str_items_of_map_PStr.
  reflexivity.
Qed.


(** ** Facts about binary64 arithmetic

    What the limiters need of IEEE 754 arithmetic, proved from the
    Standard Library's specification of the primitive floats: the order
    of the values, and that a sum or a difference rounded to nearest
    stays on the right side of a value that is itself a float. *)

Section Binary64Facts.

Import SpecFloat PrimFloat FloatOps FloatAxioms.
Import Binary64.

(** *** Shifts of mantissas *)

Lemma iter_pos_nat {A : Type} (f : A -> A) (p : positive) :
  forall x, SpecFloat.iter_pos f p x = Nat.iter (Pos.to_nat p) f x.
Proof.
  induction p as [p IH|p IH|]; intros x; cbn [SpecFloat.iter_pos].
  - rewrite !IH, Pos2Nat.inj_xI.
    replace (S (2 * Pos.to_nat p)) with (Pos.to_nat p + (Pos.to_nat p + 1))%nat by lia.
    rewrite !Nat.iter_add. cbn [Nat.iter nat_rect]. reflexivity.
  - rewrite !IH, Pos2Nat.inj_xO.
    replace (2 * Pos.to_nat p)%nat with (Pos.to_nat p + Pos.to_nat p)%nat by lia.
    rewrite Nat.iter_add. reflexivity.
  - reflexivity.
Qed.

Lemma shr_1_m (mrs : shr_record) :
  0 <= shr_m mrs -> shr_m (shr_1 mrs) = shr_m mrs / 2.
Proof.
  destruct mrs as [m r s]. cbn [shr_m]. intros Hm.
  destruct m as [|[p|p|]|p]; cbn [shr_1 shr_m]; try lia;
    Z.div_mod_to_equations; lia.
Qed.

Lemma shr_1_exact (mrs : shr_record) :
  0 <= shr_m mrs -> shr_r mrs = false -> shr_s mrs = false ->
  shr_m mrs mod 2 = 0 ->
  shr_r (shr_1 mrs) = false /\ shr_s (shr_1 mrs) = false.
Proof.
  destruct mrs as [m r s]. cbn [shr_m shr_r shr_s]. intros Hm -> -> Hmod.
  destruct m as [|[p|p|]|p]; cbn [shr_1 shr_r shr_s orb]; try lia;
    try (split; reflexivity); exfalso; Z.div_mod_to_equations; lia.
Qed.

Lemma shr_iter (n : nat) (mrs : shr_record) :
  0 <= shr_m mrs ->
  shr_m (Nat.iter n shr_1 mrs) = shr_m mrs / 2 ^ Z.of_nat n
  /\ (shr_r mrs = false -> shr_s mrs = false ->
      shr_m mrs mod 2 ^ Z.of_nat n = 0 ->
      shr_r (Nat.iter n shr_1 mrs) = false /\ shr_s (Nat.iter n shr_1 mrs) = false).
Proof.
  intros Hm. induction n as [|n [IHm IHe]].
  - cbn [Nat.iter nat_rect]. rewrite Z.pow_0_r, Z.div_1_r. split; [reflexivity|].
    intros Hr Hs _. split; assumption.
  - rewrite Nat.iter_succ.
    assert (H0 : 0 <= shr_m (Nat.iter n shr_1 mrs)).
    { rewrite IHm. apply Z.div_pos; [lia|]. apply Z.pow_pos_nonneg; lia. }
    assert (Hp : 0 < 2 ^ Z.of_nat n) by (apply Z.pow_pos_nonneg; lia).
    rewrite Nat2Z.inj_succ, Z.pow_succ_r by lia.
    split.
    + rewrite shr_1_m by exact H0. rewrite IHm.
      rewrite Z.div_div by lia. f_equal. lia.
    + intros Hr Hs Hmod.
      assert (Hmod' : shr_m mrs mod 2 ^ Z.of_nat n = 0).
      { apply Z.mod_divide; [lia|]. apply Z.mod_divide in Hmod; [|lia].
        destruct Hmod as [k Hk]. exists (k * 2). lia. }
      destruct (IHe Hr Hs Hmod') as [Hr' Hs'].
      apply shr_1_exact; try assumption.
      rewrite IHm.
      apply Z.mod_divide in Hmod; [|lia]. destruct Hmod as [k Hk].
      rewrite Hk. replace (k * (2 * 2 ^ Z.of_nat n)) with (k * 2 * 2 ^ Z.of_nat n) by lia.
      rewrite Z.div_mul by lia. apply Z.mod_mul. lia.
Qed.

(** [shr] on an exact record: the mantissa divided by [2 ^ n], and the
    location stays exact when the division is. *)
Lemma shr_spec (m e n : Z) :
  0 <= m ->
  let '(mrs, e') := shr (shr_record_of_loc m loc_Exact) e n in
  e' = e + Z.max 0 n
  /\ shr_m mrs = m / 2 ^ Z.max 0 n
  /\ (m mod 2 ^ Z.max 0 n = 0 -> loc_of_shr_record mrs = loc_Exact).
Proof.
  intros Hm. unfold shr. cbn [shr_record_of_loc].
  destruct n as [|p|p].
  - cbn [Z.max Z.compare]. rewrite Z.add_0_r, Z.pow_0_r, Z.div_1_r. cbn [shr_m].
    repeat split; reflexivity.
  - rewrite iter_pos_nat.
    replace (Z.max 0 (Z.pos p)) with (Z.of_nat (Pos.to_nat p)) by lia.
    destruct (shr_iter (Pos.to_nat p) {| shr_m := m; shr_r := false; shr_s := false |} Hm)
      as [H1 H2].
    split; [lia|]. split; [exact H1|].
    intros Hmod. destruct (H2 eq_refl eq_refl Hmod) as [Hr Hs].
    destruct (Nat.iter (Pos.to_nat p) shr_1 _) as [m' r' s'].
    cbn [shr_r shr_s] in Hr, Hs. subst. reflexivity.
  - replace (Z.max 0 (Z.neg p)) with 0 by lia.
    rewrite Z.add_0_r, Z.pow_0_r, Z.div_1_r. cbn [shr_m].
    repeat split; reflexivity.
Qed.

Lemma round_nearest_even_bounds (m : Z) (l : location) :
  m <= round_nearest_even m l <= m + 1.
Proof.
  destruct l as [|[]]; cbn [round_nearest_even]; try lia.
  destruct (Z.even m); lia.
Qed.

(** *** Digits *)

Lemma digits2_size (p : positive) : digits2_pos p = Pos.size p.
Proof. induction p; cbn; congruence. Qed.

Lemma digits_bounds (p : positive) :
  2 ^ (Z.pos (digits2_pos p) - 1) <= Z.pos p < 2 ^ Z.pos (digits2_pos p).
Proof.
  rewrite digits2_size. split.
  - pose proof (Pos.size_le p) as H.
    assert (H2 : 2 ^ Z.pos (Pos.size p) <= 2 * Z.pos p).
    { change (2 * Z.pos p) with (Z.pos p~0). rewrite <- Pos2Z.inj_pow. 
      apply Pos2Z.pos_le_pos. exact H. }
    replace (Z.pos (Pos.size p)) with (Z.succ (Z.pos (Pos.size p) - 1)) in H2 by lia.
    rewrite Z.pow_succ_r in H2 by lia. lia.
  - pose proof (Pos.size_gt p) as H. rewrite <- Pos2Z.inj_pow.
    apply Pos2Z.pos_lt_pos. exact H.
Qed.

(** The number of digits is the only [d] with [2^(d-1) <= p < 2^d]. *)
Lemma digits_unique (p : positive) (d : Z) :
  2 ^ (d - 1) <= Z.pos p < 2 ^ d -> Z.pos (digits2_pos p) = d.
Proof.
  intros [Hlo Hhi]. destruct (digits_bounds p) as [Hlo' Hhi'].
  assert (Hd : 0 < d).
  { destruct (Z.lt_ge_cases 0 d) as [H|H]; [exact H|].
    destruct (Z.eq_dec d 0) as [->|Hn]; [cbn in Hhi; lia|].
    rewrite Z.pow_neg_r in Hhi by lia. lia. }
  destruct (Z.lt_trichotomy (Z.pos (digits2_pos p)) d) as [H|[H|H]]; [|exact H|].
  - exfalso.
    assert (2 ^ Z.pos (digits2_pos p) <= 2 ^ (d - 1)) by (apply Z.pow_le_mono_r; lia).
    lia.
  - exfalso.
    assert (2 ^ d <= 2 ^ (Z.pos (digits2_pos p) - 1)) by (apply Z.pow_le_mono_r; lia).
    lia.
Qed.

Lemma iter_xO (m d : positive) : Z.pos (Pos.iter xO m d) = Z.pos m * 2 ^ Z.pos d.
Proof.
  induction d as [|d IH] using Pos.peano_ind.
  - cbn. lia.
  - rewrite Pos.iter_succ, Pos2Z.inj_xO, IH, Pos2Z.inj_succ, Z.pow_succ_r by lia. lia.
Qed.

(** *** Rounding of a positive integer mantissa in binary64 *)

#[warnings="-notation-for-abbreviation"]
Local Notation fexp64 := (SpecFloat.fexp prec emax).
#[warnings="-notation-for-abbreviation"]
Local Notation round64 := (binary_round prec emax).

Lemma fexp64_eq (e : Z) : fexp64 e = Z.max (e - 53) (-1074).
Proof. reflexivity. Qed.

(** The outcome of [binary_round] on a positive mantissa at an exponent
    that is not below the least one: nothing is lost when the mantissa
    fits, and otherwise the mantissa is cut to 53 digits and rounded. *)
Lemma binary_round_cases (s : bool) (m : positive) (e : Z) :
  -1074 <= e ->
  let E := fexp64 (Z.pos (digits2_pos m) + e) in
  (E <= e
   /\ exists mz : positive,
        Z.pos mz = Z.pos m * 2 ^ (e - E)
        /\ round64 s m e
           = if E <=? 971 then S754_finite s mz E else S754_infinity s)
  \/ (e < E
      /\ exists m2 : positive,
           Z.pos m / 2 ^ (E - e) <= Z.pos m2 <= Z.pos m / 2 ^ (E - e) + 1
           /\ (Z.pos m mod 2 ^ (E - e) = 0 -> Z.pos m2 = Z.pos m / 2 ^ (E - e))
           /\ 2 ^ 52 <= Z.pos m / 2 ^ (E - e) < 2 ^ 53
           /\ round64 s m e
              = if Z.pos m2 <? 2 ^ 53
                then (if E <=? 971 then S754_finite s m2 E else S754_infinity s)
                else (if E + 1 <=? 971 then S754_finite s (2 ^ 52)%positive (E + 1)
                      else S754_infinity s)).
Proof.
  intros He. cbn zeta.
  set (d := Z.pos (digits2_pos m)).
  set (E := fexp64 (d + e)).
  assert (HE : E = Z.max (d + e - 53) (-1074)) by reflexivity.
  destruct (digits_bounds m) as [Hlo Hhi]. fold d in Hlo, Hhi.
  assert (Hd : 0 < d) by (unfold d; lia).
  unfold binary_round. fold d. fold E.
  destruct (Z.le_gt_cases E e) as [HEe|HEe].
  - left. split; [exact HEe|].
    (* what shl_align returns *)
    assert (Hshl : exists mz : positive,
               Z.pos mz = Z.pos m * 2 ^ (e - E)
               /\ shl_align m e E = (mz, E)).
    { unfold shl_align. destruct (E - e) as [|p|p] eqn:Hsub; try lia.
      - exists m. replace (e - E) with 0 by lia. rewrite Z.pow_0_r.
        split; [lia|]. f_equal. lia.
      - exists (Pos.iter xO m p). rewrite iter_xO.
        replace (e - E) with (Z.pos p) by lia. split; reflexivity. }
    destruct Hshl as (mz & Hmz & ->).
    exists mz. split; [exact Hmz|].
    assert (Hpow : 0 < 2 ^ (e - E)) by (apply Z.pow_pos_nonneg; lia).
    assert (Hdz : Z.pos (digits2_pos mz) = d + (e - E)).
    { apply digits_unique. rewrite Hmz.
      replace (d + (e - E) - 1) with ((d - 1) + (e - E)) by lia.
      rewrite !Z.pow_add_r by lia. nia. }
    assert (HEz : fexp64 (Z.pos (digits2_pos mz) + E) = E).
    { rewrite Hdz. replace (d + (e - E) + E) with (d + e) by lia. reflexivity. }
    unfold binary_round_aux, shr_fexp. cbn [Zdigits2].
    rewrite HEz, Z.sub_diag. cbn [shr shr_record_of_loc shr_m loc_of_shr_record
                                  round_nearest_even Zdigits2].
    rewrite HEz, Z.sub_diag. cbn [shr shr_m]. reflexivity.
  - right. split; [exact HEe|].
    assert (HEd : E = d + e - 53) by lia.
    assert (Hshl : shl_align m e E = (m, e)).
    { unfold shl_align. destruct (E - e) as [|p|p] eqn:Hsub; try lia; reflexivity. }
    rewrite Hshl.
    set (n := E - e). assert (Hn : 0 < n) by (unfold n; lia).
    assert (Hn53 : n = d - 53) by (unfold n; lia).
    assert (Hpn : 0 < 2 ^ n) by (apply Z.pow_pos_nonneg; lia).
    set (m1 := Z.pos m / 2 ^ n).
    assert (Hm1 : 2 ^ 52 <= m1 < 2 ^ 53).
    { unfold m1. split.
      - apply Z.div_le_lower_bound; [lia|].
        rewrite <- Z.pow_add_r by lia. replace (n + 52) with (d - 1) by lia. exact Hlo.
      - apply Z.div_lt_upper_bound; [lia|].
        rewrite <- Z.pow_add_r by lia. replace (n + 53) with d by lia. exact Hhi. }
    unfold binary_round_aux, shr_fexp. cbn [Zdigits2]. fold d. fold E. fold n.
    pose proof (shr_spec (Z.pos m) e n ltac:(lia)) as Hshr.
    destruct (shr (shr_record_of_loc (Z.pos m) loc_Exact) e n) as [mrs e'].
    replace (Z.max 0 n) with n in Hshr by lia.
    destruct Hshr as (He' & Hmrs & Hex). fold m1 in Hmrs.
    set (m2 := round_nearest_even (shr_m mrs) (loc_of_shr_record mrs)).
    assert (Hm2 : m1 <= m2 <= m1 + 1).
    { unfold m2. rewrite <- Hmrs. apply round_nearest_even_bounds. }
    assert (Hm2e : Z.pos m mod 2 ^ n = 0 -> m2 = m1).
    { intros Hmod. unfold m2. rewrite (Hex Hmod), Hmrs. reflexivity. }
    assert (He'E : e' = E) by (unfold n in He'; lia).
    rewrite He'E.
    destruct m2 as [|p2|p2] eqn:Hp2; try lia.
    exists p2. split; [lia|]. split; [exact Hm2e|]. split; [exact Hm1|].
    destruct (Z.ltb_spec (Z.pos p2) (2 ^ 53)) as [Hlt|Hge].
    + (* no mantissa overflow *)
      assert (Hd2 : Z.pos (digits2_pos p2) = 53).
      { apply digits_unique. cbn [Z.sub]. lia. }
      cbn [Zdigits2]. rewrite Hd2.
      assert (HE2 : fexp64 (53 + E) - E = 0).
      { rewrite fexp64_eq. lia. }
      rewrite HE2. cbn [shr shr_record_of_loc shr_m]. reflexivity.
    + assert (Hp2eq : Z.pos p2 = 2 ^ 53) by lia.
      assert (Hd2 : Z.pos (digits2_pos p2) = 54).
      { apply digits_unique. rewrite Hp2eq. cbn. lia. }
      cbn [Zdigits2]. rewrite Hd2.
      assert (HE2 : fexp64 (54 + E) - E = 1).
      { rewrite fexp64_eq. lia. }
      rewrite HE2.
      assert (Hp : p2 = (2 ^ 53)%positive).
      { apply Pos2Z.inj. rewrite Hp2eq. reflexivity. }
      rewrite Hp. cbn [shr shr_record_of_loc iter_pos shr_1 shr_m].
      reflexivity.
Qed.

(** *** The order of binary64 values *)

Lemma lexc_spec (e1 : Z) (m1 : positive) (e2 : Z) (m2 : positive) :
  match lexc e1 m1 e2 m2 with
  | Lt => e1 < e2 \/ (e1 = e2 /\ (m1 < m2)%positive)
  | Eq => e1 = e2 /\ m1 = m2
  | Gt => e2 < e1 \/ (e1 = e2 /\ (m2 < m1)%positive)
  end.
Proof.
  unfold lexc. destruct (Z.compare_spec e1 e2) as [He|He|He]; [|left; exact He|left; exact He].
  change (Pos.compare_cont Eq m1 m2) with (Pos.compare m1 m2).
  destruct (Pos.compare_spec m1 m2) as [Hm|Hm|Hm]; [split|right; split|right; split];
    assumption.
Qed.

Lemma SFcompare_pos (m1 : positive) (e1 : Z) (m2 : positive) (e2 : Z) :
  SFcompare (S754_finite false m1 e1) (S754_finite false m2 e2)
  = Some (lexc e1 m1 e2 m2).
Proof. reflexivity. Qed.

Lemma SFcompare_neg (m1 : positive) (e1 : Z) (m2 : positive) (e2 : Z) :
  SFcompare (S754_finite true m1 e1) (S754_finite true m2 e2)
  = Some (CompOpp (lexc e1 m1 e2 m2)).
Proof.
  cbn [SFcompare]. unfold lexc. destruct (Z.compare e1 e2); reflexivity.
Qed.

Ltac lex3 :=
  repeat match goal with
         | |- context [lexc ?a ?b ?c ?d] =>
             let H := fresh "L" in
             pose proof (lexc_spec a b c d) as H;
             destruct (lexc a b c d)
         | H : context [lexc ?a ?b ?c ?d] |- _ =>
             let H' := fresh "L" in
             pose proof (lexc_spec a b c d) as H';
             destruct (lexc a b c d)
         end;
  cbn [CompOpp] in *; try discriminate; try reflexivity; try (exfalso; lia).

Ltac sf_cases x :=
  destruct x as [[]|[]| |[] ? ?].

Lemma SFleb_trans (x y z : spec_float) :
  SFleb x y = true -> SFleb y z = true -> SFleb x z = true.
Proof.
  unfold SFleb.
  sf_cases x; sf_cases y; sf_cases z;
    rewrite ?SFcompare_pos, ?SFcompare_neg;
    cbn [SFcompare]; try discriminate; try reflexivity; intros H1 H2; lex3.
Qed.

Lemma SFleb_ltb_trans (x y z : spec_float) :
  SFleb x y = true -> SFltb y z = true -> SFltb x z = true.
Proof.
  unfold SFleb, SFltb.
  sf_cases x; sf_cases y; sf_cases z;
    rewrite ?SFcompare_pos, ?SFcompare_neg;
    cbn [SFcompare]; try discriminate; try reflexivity; intros H1 H2; lex3.
Qed.

Lemma SFltb_leb_trans (x y z : spec_float) :
  SFltb x y = true -> SFleb y z = true -> SFltb x z = true.
Proof.
  unfold SFleb, SFltb.
  sf_cases x; sf_cases y; sf_cases z;
    rewrite ?SFcompare_pos, ?SFcompare_neg;
    cbn [SFcompare]; try discriminate; try reflexivity; intros H1 H2; lex3.
Qed.

Lemma SFltb_leb (x y : spec_float) : SFltb x y = true -> SFleb x y = true.
Proof.
  unfold SFleb, SFltb. destruct (SFcompare x y) as [[]|]; try discriminate; reflexivity.
Qed.

Lemma SFltb_not_leb (x y : spec_float) : SFltb x y = true -> SFleb y x = false.
Proof.
  unfold SFleb, SFltb.
  sf_cases x; sf_cases y;
    rewrite ?SFcompare_pos, ?SFcompare_neg;
    cbn [SFcompare]; try discriminate; try reflexivity; intros H1; lex3.
Qed.

(** A value that compares with something compares with itself. *)
Lemma SFleb_refl (x y : spec_float) :
  SFleb x y = true \/ SFleb y x = true -> SFleb x x = true.
Proof.
  unfold SFleb.
  sf_cases x; try reflexivity.
  - intros [H|H]; [discriminate|]. sf_cases y; discriminate.
  - intros _. rewrite SFcompare_neg. lex3.
  - intros _. rewrite SFcompare_pos. lex3.
Qed.

Lemma SFleb_total (x y : spec_float) :
  SFleb x x = true -> SFleb y y = true -> SFleb x y = false -> SFltb y x = true.
Proof.
  unfold SFleb, SFltb.
  sf_cases x; sf_cases y;
    rewrite ?SFcompare_pos, ?SFcompare_neg;
    cbn [SFcompare]; try discriminate; try reflexivity; intros H1 H2 H3; lex3.
Qed.

(** *** Rounding against a binary64 value *)

Lemma valid_finite (s : bool) (m : positive) (e : Z) :
  valid_binary (S754_finite s m e) = true ->
  Z.max (Z.pos (digits2_pos m) + e - 53) (-1074) = e /\ e <= 971.
Proof.
  cbn [SpecFloat.valid_binary]. unfold bounded, canonical_mantissa.
  rewrite fexp64_eq. intros H. apply andb_prop in H. destruct H as [H1 H2].
  apply Z.eqb_eq in H1. apply Z.leb_le in H2. cbn in H2. lia.
Qed.

Lemma pow2_pos (a : Z) : 0 <= a -> 0 < 2 ^ a.
Proof. intros. apply Z.pow_pos_nonneg; lia. Qed.

Lemma pow2_lt_inv (a b : Z) : 0 <= a -> 0 <= b -> 2 ^ a < 2 ^ b -> a < b.
Proof. intros Ha Hb H. apply (Z.pow_lt_mono_r_iff 2); lia. Qed.

(** Values are compared on a common scale: [m * 2 ^ (e + 1074)]. *)
Lemma magnitude_le (m : positive) (e : Z) (mb : positive) (eb : Z) :
  -1074 <= e -> -1074 <= eb ->
  Z.pos m * 2 ^ (e + 1074) <= Z.pos mb * 2 ^ (eb + 1074) ->
  Z.pos (digits2_pos m) + e <= Z.pos (digits2_pos mb) + eb.
Proof.
  intros He Heb Hle.
  destruct (digits_bounds m) as [Hlo _]. destruct (digits_bounds mb) as [_ Hhi].
  set (d := Z.pos (digits2_pos m)) in *. set (db := Z.pos (digits2_pos mb)) in *.
  assert (Hd : 0 < d) by (unfold d; lia). assert (Hdb : 0 < db) by (unfold db; lia).
  assert (H1 : 2 ^ (d - 1 + (e + 1074)) <= Z.pos m * 2 ^ (e + 1074)).
  { rewrite (Z.pow_add_r 2 (d - 1) (e + 1074)) by lia.
    apply Z.mul_le_mono_nonneg_r; [|exact Hlo].
    apply Z.lt_le_incl, pow2_pos. lia. }
  assert (H2 : Z.pos mb * 2 ^ (eb + 1074) < 2 ^ (db + (eb + 1074))).
  { rewrite (Z.pow_add_r 2 db (eb + 1074)) by lia.
    apply Z.mul_lt_mono_pos_r; [|exact Hhi].
    apply pow2_pos. lia. }
  assert (H3 : d - 1 + (e + 1074) < db + (eb + 1074)).
  { apply pow2_lt_inv; lia. }
  lia.
Qed.

Lemma scale_cancel (a b k : Z) : 0 <= k -> a * 2 ^ k <= b * 2 ^ k -> a <= b.
Proof.
  intros Hk H. apply Z.mul_le_mono_pos_r in H; [exact H|]. apply pow2_pos. exact Hk.
Qed.

Lemma round_le_bound (m : positive) (e : Z) (mb : positive) (eb : Z) :
  -1074 <= e ->
  valid_binary (S754_finite false mb eb) = true ->
  Z.pos m * 2 ^ (e + 1074) <= Z.pos mb * 2 ^ (eb + 1074) ->
  SFleb (round64 false m e) (S754_finite false mb eb) = true.
Proof.
  intros He Hv Hle. apply valid_finite in Hv. destruct Hv as [Hcan Hmax].
  assert (Heb : -1074 <= eb) by lia.
  pose proof (magnitude_le m e mb eb He Heb Hle) as Hmag.
  destruct (digits_bounds mb) as [Hblo Hbhi].
  set (db := Z.pos (digits2_pos mb)) in *.
  assert (Hdb53 : db <= 53) by lia.
  assert (Hmb53 : Z.pos mb < 2 ^ 53).
  { eapply Z.lt_le_trans; [exact Hbhi|]. apply Z.pow_le_mono_r; lia. }
  assert (Hnormal : -1074 < eb -> 2 ^ 52 <= Z.pos mb).
  { intros H. assert (db = 53) by lia.
    replace 52 with (db - 1) by lia. exact Hblo. }
  destruct (binary_round_cases false m e He) as [[HEe (mz & Hmz & ->)]|
                                                   [HEe (m2 & Hm2 & Hm2e & Hm1 & ->)]];
    set (E := fexp64 (Z.pos (digits2_pos m) + e)) in *;
    assert (HE : E <= eb) by (unfold E; rewrite fexp64_eq; lia).
  - destruct (Z.leb_spec E 971); [|lia].
    unfold SFleb. rewrite SFcompare_pos.
    pose proof (lexc_spec E mz eb mb) as L. destruct (lexc E mz eb mb); try reflexivity.
    exfalso. destruct L as [L|[L1 L2]]; [lia|]. subst eb.
    assert (Z.pos mz <= Z.pos mb); [|lia].
    apply (scale_cancel _ _ (E + 1074)); [lia|].
    rewrite Hmz, <- Z.mul_assoc, <- Z.pow_add_r by lia.
    replace (e - E + (E + 1074)) with (e + 1074) by lia. exact Hle.
  - set (n := E - e) in *. set (m1 := Z.pos m / 2 ^ n) in *.
    assert (Hn : 0 < n) by (unfold n; lia).
    destruct (Z.ltb_spec (Z.pos m2) (2 ^ 53)) as [Hlt|Hge].
    + destruct (Z.leb_spec E 971); [|lia].
      unfold SFleb. rewrite SFcompare_pos.
      pose proof (lexc_spec E m2 eb mb) as L. destruct (lexc E m2 eb mb); try reflexivity.
      exfalso. destruct L as [L|[L1 L2]]; [lia|]. subst eb.
      (* same exponent: the mantissa is not above [mb] *)
      assert (Hm : Z.pos m <= Z.pos mb * 2 ^ n).
      { apply (scale_cancel _ _ (e + 1074)); [lia|].
        rewrite <- Z.mul_assoc, <- Z.pow_add_r by lia.
        replace (n + (e + 1074)) with (E + 1074) by (unfold n; lia). exact Hle. }
      assert (Hm1b : m1 <= Z.pos mb).
      { unfold m1. apply Z.div_le_upper_bound; [apply pow2_pos; lia|]. lia. }
      assert (Hcases : m1 < Z.pos mb \/ Z.pos m2 = m1).
      { destruct (Z.eq_dec m1 (Z.pos mb)) as [Heq|Hne]; [right|left; lia].
        apply Hm2e.
        assert (Hge' : Z.pos mb * 2 ^ n <= Z.pos m).
        { rewrite <- Heq. unfold m1. rewrite Z.mul_comm.
          apply Z.mul_div_le. apply pow2_pos; lia. }
        assert (Heq' : Z.pos m = Z.pos mb * 2 ^ n) by lia.
        rewrite Heq'. apply Z.mod_mul. pose proof (pow2_pos n); lia. }
      lia.
    + assert (HE1 : E + 1 <= eb \/ E = eb) by lia.
      destruct HE1 as [HE1|HE1].
      * destruct (Z.leb_spec (E + 1) 971); [|lia].
        unfold SFleb. rewrite SFcompare_pos.
        pose proof (lexc_spec (E + 1) (2 ^ 52)%positive eb mb) as L.
        destruct (lexc (E + 1) (2 ^ 52) eb mb); try reflexivity.
        exfalso. destruct L as [L|[L1 L2]]; [lia|].
        assert (2 ^ 52 <= Z.pos mb) by (apply Hnormal; unfold E in *; rewrite fexp64_eq in *; lia).
        change (Z.pos (2 ^ 52)) with (2 ^ 52) in *. lia.
      * exfalso. subst eb.
        assert (Hm : Z.pos m <= Z.pos mb * 2 ^ n).
        { apply (scale_cancel _ _ (e + 1074)); [lia|].
          rewrite <- Z.mul_assoc, <- Z.pow_add_r by lia.
          replace (n + (e + 1074)) with (E + 1074) by (unfold n; lia). exact Hle. }
        assert (Hm1b : m1 <= Z.pos mb).
        { unfold m1. apply Z.div_le_upper_bound; [apply pow2_pos; lia|]. lia. }
        assert (Hcases : m1 < Z.pos mb \/ Z.pos m2 = m1).
        { destruct (Z.eq_dec m1 (Z.pos mb)) as [Heq|Hne]; [right|left; lia].
          apply Hm2e.
          assert (Hge' : Z.pos mb * 2 ^ n <= Z.pos m).
          { rewrite <- Heq. unfold m1. rewrite Z.mul_comm.
            apply Z.mul_div_le. apply pow2_pos; lia. }
          assert (Heq' : Z.pos m = Z.pos mb * 2 ^ n) by lia.
          rewrite Heq'. apply Z.mod_mul. pose proof (pow2_pos n); lia. }
        lia.
Qed.

Lemma round_ge_bound (m : positive) (e : Z) (mb : positive) (eb : Z) :
  -1074 <= e ->
  valid_binary (S754_finite false mb eb) = true ->
  Z.pos mb * 2 ^ (eb + 1074) <= Z.pos m * 2 ^ (e + 1074) ->
  SFleb (S754_finite false mb eb) (round64 false m e) = true.
Proof.
  intros He Hv Hle. apply valid_finite in Hv. destruct Hv as [Hcan Hmax].
  assert (Heb : -1074 <= eb) by lia.
  pose proof (magnitude_le mb eb m e Heb He Hle) as Hmag.
  destruct (binary_round_cases false m e He) as [[HEe (mz & Hmz & ->)]|
                                                   [HEe (m2 & Hm2 & Hm2e & Hm1 & ->)]];
    set (E := fexp64 (Z.pos (digits2_pos m) + e)) in *;
    assert (HE : eb <= E) by (unfold E; rewrite fexp64_eq; lia).
  - destruct (Z.leb_spec E 971); [|reflexivity].
    unfold SFleb. rewrite SFcompare_pos.
    pose proof (lexc_spec eb mb E mz) as L. destruct (lexc eb mb E mz); try reflexivity.
    exfalso. destruct L as [L|[L1 L2]]; [lia|]. subst eb.
    assert (Z.pos mb <= Z.pos mz); [|lia].
    apply (scale_cancel _ _ (E + 1074)); [lia|].
    rewrite Hmz, <- Z.mul_assoc, <- Z.pow_add_r by lia.
    replace (e - E + (E + 1074)) with (e + 1074) by lia. exact Hle.
  - set (n := E - e) in *. set (m1 := Z.pos m / 2 ^ n) in *.
    assert (Hn : 0 < n) by (unfold n; lia).
    destruct (Z.ltb_spec (Z.pos m2) (2 ^ 53)) as [Hlt|Hge].
    + destruct (Z.leb_spec E 971); [|reflexivity].
      unfold SFleb. rewrite SFcompare_pos.
      pose proof (lexc_spec eb mb E m2) as L. destruct (lexc eb mb E m2); try reflexivity.
      exfalso. destruct L as [L|[L1 L2]]; [lia|]. subst eb.
      assert (Hm : Z.pos mb * 2 ^ n <= Z.pos m).
      { apply (scale_cancel _ _ (e + 1074)); [lia|].
        rewrite <- Z.mul_assoc, <- Z.pow_add_r by lia.
        replace (n + (e + 1074)) with (E + 1074) by (unfold n; lia). exact Hle. }
      assert (Hm1b : Z.pos mb <= m1).
      { unfold m1. apply Z.div_le_lower_bound; [apply pow2_pos; lia|]. lia. }
      lia.
    + destruct (Z.leb_spec (E + 1) 971); [|reflexivity].
      unfold SFleb. rewrite SFcompare_pos.
      pose proof (lexc_spec eb mb (E + 1) (2 ^ 52)%positive) as L.
      destruct (lexc eb mb (E + 1) (2 ^ 52)); try reflexivity.
      exfalso. destruct L as [L|[L1 L2]]; lia.
Qed.

(** The outcome of rounding is never a NaN and has the sign given. *)
Lemma round_sign (s : bool) (m : positive) (e : Z) :
  -1074 <= e ->
  (exists m' e', round64 s m e = S754_finite s m' e') \/ round64 s m e = S754_infinity s.
Proof.
  intros He.
  destruct (binary_round_cases s m e He) as [[_ (mz & _ & ->)]|[_ (m2 & _ & _ & _ & ->)]].
  - destruct (Z.leb _ 971); [left; eexists; eexists; reflexivity|right; reflexivity].
  - destruct (Z.ltb (Z.pos m2) _).
    + destruct (Z.leb _ 971); [left; eexists; eexists; reflexivity|right; reflexivity].
    + destruct (Z.leb _ 971); [left; eexists; eexists; reflexivity|right; reflexivity].
Qed.

(** *** Sums and differences *)

Lemma shl_align_fst (m : positive) (e ez : Z) :
  ez <= e -> Z.pos (fst (shl_align m e ez)) = Z.pos m * 2 ^ (e - ez).
Proof.
  intros H. unfold shl_align. destruct (ez - e) as [|p|p] eqn:Hs; try lia; cbn [fst].
  - replace (e - ez) with 0 by lia. rewrite Z.pow_0_r. lia.
  - rewrite iter_xO. replace (e - ez) with (Z.pos p) by lia. reflexivity.
Qed.

#[warnings="-notation-for-abbreviation"]
Local Notation SFadd64 := (SFadd prec emax).
#[warnings="-notation-for-abbreviation"]
Local Notation SFsub64 := (SFsub prec emax).

Lemma SFleb_zero_round (m : positive) (e : Z) :
  -1074 <= e -> SFleb SFzero (round64 false m e) = true.
Proof.
  intros He. destruct (round_sign false m e He) as [(m' & e' & ->)| ->]; reflexivity.
Qed.

(** [1 <= x]: what [x] is. *)
Lemma one_le_cases (x : spec_float) :
  SFleb SFone x = true ->
  x = S754_infinity false
  \/ exists m e, x = S754_finite false m e
                 /\ (-52 < e \/ (e = -52 /\ 2 ^ 52 <= Z.pos m)).
Proof.
  unfold SFleb, SFone. destruct x as [[]|[]| |[] p e]; cbn [SFcompare]; try discriminate.
  - intros _. left. reflexivity.
  - intros H. right. eexists; eexists. split; [reflexivity|].
    fold (lexc (-52) (2 ^ 52) e p) in H.
    pose proof (lexc_spec (-52) (2 ^ 52)%positive e p) as L.
    destruct (lexc (-52) (2 ^ 52) e p); try discriminate.
    + destruct L as [-> <-]. right. split; [reflexivity|]. lia.
    + destruct L as [L|[<- L]]; [left; exact L|right]. split; [reflexivity|]. lia.
Qed.

(** Taking one from a value that is at least one: the difference is not
    negative and not above the value. *)
Lemma SFsub_one (x : spec_float) :
  valid_binary x = true ->
  SFleb SFone x = true ->
  SFleb SFzero (SFsub64 x SFone) = true
  /\ SFleb (SFsub64 x SFone) x = true.
Proof.
  intros Hv H1. destruct (one_le_cases x H1) as [->|(m & e & -> & He)].
  - split; reflexivity.
  - pose proof (valid_finite _ _ _ Hv) as [Hcan Hmax].
    assert (Hmin : Z.min e (-52) = -52) by lia.
    assert (Hm52 : 2 ^ 52 <= Z.pos m * 2 ^ (e + 52)).
    { destruct He as [He|[-> He]].
      - destruct (digits_bounds m) as [Hlo _].
        assert (Hd : Z.pos (digits2_pos m) = 53) by lia.
        rewrite Hd in Hlo. change (53 - 1) with 52 in Hlo.
        assert (1 <= 2 ^ (e + 52)) by (pose proof (pow2_pos (e + 52)); lia).
        nia.
      - replace (-52 + 52) with 0 by reflexivity. rewrite Z.pow_0_r. lia. }
    unfold SFsub, SFone. rewrite Hmin. cbn [cond_Zopp].
    rewrite shl_align_fst by lia. rewrite shl_align_fst by lia.
    replace (e - -52) with (e + 52) by lia.
    replace (-52 - -52) with 0 by lia. rewrite Z.pow_0_r, Z.mul_1_r.
    change (Z.pos (2 ^ 52)) with (2 ^ 52).
    destruct (Z.pos m * 2 ^ (e + 52) - 2 ^ 52) as [|D|D] eqn:HD; try lia;
      cbn [binary_normalize].
    + split; reflexivity.
    + split; [apply SFleb_zero_round; lia|].
      apply round_le_bound; [lia|exact Hv|].
      change (-52 + 1074) with 1022.
      replace (e + 1074) with ((e + 52) + 1022) by lia.
      rewrite (Z.pow_add_r 2 (e + 52) 1022) by lia.
      pose proof (pow2_pos 1022 ltac:(lia)) as HP.
      set (P := 2 ^ 1022) in *. set (A := Z.pos m * 2 ^ (e + 52)) in *.
      rewrite Z.mul_assoc. fold A.
      apply Z.mul_le_mono_nonneg_r; lia.
Qed.

(** [0 <= x] and [0 < y]: what they are. *)
Lemma zero_le_cases (x : spec_float) :
  SFleb SFzero x = true ->
  (exists s, x = S754_zero s) \/ x = S754_infinity false
  \/ exists m e, x = S754_finite false m e.
Proof.
  unfold SFleb, SFzero. sf_cases x; cbn [SFcompare]; try discriminate; intros _;
    eauto.
Qed.

Lemma zero_lt_cases (x : spec_float) :
  SFltb SFzero x = true ->
  x = S754_infinity false \/ exists m e, x = S754_finite false m e.
Proof.
  unfold SFltb, SFzero. sf_cases x; cbn [SFcompare]; try discriminate; intros _;
    eauto.
Qed.

(** Adding a positive value to one that is not negative: the sum is not
    negative and not below the value added. *)
Lemma SFadd_pos (x y : spec_float) :
  valid_binary x = true -> valid_binary y = true ->
  SFleb SFzero x = true -> SFltb SFzero y = true ->
  SFleb SFzero (SFadd64 x y) = true
  /\ SFleb y (SFadd64 x y) = true.
Proof.
  intros Hvx Hvy Hx Hy.
  destruct (zero_lt_cases y Hy) as [->|(my & ey & ->)].
  - destruct (zero_le_cases x Hx) as [[s ->]|[->|(mx & ex & ->)]]; split; reflexivity.
  - assert (Hyy : SFleb (S754_finite false my ey) (S754_finite false my ey) = true).
    { apply (SFleb_refl _ SFzero). right. reflexivity. }
    destruct (zero_le_cases x Hx) as [[s ->]|[->|(mx & ex & ->)]].
    + cbn [SFadd]. split; [reflexivity|exact Hyy].
    + split; reflexivity.
    + pose proof (valid_finite _ _ _ Hvx) as [Hcx _].
      pose proof (valid_finite _ _ _ Hvy) as [Hcy _].
      unfold SFadd. cbn [cond_Zopp].
      set (ez := Z.min ex ey).
      assert (Hez : -1074 <= ez) by (unfold ez; lia).
      rewrite !shl_align_fst by (unfold ez; lia).
      assert (Hpx : 0 < Z.pos mx * 2 ^ (ex - ez)).
      { pose proof (pow2_pos (ex - ez)). unfold ez in *. nia. }
      assert (Hpy : 0 < Z.pos my * 2 ^ (ey - ez)).
      { pose proof (pow2_pos (ey - ez)). unfold ez in *. nia. }
      destruct (Z.pos mx * 2 ^ (ex - ez) + Z.pos my * 2 ^ (ey - ez)) as [|D|D] eqn:HD;
        try lia.
      cbn [binary_normalize].
      split; [apply SFleb_zero_round; exact Hez|].
      apply round_ge_bound; [exact Hez|exact Hvy|].
      rewrite <- HD.
      replace (ey + 1074) with ((ey - ez) + (ez + 1074)) by lia.
      rewrite (Z.pow_add_r 2 (ey - ez)) by (unfold ez; lia).
      pose proof (pow2_pos (ez + 1074) ltac:(lia)) as HP.
      rewrite Z.mul_assoc.
      apply Z.mul_le_mono_nonneg_r; lia.
Qed.

(** *** Exact differences *)

Lemma round_exact (m : positive) (e : Z) :
  -1074 <= e ->
  let E := fexp64 (Z.pos (digits2_pos m) + e) in
  E <= 971 ->
  (E <= e \/ Z.pos m mod 2 ^ (E - e) = 0) ->
  units (round64 false m e) = Z.pos m * 2 ^ (e + 1074).
Proof.
  intros He E HE Hex.
  destruct (binary_round_cases false m e He) as [[HEe (mz & Hmz & ->)]|
                                                   [HEe (m2 & Hm2 & Hm2e & Hm1 & ->)]];
    fold E in HEe |- *.
  - destruct (Z.leb_spec E 971); [|lia]. cbn [units]. rewrite Hmz.
    rewrite Z.mul_1_l, <- Z.mul_assoc, <- Z.pow_add_r by (unfold E in *; rewrite fexp64_eq in *; lia).
    do 2 f_equal. lia.
  - fold E in Hm2, Hm2e, Hm1. destruct Hex as [Hex|Hex]; [lia|].
    specialize (Hm2e Hex).
    destruct (Z.ltb_spec (Z.pos m2) (2 ^ 53)); [|lia].
    destruct (Z.leb_spec E 971); [|lia]. cbn [units]. rewrite Hm2e, Z.mul_1_l.
    assert (Hn : 0 < E - e) by lia.
    pose proof (pow2_pos (E - e) ltac:(lia)) as Hp.
    assert (Hm : Z.pos m = 2 ^ (E - e) * (Z.pos m / 2 ^ (E - e))).
    { apply Z.div_exact; lia. }
    rewrite Hm at 2.
    replace (E + 1074) with ((E - e) + (e + 1074)) by lia.
    rewrite (Z.pow_add_r 2 (E - e)) by lia. ring.
Qed.

(** Between 1 and [2 ^ 53] taking one away is exact. *)
Lemma SFsub_one_exact (x : spec_float) :
  valid_binary x = true ->
  SFleb SFone x = true -> SFleb x SFtwo_53 = true ->
  units (SFsub64 x SFone) = units x - 2 ^ 1074.
Proof.
  intros Hv H1 H2. destruct (one_le_cases x H1) as [->|(m & e & -> & He)];
    [discriminate|].
  pose proof (valid_finite _ _ _ Hv) as [Hcan Hmax].
  destruct (digits_bounds m) as [Hlo Hhi].
  set (dm := Z.pos (digits2_pos m)) in *.
  assert (Hmin : Z.min e (-52) = -52) by lia.
  assert (Hdm : dm = 53).
  { destruct He as [He|[-> He]]; [lia|].
    assert (dm <= 53) by lia.
    assert (52 < dm); [|lia].
    apply pow2_lt_inv; try lia. }
  assert (Hm52 : 2 ^ 52 <= Z.pos m < 2 ^ 53).
  { rewrite Hdm in Hlo, Hhi. change (53 - 1) with 52 in Hlo. lia. }
  (* [x <= 2^53] *)
  assert (Hup : e <= 0 \/ (e = 1 /\ Z.pos m = 2 ^ 52)).
  { unfold SFleb, SFtwo_53 in H2. rewrite SFcompare_pos in H2.
    pose proof (lexc_spec e m 1 (2 ^ 52)%positive) as L.
    destruct (lexc e m 1 (2 ^ 52)); try discriminate.
    - destruct L as [-> ->]. right. split; reflexivity.
    - destruct L as [L|[-> L]]; [left; lia|].
      change (Z.pos (2 ^ 52)) with (2 ^ 52) in *. lia. }
  unfold SFsub, SFone. rewrite Hmin. cbn [cond_Zopp].
  rewrite shl_align_fst by lia. rewrite shl_align_fst by lia.
  replace (e - -52) with (e + 52) by lia.
  replace (-52 - -52) with 0 by lia. rewrite Z.pow_0_r, Z.mul_1_r.
  change (Z.pos (2 ^ 52)) with (2 ^ 52).
  pose proof (pow2_pos (e + 52) ltac:(lia)) as Hp.
  pose proof (pow2_pos 1022 ltac:(lia)) as HP.
  assert (Hval : Z.pos m * 2 ^ (e + 1074) = Z.pos m * 2 ^ (e + 52) * 2 ^ 1022).
  { replace (e + 1074) with ((e + 52) + 1022) by lia.
    rewrite (Z.pow_add_r 2 (e + 52) 1022) by lia. ring. }
  assert (H1074 : 2 ^ 1074 = 2 ^ 52 * 2 ^ 1022).
  { rewrite <- Z.pow_add_r by lia. reflexivity. }
  cbn [units]. rewrite Z.mul_1_l, Hval, H1074.
  destruct (Z.pos m * 2 ^ (e + 52) - 2 ^ 52) as [|D|D] eqn:HD;
    cbn [binary_normalize].
  - cbn [units]. nia.
  - destruct (digits_bounds D) as [HDlo HDhi].
    set (d := Z.pos (digits2_pos D)) in *.
    assert (Hd0 : 0 < d) by (unfold d; lia).
    assert (Hd105 : d <= 105).
    { assert (HD105 : Z.pos D < 2 ^ 105).
      { rewrite <- HD. destruct Hup as [Hup|[-> Hm]].
        - assert (2 ^ (e + 52) <= 2 ^ 52) by (apply Z.pow_le_mono_r; lia).
          change (2 ^ 105) with (2 ^ 53 * 2 ^ 52). nia.
        - rewrite Hm. change (1 + 52) with 53.
          change (2 ^ 105) with (2 ^ 52 * 2 ^ 53). lia. }
      destruct (Z.le_gt_cases d 105) as [H'|H']; [exact H'|]. exfalso.
      assert (2 ^ 105 <= 2 ^ (d - 1)) by (apply Z.pow_le_mono_r; lia). lia. }
    assert (Hde : d <= e + 105).
    { assert (HDe : Z.pos D < 2 ^ (e + 105)).
      { rewrite <- HD. replace (e + 105) with (53 + (e + 52)) by lia.
        rewrite (Z.pow_add_r 2 53) by lia. nia. }
      destruct (Z.le_gt_cases d (e + 105)) as [H'|H']; [exact H'|]. exfalso.
      assert (2 ^ (e + 105) <= 2 ^ (d - 1)) by (apply Z.pow_le_mono_r; lia). lia. }
    rewrite round_exact.
    + change (-52 + 1074) with 1022. rewrite <- HD. ring.
    + lia.
    + fold d. rewrite fexp64_eq. lia.
    + fold d. rewrite fexp64_eq.
      destruct (Z.le_gt_cases d 53) as [Hd|Hd]; [left; lia|right].
      replace (Z.max (d + -52 - 53) (-1074) - -52) with (d - 53) by lia.
      rewrite <- HD.
      apply Z.mod_divide; [pose proof (pow2_pos (d - 53)); lia|].
      apply Z.divide_sub_r.
      * apply Z.divide_mul_r. exists (2 ^ (e + 52 - (d - 53))).
        rewrite <- Z.pow_add_r by lia. f_equal. lia.
      * exists (2 ^ (52 - (d - 53))).
        rewrite <- Z.pow_add_r by lia. f_equal. lia.
  - lia.
Qed.

(** *** The primitive floats *)

Lemma f64_prim_zero : Prim2SF zero = SFzero.
Proof. reflexivity. Qed.

Lemma f64_prim_one : Prim2SF one = SFone.
Proof. reflexivity. Qed.

Lemma f64_prim_two_53 : Prim2SF two_53 = SFtwo_53.
Proof. reflexivity. Qed.

Lemma f64_le_trans (a b c : t) : le a b -> le b c -> le a c.
Proof. unfold le. rewrite !leb_spec. apply SFleb_trans. Qed.

Lemma f64_le_lt_trans (a b c : t) : le a b -> lt b c -> lt a c.
Proof. unfold le, lt. rewrite !leb_spec, !ltb_spec. apply SFleb_ltb_trans. Qed.

Lemma f64_lt_le_trans (a b c : t) : lt a b -> le b c -> lt a c.
Proof. unfold le, lt. rewrite !leb_spec, !ltb_spec. apply SFltb_leb_trans. Qed.

Lemma f64_lt_le (a b : t) : lt a b -> le a b.
Proof. unfold le, lt. rewrite !leb_spec, !ltb_spec. apply SFltb_leb. Qed.

Lemma f64_lt_not_le (a b : t) : lt a b -> PrimFloat.leb b a = false.
Proof. unfold lt. rewrite !leb_spec, !ltb_spec. apply SFltb_not_leb. Qed.

Lemma f64_le_refl_l (a b : t) : le a b -> le a a.
Proof. unfold le. rewrite !leb_spec. intros H. apply (SFleb_refl _ (Prim2SF b)). left. exact H. Qed.

Lemma f64_le_refl_r (a b : t) : le a b -> le b b.
Proof. unfold le. rewrite !leb_spec. intros H. apply (SFleb_refl _ (Prim2SF a)). right. exact H. Qed.

Lemma f64_not_le_lt (a b : t) : le a a -> le b b -> PrimFloat.leb a b = false -> lt b a.
Proof. unfold le, lt. rewrite !leb_spec, !ltb_spec. apply SFleb_total. Qed.

Lemma f64_py_min_le (a b : t) : le a a -> le (py_min a b) a.
Proof.
  intros Ha. unfold py_min. destruct (PrimFloat.ltb b a) eqn:E; [|exact Ha].
  apply f64_lt_le. exact E.
Qed.

Lemma f64_sub_one (x : t) :
  le one x -> le zero (x - one)%float /\ le (x - one)%float x.
Proof.
  unfold le. rewrite !leb_spec, sub_spec, f64_prim_zero, f64_prim_one.
  apply SFsub_one. apply Prim2SF_valid.
Qed.

Lemma f64_add_pos (x y : t) :
  le zero x -> lt zero y -> le zero (x + y)%float /\ le y (x + y)%float.
Proof.
  unfold le, lt. rewrite !leb_spec, ltb_spec, add_spec, f64_prim_zero.
  apply SFadd_pos; apply Prim2SF_valid.
Qed.

Lemma f64_sub_one_exact (x : t) :
  le one x -> le x two_53 -> value (x - one)%float = value x - 2 ^ 1074.
Proof.
  unfold le, value. rewrite !leb_spec, sub_spec, f64_prim_one, f64_prim_two_53.
  apply SFsub_one_exact. apply Prim2SF_valid.
Qed.

(** A product with zero is not positive. *)
Lemma f64_mul_zero_not_pos (x r : t) :
  PrimFloat.eqb r zero = true -> PrimFloat.ltb zero (x * r)%float = false.
Proof.
  rewrite eqb_spec, ltb_spec, mul_spec, f64_prim_zero.
  unfold SFeqb, SFltb, SFzero.
  destruct (Prim2SF r) as [[]|[]| |[] mr er]; cbn [SFcompare]; try discriminate;
    intros _; destruct (Prim2SF x) as [[]|[]| |[] mx ex]; reflexivity.
Qed.

End Binary64Facts.

(** ** Facts about rational comparisons *)

Lemma Qlt_bool_iff (a b : Q) : Qlt_bool a b = true <-> (a < b)%Q.
Proof.
  unfold Qlt_bool. rewrite negb_true_iff.
  split; intros H.
  - apply Qnot_le_lt. intros Hle. apply Qle_bool_iff in Hle. congruence.
  - destruct (Qle_bool b a) eqn:E; [|reflexivity].
    apply Qle_bool_iff in E. lra.
Qed.

Lemma Qle_bool_false (a b : Q) : Qle_bool a b = false -> (b < a)%Q.
Proof.
  intros H. apply Qnot_le_lt. intros Hle.
  apply Qle_bool_iff in Hle. congruence.
Qed.

(** ** Facts about the token bucket *)

Section TokenBucketFacts.

Import PrimFloat.
Import TokenBucketRateLimiter.

Variable max_tokens : Binary64.t.
Variable tokens_per_second : Binary64.t.

Lemma refill_within (now : Binary64.t) (self : t) :
  within max_tokens self ->
  within max_tokens (_refill_tokens max_tokens tokens_per_second now self).
Proof.
  unfold within, _refill_tokens. intros [H0 H1].
  destruct (ltb 0 _) eqn:E; [|split; assumption].
  cbn [tokens].
  assert (Hmax : Binary64.le max_tokens max_tokens) by (eapply f64_le_refl_r; exact H1).
  split; [|apply f64_py_min_le; exact Hmax].
  unfold Binary64.py_min.
  destruct (ltb _ max_tokens).
  - apply (f64_add_pos _ _ H0 E).
  - eapply f64_le_trans; eassumption.
Qed.


Lemma rate_not_zero (x : Binary64.t) :
  Binary64.lt Binary64.zero (x * tokens_per_second)%float ->
  eqb tokens_per_second 0 = false.
Proof.
  intros H. destruct (eqb tokens_per_second 0) eqn:E; [|reflexivity].
  apply (f64_mul_zero_not_pos x) in E. unfold Binary64.lt in H. congruence.
Qed.


Lemma acquire_pass_within (now : Binary64.t) (self : t) :
  within max_tokens self ->
  match acquire_pass max_tokens tokens_per_second now self with
  | Granted self' =>
      within max_tokens self'
      /\ tokens self'
         = (tokens (_refill_tokens max_tokens tokens_per_second now self) - 1)%float
      /\ (Binary64.le max_tokens Binary64.two_53 ->
          Binary64.value (tokens self')
          = Binary64.value (tokens (_refill_tokens max_tokens tokens_per_second now self))
            - Binary64.value Binary64.one)
  | Waits wait_time slept self' =>
      within max_tokens self'
      /\ self' = _refill_tokens max_tokens tokens_per_second now self
      /\ Binary64.lt (tokens self') Binary64.one
      /\ wait_time = ((1 - tokens self') / tokens_per_second)%float
      /\ slept = ltb 0 wait_time
  | ZeroDivisionError self' =>
      within max_tokens self'
      /\ self' = _refill_tokens max_tokens tokens_per_second now self
      /\ Binary64.lt (tokens self') Binary64.one
      /\ eqb tokens_per_second 0 = true
  end.
Proof.
  intros Hw. apply (refill_within now) in Hw.
  unfold acquire_pass.
  set (a := _refill_tokens max_tokens tokens_per_second now self) in *.
  destruct Hw as [H0 H1].
  assert (Hlow : leb 1 (tokens a) = false -> Binary64.lt (tokens a) Binary64.one).
  { intros E. apply f64_not_le_lt; [reflexivity| |exact E].
    eapply f64_le_refl_r. exact H0. }
  destruct (leb 1 (tokens a)) eqn:E.
  - destruct (f64_sub_one (tokens a) E) as [Hs0 Hs1].
    unfold within. cbn [tokens].
    split; [split; [exact Hs0|eapply f64_le_trans; eassumption]|].
    split; [reflexivity|].
    intros Hcap. apply f64_sub_one_exact; [exact E|].
    eapply f64_le_trans; eassumption.
  - destruct (eqb tokens_per_second 0) eqn:Ez.
    + split; [split; assumption|]. split; [reflexivity|].
      split; [apply Hlow; reflexivity|reflexivity].
    + split; [split; assumption|]. split; [reflexivity|].
      split; [apply Hlow; reflexivity|]. split; reflexivity.
Qed.

Lemma acquire_within (clock : list Binary64.t) :
  forall (self : t) (sleeps : list Binary64.t) r self' sleeps',
    within max_tokens self ->
    acquire max_tokens tokens_per_second clock self sleeps = Some (r, self', sleeps') ->
    within max_tokens self'.
Proof.
  induction clock as [|now clock IH]; intros self sleeps r self' sleeps' Hw Hacq.
  - discriminate.
  - cbn [acquire] in Hacq.
    pose proof (acquire_pass_within now self Hw) as Hp.
    destruct (acquire_pass max_tokens tokens_per_second now self) as [g|w sl s1|s1].
    + injection Hacq as _ <- _. apply Hp.
    + eapply IH; [|exact Hacq]. apply Hp.
    + injection Hacq as _ <- _. apply Hp.
Qed.


End TokenBucketFacts.



(** ** Facts about the upstream client and the retry manager *)

Section SenderFacts.

Variable as_bytes : email.MIME -> result string.

(** The cases of [send_email], one per way through its [try]. *)
Lemma send_email_cases (io : Upstream.io) (message : EmailMessageData.t)
    (sender : EmailSender.t) :
  exists (r : SendingResult.t) (sender' : EmailSender.t),
    EmailSender.send_email as_bytes io message sender = (Ok r, sender')
    /\ SendingResult.message_id r = EmailMessageData.id message
    /\ SendingResult.retry_count r = EmailMessageData.retry_count message
    /\ (SendingResult.success r = true ->
        Upstream.sendmail_outcome io = Ok []
        /\ r = EmailSender.succeeded message).
Proof.
  unfold EmailSender.send_email, try_except, bind, get, ret.
  destruct sender as [[[]|]]; cbn [EmailSender.smtp_client].
  - destruct (EmailMessageData.to_smtp_message as_bytes _ _ message) as [b|e].
    + destruct (Upstream.sendmail_outcome io) as [[|err errs]|e]; cbn [list_truthy].
      * eexists; eexists; repeat split; reflexivity.
      * eexists; eexists; repeat split; try reflexivity; cbn; intros; discriminate.
      * eexists; eexists; repeat split; try reflexivity; cbn; intros; discriminate.
    + eexists; eexists; repeat split; try reflexivity; cbn; intros; discriminate.
  - unfold EmailSender.connect, try_except, bind, put, raise.
    destruct (Upstream.connect_outcome io) as [[]|e].
    + destruct (EmailMessageData.to_smtp_message as_bytes _ _ message) as [b|e].
      * destruct (Upstream.sendmail_outcome io) as [[|err errs]|e]; cbn [list_truthy].
        -- eexists; eexists; repeat split; reflexivity.
        -- eexists; eexists; repeat split; try reflexivity; cbn; intros; discriminate.
        -- eexists; eexists; repeat split; try reflexivity; cbn; intros; discriminate.
      * eexists; eexists; repeat split; try reflexivity; cbn; intros; discriminate.
    + eexists; eexists; repeat split; try reflexivity; cbn; intros; discriminate.
Qed.

(** With a client at hand, a [sendmail] that raises gives a failure and
    leaves the sender as it was. *)
Lemma send_email_sendmail_raises (io : Upstream.io) (message : EmailMessageData.t)
    (sender : EmailSender.t) (e : exn) :
  EmailSender.smtp_client sender = Some tt ->
  Upstream.sendmail_outcome io = Raise e ->
  exists r,
    EmailSender.send_email as_bytes io message sender = (Ok r, sender)
    /\ SendingResult.success r = false.
Proof.
  intros Hc Hs.
  unfold EmailSender.send_email, try_except, bind, get, ret.
  rewrite Hc, Hs.
  destruct (EmailMessageData.to_smtp_message as_bytes _ _ message) as [b|e'];
    eexists; split; reflexivity.
Qed.

Lemma send_email_accepted (io : Upstream.io) (message : EmailMessageData.t)
    (sender : EmailSender.t) (bytes : string) :
  EmailSender.smtp_client sender = Some tt ->
  EmailMessageData.to_smtp_message as_bytes
    (Upstream.formatdate io) (Upstream.make_msgid io) message = Ok bytes ->
  Upstream.sendmail_outcome io = Ok [] ->
  EmailSender.send_email as_bytes io message sender
  = (Ok (EmailSender.succeeded message), sender).
Proof.
  intros Hc Hb Hs.
  unfold EmailSender.send_email, try_except, bind, get, ret.
  rewrite Hc, Hb, Hs. reflexivity.
Qed.

Variable config_rate_limit : RateLimitConfig.t.

Let max_retries := RateLimitConfig.max_retries config_rate_limit.
Let retry_delay := RateLimitConfig.retry_delay config_rate_limit.

Lemma send_with_retry_gives_up (io : Upstream.io) (script : list Upstream.io)
    (m : EmailMessageData.t) (slept : list Z) (sender sender' : EmailSender.t)
    (r : SendingResult.t) :
  EmailSender.send_email as_bytes io m sender = (Ok r, sender') ->
  SendingResult.success r = false ->
  EmailMessageData.retry_count m + 1 > max_retries ->
  RetryManager.send_with_retry as_bytes config_rate_limit (io :: script) m slept sender
  = Some {| RetryManager.returned := Ok r;
            RetryManager.message_after := m;
            RetryManager.sleeps := slept;
            RetryManager.sender_after := sender';
            RetryManager.script_left := script |}.
Proof.
  intros Hsend Hfail Hbudget.
  cbn [RetryManager.send_with_retry]. rewrite Hsend, Hfail.
  unfold EmailMessageData.can_retry.
  fold max_retries.
  destruct (Z.ltb_spec (EmailMessageData.retry_count m) max_retries) as [Hlt|Hge];
    [lia|reflexivity].
Qed.

Lemma send_with_retry_retries (io : Upstream.io) (script : list Upstream.io)
    (m : EmailMessageData.t) (slept : list Z) (sender sender' : EmailSender.t)
    (r : SendingResult.t) :
  EmailSender.send_email as_bytes io m sender = (Ok r, sender') ->
  SendingResult.success r = false ->
  EmailMessageData.retry_count m + 1 <= max_retries ->
  RetryManager.send_with_retry as_bytes config_rate_limit (io :: script) m slept sender
  = RetryManager.send_with_retry as_bytes config_rate_limit script
      (EmailMessageData.increment_retry (Upstream.time_time io) m)
      (slept ++ [retry_delay * 2 ^ EmailMessageData.retry_count m]) sender'.
Proof.
  intros Hsend Hfail Hbudget.
  cbn [RetryManager.send_with_retry]. rewrite Hsend, Hfail.
  unfold EmailMessageData.can_retry.
  fold max_retries.
  destruct (Z.ltb_spec (EmailMessageData.retry_count m) max_retries) as [Hlt|Hge];
    [reflexivity|lia].
Qed.

(** The loop returns: a script with one entry more than the retries
    left is never used up. *)
Lemma send_with_retry_returns (script : list Upstream.io) :
  forall (m : EmailMessageData.t) (slept : list Z) (sender : EmailSender.t),
    (Z.to_nat (max_retries - EmailMessageData.retry_count m) < List.length script)%nat ->
    exists o,
      RetryManager.send_with_retry as_bytes config_rate_limit script m slept sender = Some o.
Proof.
  induction script as [|io script IH]; intros m slept sender Hlen.
  - cbn in Hlen. lia.
  - destruct (send_email_cases io m sender) as (r & sender' & Hsend & _).
    cbn [RetryManager.send_with_retry]. rewrite Hsend.
    destruct (SendingResult.success r); [eexists; reflexivity|].
    unfold EmailMessageData.can_retry. fold max_retries.
    destruct (Z.ltb_spec (EmailMessageData.retry_count m) max_retries) as [Hlt|Hge];
      cbn [negb]; [|eexists; reflexivity].
    apply IH. cbn [EmailMessageData.increment_retry EmailMessageData.retry_count].
    cbn [List.length] in Hlen. lia.
Qed.

End SenderFacts.

(** C10: [send_email] is total.  Whatever the upstream does, the call
    returns (it raises nothing that derives from [Exception]) a
    [SendingResult] carrying the message's [id] and [retry_count]; the
    result is a failure whenever [sendmail] raises or reports refused
    recipients. *)
Theorem send_email_total :
  forall (as_bytes : email.MIME -> result string) (io : Upstream.io)
         (m : EmailMessageData.t) (sender : EmailSender.t),
  exists (r : SendingResult.t) (sender' : EmailSender.t),
    EmailSender.send_email as_bytes io m sender = (Ok r, sender')
    /\ SendingResult.message_id r = EmailMessageData.id m
    /\ SendingResult.retry_count r = EmailMessageData.retry_count m
    /\ (forall e, Upstream.sendmail_outcome io = Raise e ->
                  SendingResult.success r = false)
    /\ (forall errors, Upstream.sendmail_outcome io = Ok errors -> errors <> [] ->
                       SendingResult.success r = false).
Proof.
  intros as_bytes io m sender.
  destruct (send_email_cases as_bytes io m sender) as (r & sender' & Hsend & Hid & Hrc & Hok).
  exists r, sender'. repeat split; try assumption.
  - intros e He. destruct (SendingResult.success r) eqn:E; [|reflexivity].
    destruct (Hok eq_refl) as [Hs _]. congruence.
  - intros errors He Hne. destruct (SendingResult.success r) eqn:E; [|reflexivity].
    destruct (Hok eq_refl) as [Hs _]. congruence.
Qed.

(** C4: the retry manager.  When a send fails and
    [retry_count + 1 > max_retries], the failing result is returned at
    once, the message untouched and nothing slept.  Otherwise the manager
    records the sleep [base_delay * 2 ^ retry_count] computed from the
    count before the increment, increments [retry_count], sets
    [last_retry_at] to the clock reading and goes round again.  So a
    message with [retry_count = 0] whose first two sends fail and whose
    third is accepted, under [max_retries >= 2], ends sent with
    [retry_count = 2] after the sleeps [base_delay * 1] and
    [base_delay * 2], in total [base_delay * (1 + 2)]. *)
Theorem send_with_retry_backoff :
  forall (as_bytes : email.MIME -> result string) (cfg : RateLimitConfig.t),
    (forall io script m slept sender sender' r,
        EmailSender.send_email as_bytes io m sender = (Ok r, sender') ->
        SendingResult.success r = false ->
        EmailMessageData.retry_count m + 1 > RateLimitConfig.max_retries cfg ->
        RetryManager.send_with_retry as_bytes cfg (io :: script) m slept sender
        = Some {| RetryManager.returned := Ok r;
                  RetryManager.message_after := m;
                  RetryManager.sleeps := slept;
                  RetryManager.sender_after := sender';
                  RetryManager.script_left := script |})
    /\ (forall io script m slept sender sender' r,
          EmailSender.send_email as_bytes io m sender = (Ok r, sender') ->
          SendingResult.success r = false ->
          EmailMessageData.retry_count m + 1 <= RateLimitConfig.max_retries cfg ->
          let m' := EmailMessageData.increment_retry (Upstream.time_time io) m in
          EmailMessageData.retry_count m' = EmailMessageData.retry_count m + 1
          /\ EmailMessageData.last_retry_at m' = Upstream.time_time io
          /\ RetryManager.send_with_retry as_bytes cfg (io :: script) m slept sender
             = RetryManager.send_with_retry as_bytes cfg script m'
                 (slept ++ [RateLimitConfig.retry_delay cfg
                            * 2 ^ EmailMessageData.retry_count m]) sender')
    /\ (forall io1 io2 io3 script m sender e1 e2 bytes,
          EmailMessageData.retry_count m = 0 ->
          2 <= RateLimitConfig.max_retries cfg ->
          EmailSender.smtp_client sender = Some tt ->
          Upstream.sendmail_outcome io1 = Raise e1 ->
          Upstream.sendmail_outcome io2 = Raise e2 ->
          Upstream.sendmail_outcome io3 = Ok [] ->
          EmailMessageData.to_smtp_message as_bytes
            (Upstream.formatdate io3) (Upstream.make_msgid io3) m = Ok bytes ->
          exists o r,
            RetryManager.send_with_retry as_bytes cfg (io1 :: io2 :: io3 :: script) m [] sender
            = Some o
            /\ RetryManager.returned o = Ok r
            /\ SendingResult.success r = true
            /\ EmailMessageData.retry_count (RetryManager.message_after o) = 2
            /\ EmailMessageData.last_retry_at (RetryManager.message_after o)
               = Upstream.time_time io2
            /\ RetryManager.sleeps o
               = [RateLimitConfig.retry_delay cfg * 1; RateLimitConfig.retry_delay cfg * 2]
            /\ fold_right Z.add 0 (RetryManager.sleeps o)
               = RateLimitConfig.retry_delay cfg * (1 + 2)).
Proof.
  intros as_bytes cfg. split; [|split].
  - intros. eapply send_with_retry_gives_up; eassumption.
  - intros io script m slept sender sender' r Hsend Hfail Hbudget m'.
    split; [reflexivity|]. split; [reflexivity|].
    eapply send_with_retry_retries; eassumption.
  - intros io1 io2 io3 script m sender e1 e2 bytes Hrc Hmax Hc H1 H2 H3 Hb.
    destruct (send_email_sendmail_raises as_bytes io1 m sender e1 Hc H1) as (r1 & Hs1 & Hf1).
    rewrite (send_with_retry_retries as_bytes cfg io1 _ m [] sender sender r1 Hs1 Hf1)
      by lia.
    set (m1 := EmailMessageData.increment_retry (Upstream.time_time io1) m).
    destruct (send_email_sendmail_raises as_bytes io2 m1 sender e2 Hc H2) as (r2 & Hs2 & Hf2).
    rewrite (send_with_retry_retries as_bytes cfg io2 _ m1 _ sender sender r2 Hs2 Hf2)
      by (subst m1; cbn [EmailMessageData.increment_retry EmailMessageData.retry_count]; lia).
    set (m2 := EmailMessageData.increment_retry (Upstream.time_time io2) m1).
    assert (Hs3 : EmailSender.send_email as_bytes io3 m2 sender
                  = (Ok (EmailSender.succeeded m2), sender)).
    { apply send_email_accepted with (bytes := bytes); try assumption. }
    cbn [RetryManager.send_with_retry]. rewrite Hs3.
    cbn [EmailSender.succeeded SendingResult.success].
    eexists. eexists. split; [reflexivity|].
    cbn [RetryManager.returned RetryManager.message_after RetryManager.sleeps].
    split; [reflexivity|]. split; [reflexivity|].
    subst m2 m1.
    cbn [EmailMessageData.increment_retry EmailMessageData.retry_count
         EmailMessageData.last_retry_at app].
    rewrite Hrc.
    change (2 ^ 0) with 1. change (2 ^ (0 + 1)) with 2.
    repeat split; try reflexivity.
    cbn [fold_right]. lia.
Qed.

Example retry_scenario_sent_on_third_attempt :
  option_map
    (fun o => (RetryManager.returned o,
               EmailMessageData.retry_count (RetryManager.message_after o),
               RetryManager.sleeps o))
    (RetryManager.send_with_retry PlainMail.as_bytes scenario_config
       [answers_421 101%Q; answers_421 102%Q; accepts 104%Q] scenario_message []
       {| EmailSender.smtp_client := Some tt |})
  = Some (Ok {| SendingResult.success := true;
                SendingResult.message_id := "m-1";
                SendingResult.error_message := "";
                SendingResult.retry_count := 2 |},
          2, [1; 2]).
Proof. vm_compute. reflexivity. Qed.


(** ** Facts about the ingress handler *)

Section HandlerFacts.

Variable message_from_bytes : string -> email.Message.
Variable decode_utf8_ignore : string -> string.
Variable max_message_size : Z.

(** [_validate_message] refuses exactly an empty sender, an empty
    recipient list, or a body text longer in UTF-8 bytes than the limit. *)
Lemma validate_message_false_iff (m : EmailMessageData.t) :
  SMTPProxyHandler._validate_message max_message_size m = false
  <-> EmailMessageData.from_addr m = EmptyString
      \/ EmailMessageData.to_addrs m = []
      \/ Z.of_nat (String.length (EmailMessageData.message_body m)) > max_message_size.
Proof.
  unfold SMTPProxyHandler._validate_message, str_truthy, list_truthy.
  destruct (String.eqb_spec (EmailMessageData.from_addr m) "") as [Hf|Hf];
    cbn [negb].
  - split; [intros _; left; exact Hf|reflexivity].
  - destruct (EmailMessageData.to_addrs m) as [|a l] eqn:Ht; cbn [negb].
    + split; [intros _; right; left; reflexivity|reflexivity].
    + destruct (Z.gtb_spec (Z.of_nat (String.length (EmailMessageData.message_body m)))
                  max_message_size) as [Hgt|Hle].
      * split; [intros _; right; right; lia|reflexivity].
      * split; [discriminate|].
        intros [H|[H|H]]; [contradiction|discriminate|lia].
Qed.

(** The three ways through [handle_DATA].  The value that [enqueue]
    returns is not looked at: a message that passes validation is
    answered 250 whatever the queue manager did with it. *)
Lemma handle_DATA_cases (fresh_uuid : string) (now : float)
    (envelope : EmailMessageData.Envelope) (qm : QueueManager.t) :
  match EmailMessageData.from_smtp_message message_from_bytes decode_utf8_ignore
          fresh_uuid now envelope (EmailMessageData.content envelope) with
  | Raise _ =>
      SMTPProxyHandler.handle_DATA message_from_bytes decode_utf8_ignore
        max_message_size fresh_uuid now envelope qm
      = (Ok SMTPProxyHandler.reply_451, qm)
  | Ok m =>
      if SMTPProxyHandler._validate_message max_message_size m then
        SMTPProxyHandler.handle_DATA message_from_bytes decode_utf8_ignore
          max_message_size fresh_uuid now envelope qm
        = (Ok SMTPProxyHandler.reply_250, snd (QueueManager.enqueue m qm))
      else
        SMTPProxyHandler.handle_DATA message_from_bytes decode_utf8_ignore
          max_message_size fresh_uuid now envelope qm
        = (Ok SMTPProxyHandler.reply_550, qm)
  end.
Proof.
  unfold SMTPProxyHandler.handle_DATA, try_except, bind, ret.
  destruct (EmailMessageData.from_smtp_message _ _ _ _ _ _) as [m|e]; [|reflexivity].
  destruct (SMTPProxyHandler._validate_message max_message_size m); cbn [negb];
    [|reflexivity].
  assert (Hen : exists b qm', QueueManager.enqueue m qm = (Ok b, qm')).
  { destruct qm as [s|d]; cbn [QueueManager.enqueue].
    - unfold QueueManager.on_redis, RedisQueueManager.enqueue, try_except, bind, ret,
        Redis.lpush, Redis.command.
      destruct (Redis.up s); eexists; eexists; reflexivity.
    - unfold QueueManager.on_sqlite, SQLiteQueueManager.enqueue, try_except, bind, ret,
        SQLite.insert, SQLite.statement.
      destruct (SQLite.usable d); [|eexists; eexists; reflexivity].
      destruct (SQLite.has_id _ _); eexists; eexists; reflexivity. }
  destruct Hen as (b & qm' & Hen). rewrite Hen. reflexivity.
Qed.

End HandlerFacts.

(** C1, at the failing input: the handler receives a valid message while
    Redis is out of reach.  The message passes validation, [enqueue]
    returns [False] and leaves the queue as it was, and the handler still
    answers 250. *)
Theorem handle_DATA_250_though_enqueue_failed :
  EmailMessageData.from_smtp_message PlainMail.message_from_bytes
    PlainMail.decode_utf8_ignore "uuid-1" 100%Q hello_envelope
    (EmailMessageData.content hello_envelope) = Ok hello_message
  /\ SMTPProxyHandler._validate_message 1024 hello_message = true
  /\ QueueManager.enqueue hello_message redis_down = (Ok false, redis_down)
  /\ SMTPProxyHandler.handle_DATA PlainMail.message_from_bytes
       PlainMail.decode_utf8_ignore 1024 "uuid-1" 100%Q hello_envelope redis_down
     = (Ok SMTPProxyHandler.reply_250, redis_down)
  /\ SMTPProxyHandler.reply_code SMTPProxyHandler.reply_250 = "250"%string.
Proof. repeat split; vm_compute; reflexivity. Qed.

(** C5, at the failing input: with [max_message_size = 1024], a DATA
    block of 2048 bytes whose body text is two bytes long passes
    validation, which measures the body text only; the handler answers
    250 and the message is on the queue. *)
Theorem handle_DATA_accepts_2048_byte_data :
  String.length (EmailMessageData.content long_header_envelope) = 2048%nat
  /\ SMTPProxyHandler.handle_DATA PlainMail.message_from_bytes
       PlainMail.decode_utf8_ignore 1024 "uuid-2" 100%Q long_header_envelope redis_empty
     = (Ok SMTPProxyHandler.reply_250,
        QueueManager.RedisQM
          {| Redis.queue := [EmailMessageData.to_dict long_header_message];
             Redis.processing := [];
             Redis.up := true |})
  /\ QueueManager.ready_ids
       (snd (SMTPProxyHandler.handle_DATA PlainMail.message_from_bytes
               PlainMail.decode_utf8_ignore 1024 "uuid-2" 100%Q long_header_envelope
               redis_empty))
     = ["uuid-2"%string].
Proof. repeat split; vm_compute; reflexivity. Qed.

Example handle_DATA_rejects_2048_byte_body :
  SMTPProxyHandler.handle_DATA PlainMail.message_from_bytes
    PlainMail.decode_utf8_ignore 1024 "uuid-3" 100%Q long_body_envelope redis_empty
  = (Ok SMTPProxyHandler.reply_550, redis_empty).
Proof. vm_compute. reflexivity. Qed.


(** ** Facts about the queue managers *)

Lemma item_ids_app (a b : list pydict) :
  QueueManager.item_ids (a ++ b) = QueueManager.item_ids a ++ QueueManager.item_ids b.
Proof.
  induction a as [|x a IH]; [reflexivity|].
  cbn [app QueueManager.item_ids].
  destruct (QueueManager.item_id x); rewrite IH; reflexivity.
Qed.

Lemma item_id_to_dict (m : EmailMessageData.t) :
  QueueManager.item_id (EmailMessageData.to_dict m) = Some (EmailMessageData.id m).
Proof. reflexivity. Qed.

Lemma pop_right_some (l front : list pydict) (v : pydict) :
  Redis.pop_right l = Some (front, v) -> l = front ++ [v].
Proof.
  revert front v. induction l as [|x l IH]; intros front v H; [discriminate|].
  cbn [Redis.pop_right] in H.
  destruct (Redis.pop_right l) as [[f last]|] eqn:E.
  - injection H as <- <-. rewrite (IH f last eq_refl). reflexivity.
  - injection H as <- <-. destruct l as [|y l]; [reflexivity|].
    cbn [Redis.pop_right] in E. destruct (Redis.pop_right l) as [[? ?]|]; discriminate.
Qed.

Lemma remove_first_keeps_NoDup (v : pydict) (l : list pydict) :
  forall a : list string,
    NoDup (a ++ QueueManager.item_ids l) ->
    NoDup (a ++ QueueManager.item_ids (Redis.remove_first v l)).
Proof.
  induction l as [|x l IH]; intros a H; [exact H|].
  cbn [Redis.remove_first]. cbn [QueueManager.item_ids] in H.
  destruct (pydict_eqb x v).
  - destruct (QueueManager.item_id x) as [i|]; [|exact H].
    apply NoDup_remove_1 in H. exact H.
  - cbn [QueueManager.item_ids].
    destruct (QueueManager.item_id x) as [i|]; [|apply IH; exact H].
    replace (a ++ i :: QueueManager.item_ids (Redis.remove_first v l))
      with ((a ++ [i]) ++ QueueManager.item_ids (Redis.remove_first v l))
      by (rewrite <- app_assoc; reflexivity).
    apply IH. rewrite <- app_assoc. exact H.
Qed.

(** The scan of [mark_completed] leaves the store as it was or removes
    one item from the processing list. *)
Lemma mark_completed_scan_effect (message_id : string) (items : list pydict)
    (s : Redis.store) :
  exists r s',
    RedisQueueManager.mark_completed_scan message_id items s = (r, s')
    /\ (s' = s
        \/ exists item,
             s' = {| Redis.queue := Redis.queue s;
                     Redis.processing := Redis.remove_first item (Redis.processing s);
                     Redis.up := Redis.up s |}).
Proof.
  induction items as [|item rest IH].
  - eexists; eexists; split; [reflexivity|left; reflexivity].
  - cbn [RedisQueueManager.mark_completed_scan].
    destruct (dict_get item "id") as [v|].
    + destruct (pyval_eqb v (PStr message_id)); [|exact IH].
      unfold Redis.lrem_1, Redis.command.
      destruct (Redis.up s) eqn:Hup.
      * eexists; eexists; split; [reflexivity|]. right. exists item.
        cbn [Redis.write Redis.read RedisQueueManager.processing_key].
        rewrite Hup. reflexivity.
      * eexists; eexists; split; [reflexivity|left; reflexivity].
    + eexists; eexists; split; [reflexivity|left; reflexivity].
Qed.

Lemma redis_mark_completed_effect (message_id : string) (s : Redis.store) :
  exists s',
    RedisQueueManager.mark_completed message_id s = (Ok tt, s')
    /\ (s' = s
        \/ exists item,
             s' = {| Redis.queue := Redis.queue s;
                     Redis.processing := Redis.remove_first item (Redis.processing s);
                     Redis.up := Redis.up s |}).
Proof.
  unfold RedisQueueManager.mark_completed, try_except, bind, ret,
    Redis.lrange_all, Redis.command.
  destruct (Redis.up s) eqn:Hup.
  - destruct (mark_completed_scan_effect message_id
                (Redis.read RedisQueueManager.processing_key s) s)
      as (r & s' & Hscan & Heff).
    rewrite Hscan. rewrite Hup in Heff.
    destruct r as [[]|e]; exists s'; split; try reflexivity; exact Heff.
  - exists s. split; [reflexivity|left; reflexivity].
Qed.

Lemma redis_apply_op_unique (o : queue_op) (s : Redis.store) :
  ids_unique (QueueManager.RedisQM s) ->
  enqueues_fresh o (QueueManager.RedisQM s) ->
  ids_unique (apply_op o (QueueManager.RedisQM s)).
Proof.
  intros Hu Hf. destruct o as [m|u n|i st]; cbn [apply_op].
  - cbn [QueueManager.enqueue]. unfold QueueManager.on_redis,
      RedisQueueManager.enqueue, try_except, bind, ret, Redis.lpush, Redis.command.
    destruct (Redis.up s); cbn [snd]; [|exact Hu].
    cbn [ids_unique Redis.write Redis.read RedisQueueManager.queue_key
         Redis.queue Redis.processing QueueManager.item_ids].
    rewrite item_id_to_dict. cbn [app].
    constructor; [exact Hf|exact Hu].
  - cbn [QueueManager.dequeue]. unfold QueueManager.on_redis,
      RedisQueueManager.dequeue, try_except, bind, ret, Redis.rpoplpush, Redis.command.
    destruct (Redis.up s); cbn [snd]; [|exact Hu].
    cbn [Redis.read RedisQueueManager.queue_key RedisQueueManager.processing_key].
    destruct (Redis.pop_right (Redis.queue s)) as [[front v]|] eqn:E; cbn [snd];
      [|exact Hu].
    apply pop_right_some in E.
    unfold RedisQueueManager.processing_key, RedisQueueManager.queue_key.
    cbn [ids_unique Redis.write Redis.read Redis.queue Redis.processing] in *.
    rewrite E, item_ids_app, <- app_assoc in Hu.
    rewrite <- item_ids_app in Hu. exact Hu.
  - unfold QueueManager.on_redis.
    destruct (redis_mark_completed_effect i s) as (s' & Hm & [->|[item ->]]);
      rewrite Hm; cbn [snd]; [exact Hu|].
    cbn [ids_unique Redis.queue Redis.processing] in *.
    apply remove_first_keeps_NoDup. exact Hu.
Qed.

Lemma has_id_false (i : string) (rows : list SQLite.row) :
  SQLite.has_id i rows = false -> ~ In i (map SQLite.id rows).
Proof.
  induction rows as [|r rows IH]; intros H; [intros []|].
  cbn [SQLite.has_id existsb] in H. apply orb_false_iff in H as [H1 H2].
  intros [Heq|Hin].
  - rewrite Heq, String.eqb_refl in H1. discriminate.
  - exact (IH H2 Hin).
Qed.

Lemma NoDup_snoc {A : Type} (l : list A) (a : A) :
  NoDup l -> ~ In a l -> NoDup (l ++ [a]).
Proof.
  intros Hl Ha. apply NoDup_app; [exact Hl|constructor; [intros []|constructor]|].
  intros x Hx [<-|[]]. exact (Ha Hx).
Qed.

Lemma update_keeps_ids (i : string) (f : SQLite.row -> SQLite.row) (rows : list SQLite.row) :
  (forall r, SQLite.id (f r) = SQLite.id r) ->
  map SQLite.id (map (fun r => if String.eqb (SQLite.id r) i then f r else r) rows)
  = map SQLite.id rows.
Proof.
  intros Hf. induction rows as [|r rows IH]; [reflexivity|].
  cbn [map]. rewrite IH. destruct (String.eqb (SQLite.id r) i); [rewrite Hf|]; reflexivity.
Qed.

Lemma sqlite_apply_op_unique (o : queue_op) (d : SQLite.db) :
  ids_unique (QueueManager.SQLiteQM d) ->
  ids_unique (apply_op o (QueueManager.SQLiteQM d)).
Proof.
  intros Hu. destruct o as [m|u n|i st]; cbn [apply_op].
  - cbn [QueueManager.enqueue]. unfold QueueManager.on_sqlite,
      SQLiteQueueManager.enqueue, try_except, bind, ret, SQLite.insert, SQLite.statement.
    destruct (SQLite.usable d); cbn [snd]; [|exact Hu].
    destruct (SQLite.has_id _ _) eqn:E; cbn [snd ids_unique SQLite.smtp_queue];
      [exact Hu|].
    rewrite map_app. cbn [map]. apply NoDup_snoc; [exact Hu|].
    apply has_id_false. exact E.
  - cbn [QueueManager.dequeue]. unfold QueueManager.on_sqlite,
      SQLiteQueueManager.dequeue, try_except, bind, ret,
      SQLite.select_oldest_pending, SQLite.update_where_id, SQLite.statement.
    destruct (SQLite.usable d) eqn:Hus; cbn [snd]; [|exact Hu].
    destruct (SQLite.oldest None (SQLite.smtp_queue d)) as [row|];
      cbn [SQLite.usable SQLite.smtp_queue]; [|cbn [snd ids_unique SQLite.smtp_queue]; exact Hu].
    cbn [snd ids_unique SQLite.smtp_queue].
    rewrite update_keeps_ids by reflexivity. exact Hu.
  - unfold QueueManager.on_sqlite, SQLiteQueueManager.mark_completed, try_except, bind,
      ret, SQLite.update_where_id, SQLite.statement.
    destruct (SQLite.usable d); cbn [snd]; [|exact Hu].
    cbn [ids_unique SQLite.smtp_queue].
    rewrite update_keeps_ids by reflexivity. exact Hu.
Qed.

Lemma NoDup_map_same {A B : Type} (f : A -> B) (l : list A) (a b : A) :
  NoDup (map f l) -> In a l -> In b l -> f a = f b -> a = b.
Proof.
  induction l as [|x l IH]; intros Hnd Ha Hb Hf; [destruct Ha|].
  cbn [map] in Hnd. inversion Hnd as [|y l' Hnotin Hnd']. subst.
  destruct Ha as [->|Ha], Hb as [->|Hb].
  - reflexivity.
  - exfalso. apply Hnotin. rewrite Hf. apply in_map. exact Hb.
  - exfalso. apply Hnotin. rewrite <- Hf. apply in_map. exact Ha.
  - apply IH; assumption.
Qed.

Lemma NoDup_app_disjoint {A : Type} (l1 l2 : list A) (a : A) :
  NoDup (l1 ++ l2) -> In a l1 -> ~ In a l2.
Proof.
  induction l1 as [|x l1 IH]; intros Hnd Ha; [destruct Ha|].
  cbn [app] in Hnd. inversion Hnd as [|y l' Hnotin Hnd']. subst.
  destruct Ha as [->|Ha].
  - intros H2. apply Hnotin. apply in_or_app. right. exact H2.
  - apply IH; assumption.
Qed.

Lemma unique_ids_disjoint (qm : QueueManager.t) :
  ids_unique qm -> disjoint_collections qm.
Proof.
  destruct qm as [s|d]; cbn [ids_unique]; intros Hu i Hr Hf.
  - cbn [QueueManager.ready_ids QueueManager.in_flight_ids] in *.
    exact (NoDup_app_disjoint _ _ i Hu Hr Hf).
  - cbn [QueueManager.ready_ids QueueManager.in_flight_ids] in *.
    apply in_map_iff in Hr as (r1 & Hid1 & Hin1).
    apply in_map_iff in Hf as (r2 & Hid2 & Hin2).
    apply filter_In in Hin1 as [Hin1 Hd].
    apply filter_In in Hin2 as [Hin2 Hp].
    assert (Heq : r1 = r2).
    { apply (NoDup_map_same SQLite.id (SQLite.smtp_queue d)); try assumption.
      congruence. }
    subst r2. unfold SQLite.dispatchable in Hd. unfold QueueManager.in_processing in Hp.
    apply andb_true_iff in Hd as [Hd _].
    apply Z.eqb_eq in Hd. apply Z.eqb_eq in Hp. lia.
Qed.

Lemma run_ops_unique (ops : list queue_op) :
  forall qm, ids_unique qm -> all_enqueues_fresh ops qm -> ids_unique (run_ops ops qm).
Proof.
  induction ops as [|o ops IH]; intros qm Hu Hf; [exact Hu|].
  cbn [run_ops fold_left]. destruct Hf as [Hf1 Hf2].
  apply IH; [|exact Hf2].
  destruct qm as [s|d].
  - apply redis_apply_op_unique; assumption.
  - apply sqlite_apply_op_unique; assumption.
Qed.

(** C6, as stated, fails on Redis: the worker's order on a message that
    it took from the queue, enqueue again and settle afterwards, passes
    through a state in which the message is ready and in flight at once. *)
Lemma requeue_puts_message_in_both_collections :
  In "uuid-1"%string (QueueManager.ready_ids (run_ops requeue_in_flight redis_empty))
  /\ In "uuid-1"%string (QueueManager.in_flight_ids (run_ops requeue_in_flight redis_empty)).
Proof. split; vm_compute; left; reflexivity. Qed.

(** C6, amended: messages being told apart by their id, every sequence of
    enqueue, dequeue and settle keeps [ready] and [in_flight] disjoint
    when it starts from a queue that holds every id once and, on Redis,
    enqueues no message whose id the queue still holds.  On SQLite the
    second condition is not needed: the table has one row per id. *)
Theorem queue_collections_stay_disjoint :
  forall (ops : list queue_op) (qm : QueueManager.t),
    ids_unique qm ->
    all_enqueues_fresh ops qm ->
    disjoint_collections (run_ops ops qm) /\ ids_unique (run_ops ops qm).
Proof.
  intros ops qm Hu Hf.
  pose proof (run_ops_unique ops qm Hu Hf) as H.
  split; [apply unique_ids_disjoint; exact H|exact H].
Qed.

Lemma queue_collections_stay_disjoint_witness :
  disjoint_collections
    (run_ops [Enqueue hello_message; Dequeue "uuid-9" 101%Q; Settle "uuid-1" "sent"]
       redis_empty)
  /\ ids_unique
       (run_ops [Enqueue hello_message; Dequeue "uuid-9" 101%Q; Settle "uuid-1" "sent"]
          redis_empty).
Proof.
  apply (queue_collections_stay_disjoint
           [Enqueue hello_message; Dequeue "uuid-9" 101%Q; Settle "uuid-1" "sent"]
           redis_empty).
  - vm_compute. constructor.
  - vm_compute. repeat split. intros H. exact H.
Defined.

(** On SQLite no condition on the operations is needed. *)
Lemma sqlite_collections_stay_disjoint (ops : list queue_op) (d : SQLite.db) :
  NoDup (map SQLite.id (SQLite.smtp_queue d)) ->
  disjoint_collections (run_ops ops (QueueManager.SQLiteQM d)).
Proof.
  intros Hu. apply unique_ids_disjoint.
  revert d Hu. induction ops as [|o ops IH]; intros d Hu; [exact Hu|].
  cbn [run_ops fold_left].
  pose proof (sqlite_apply_op_unique o d Hu) as H.
  destruct (apply_op o (QueueManager.SQLiteQM d)) as [s|d'] eqn:E.
  - exfalso. destruct o; cbn [apply_op QueueManager.enqueue QueueManager.dequeue] in E;
      unfold QueueManager.on_sqlite in E.
    + destruct (SQLiteQueueManager.enqueue message d); discriminate.
    + destruct (SQLiteQueueManager.dequeue fresh_uuid now d); discriminate.
    + destruct (SQLiteQueueManager.mark_completed message_id status d); discriminate.
  - apply IH. exact H.
Qed.

(** C2, as stated, fails: the process starts on a Redis server that holds
    an entry in flight; the queue manager that [create_queue_manager]
    returns still holds that entry in flight, and [ready] is still empty. *)
Lemma startup_leaves_entry_in_flight :
  exists qm,
    create_queue_manager redis_config crashed_backends = Ok qm
    /\ QueueManager.in_flight_ids qm = ["uuid-1"%string]
    /\ QueueManager.ready_ids qm = [].
Proof. eexists. repeat split. Qed.

(** C2, amended: at process start the queue manager is built and
    connected, and nothing more: the manager that [create_queue_manager]
    returns holds the queue exactly as the backend held it, so [ready]
    and [in_flight] are what they were before. *)
Theorem startup_keeps_queue_as_stored :
  forall (cfg : QueueConfig.t) (b : Backends) (qm : QueueManager.t),
    create_queue_manager cfg b = Ok qm ->
    qm = stored_queue cfg b
    /\ QueueManager.ready_ids qm = QueueManager.ready_ids (stored_queue cfg b)
    /\ QueueManager.in_flight_ids qm = QueueManager.in_flight_ids (stored_queue cfg b).
Proof.
  intros cfg b qm H.
  assert (Hq : qm = stored_queue cfg b).
  { unfold create_queue_manager, stored_queue in *.
    destruct (String.eqb (QueueConfig.backend cfg) "redis").
    - unfold RedisQueueManager.connect in H.
      injection H as <-. reflexivity.
    - unfold SQLiteQueueManager.connect, SQLiteQueueManager._create_table,
        SQLite.statement in H.
      destruct (sqlite_file b) as [rows usable]. cbn [SQLite.usable SQLite.smtp_queue] in H.
      destruct usable; [|discriminate].
      injection H as <-. reflexivity. }
  rewrite Hq. repeat split.
Qed.

Lemma startup_keeps_queue_as_stored_witness :
  create_queue_manager redis_config crashed_backends = Ok redis_in_flight
  /\ QueueManager.in_flight_ids redis_in_flight
     = QueueManager.in_flight_ids (stored_queue redis_config crashed_backends).
Proof.
  split; [reflexivity|].
  exact (proj2 (proj2 (startup_keeps_queue_as_stored redis_config crashed_backends
                         redis_in_flight eq_refl))).
Defined.

(** The accessor hands out that manager on its first call and the one it
    already has afterwards. *)
Lemma get_queue_manager_calls (cfg : QueueConfig.t) (b : Backends) (qm : QueueManager.t) :
  get_queue_manager cfg b None = create_queue_manager cfg b
  /\ get_queue_manager cfg b (Some qm) = Ok qm.
Proof. split; reflexivity. Qed.

(** The manager is returned when the SQLite file can be used, and
    always on Redis. *)
Lemma create_queue_manager_returns (cfg : QueueConfig.t) (b : Backends) :
  SQLite.usable (sqlite_file b) = true ->
  create_queue_manager cfg b = Ok (stored_queue cfg b).
Proof.
  intros Hs. unfold create_queue_manager, stored_queue.
  destruct (String.eqb (QueueConfig.backend cfg) "redis").
  - unfold RedisQueueManager.connect. reflexivity.
  - unfold SQLiteQueueManager.connect, SQLiteQueueManager._create_table, SQLite.statement.
    rewrite Hs. destruct (sqlite_file b) as [rows usable]. cbn in Hs. subst usable.
    reflexivity.
Qed.

(** C3, at the failing input: the Redis manager holds [hello_message] in
    flight and the upstream accepts it at the first attempt.  The call
    [mark_completed(message.id, "sent")] raises [TypeError], the
    [except] branch enqueues the message again, and its second
    [mark_completed] raises as well: the sent message is ready for
    another send and its entry is still in flight. *)
Theorem process_message_on_redis_requeues_sent_message :
  QueueManager.mark_completed "uuid-1" "sent" redis_in_flight
  = (Raise QueueManager.TypeError_mark_completed, redis_in_flight)
  /\ option_map
       (fun r => (fst r, RetryManager.returned (snd r)))
       (EmailWorker._process_message PlainMail.as_bytes scenario_config
          [accepts 101%Q] hello_message {| EmailSender.smtp_client := Some tt |}
          redis_in_flight)
     = Some (QueueManager.RedisQM
               {| Redis.queue := [EmailMessageData.to_dict hello_message];
                  Redis.processing := [EmailMessageData.to_dict hello_message];
                  Redis.up := true |},
             Ok (EmailSender.succeeded hello_message)).
Proof. split; vm_compute; reflexivity. Qed.

(** ** Facts about the worker *)

Section WorkerFacts.

Variable as_bytes : email.MIME -> result string.
Variable config_rate_limit : RateLimitConfig.t.

(** [send_with_retry] never raises, and a failure it returns has used up
    the retry budget. *)
Lemma send_with_retry_result (script : list Upstream.io) :
  forall (m : EmailMessageData.t) (slept : list Z) (sender : EmailSender.t)
         (o : RetryManager.outcome),
    RetryManager.send_with_retry as_bytes config_rate_limit script m slept sender = Some o ->
    exists r,
      RetryManager.returned o = Ok r
      /\ (SendingResult.success r = false ->
          EmailMessageData.can_retry (RetryManager.message_after o)
            (RateLimitConfig.max_retries config_rate_limit) = false).
Proof.
  induction script as [|io script IH]; intros m slept sender o H; [discriminate|].
  cbn [RetryManager.send_with_retry] in H.
  destruct (send_email_cases as_bytes io m sender) as (r & sender' & Hsend & _).
  rewrite Hsend in H.
  destruct (SendingResult.success r) eqn:Hs.
  - injection H as <-. exists r. split; [reflexivity|]. intros Hf. cbn in Hf. congruence.
  - destruct (EmailMessageData.can_retry m _) eqn:Hc; cbn [negb] in H.
    + exact (IH _ _ _ _ H).
    + injection H as <-. exists r. split; [reflexivity|]. intros _. exact Hc.
Qed.

(** On the SQLite manager [mark_completed] with a status never raises. *)
Lemma sqlite_mark_completed_ok (message_id status : string) (d : SQLite.db) :
  QueueManager.mark_completed message_id status (QueueManager.SQLiteQM d)
  = (Ok tt, QueueManager.SQLiteQM (snd (SQLiteQueueManager.mark_completed message_id status d))).
Proof.
  cbn [QueueManager.mark_completed]. unfold QueueManager.on_sqlite,
    SQLiteQueueManager.mark_completed, try_except, bind, ret, SQLite.update_where_id,
    SQLite.statement.
  destruct (SQLite.usable d); reflexivity.
Qed.

(** On the SQLite manager the worker settles a message as the three
    branches of [_process_message] say: [sent] after a successful send;
    otherwise, with budget left, the message is set to [pending], handed
    to [enqueue] and its entry settled [failed_retry]; otherwise the
    entry is settled [failed]. *)
Lemma process_message_on_sqlite (script : list Upstream.io) (m : EmailMessageData.t)
    (sender : EmailSender.t) (d : SQLite.db) (o : RetryManager.outcome) :
  RetryManager.send_with_retry as_bytes config_rate_limit script m [] sender = Some o ->
  exists r,
    RetryManager.returned o = Ok r
    /\ EmailWorker._process_message as_bytes config_rate_limit script m sender
         (QueueManager.SQLiteQM d)
       = Some
           (let m' := RetryManager.message_after o in
            let i := EmailMessageData.id m' in
            if SendingResult.success r then
              QueueManager.SQLiteQM (snd (SQLiteQueueManager.mark_completed i "sent" d))
            else if EmailMessageData.can_retry m'
                      (RateLimitConfig.max_retries config_rate_limit) then
              QueueManager.SQLiteQM
                (snd (SQLiteQueueManager.mark_completed i "failed_retry"
                        (snd (SQLiteQueueManager.enqueue
                                (EmailMessageData.set_status "pending" m') d))))
            else
              QueueManager.SQLiteQM (snd (SQLiteQueueManager.mark_completed i "failed" d)),
            o).
Proof.
  intros Hsend.
  destruct (send_with_retry_result script m [] sender o Hsend) as (r & Hr & _).
  exists r. split; [exact Hr|].
  unfold EmailWorker._process_message. rewrite Hsend, Hr.
  unfold try_except, EmailWorker.settle.
  destruct (SendingResult.success r).
  - rewrite sqlite_mark_completed_ok. reflexivity.
  - destruct (EmailMessageData.can_retry _ _).
    + unfold bind. cbn [QueueManager.enqueue]. unfold QueueManager.on_sqlite.
      destruct (SQLiteQueueManager.enqueue _ d) as [[b|e] d'] eqn:E.
      * rewrite sqlite_mark_completed_ok. reflexivity.
      * exfalso. unfold SQLiteQueueManager.enqueue, try_except, bind, ret,
          SQLite.insert, SQLite.statement in E.
        destruct (SQLite.usable d); [|discriminate].
        destruct (SQLite.has_id _ _); discriminate.
    + rewrite sqlite_mark_completed_ok. reflexivity.
Qed.

(** On the Redis manager every path of [_process_message] ends in the
    [except] branch: the message is handed to [enqueue] again and no
    entry leaves the processing list. *)
Lemma process_message_on_redis (script : list Upstream.io) (m : EmailMessageData.t)
    (sender : EmailSender.t) (s : Redis.store) (o : RetryManager.outcome) :
  RetryManager.send_with_retry as_bytes config_rate_limit script m [] sender = Some o ->
  EmailWorker._process_message as_bytes config_rate_limit script m sender
    (QueueManager.RedisQM s)
  = Some (QueueManager.RedisQM
            (snd (RedisQueueManager.enqueue
                    (EmailMessageData.set_status "pending" (RetryManager.message_after o))
                    s)),
          o).
Proof.
  intros Hsend.
  destruct (send_with_retry_result script m [] sender o Hsend) as (r & Hr & Hdead).
  unfold EmailWorker._process_message. rewrite Hsend, Hr.
  unfold try_except, EmailWorker.settle, EmailWorker.requeue_after_exception, try_except.
  assert (Hen : forall m', exists b s',
             RedisQueueManager.enqueue m' s = (Ok b, s')).
  { intros m'. unfold RedisQueueManager.enqueue, try_except, bind, ret,
      Redis.lpush, Redis.command.
    destruct (Redis.up s); eexists; eexists; reflexivity. }
  destruct (Hen (EmailMessageData.set_status "pending" (RetryManager.message_after o)))
    as (b & s' & He).
  destruct (SendingResult.success r) eqn:Hs.
  - cbn [QueueManager.mark_completed]. unfold bind. cbn [QueueManager.enqueue].
    unfold QueueManager.on_redis. rewrite He. reflexivity.
  - rewrite (Hdead eq_refl).
    cbn [QueueManager.mark_completed]. unfold bind. cbn [QueueManager.enqueue].
    unfold QueueManager.on_redis. rewrite He. reflexivity.
Qed.

End WorkerFacts.

(** ** Facts about the serialization to wire bytes *)

Lemma copy_headers_fields (headers : list (string * string)) :
  forall msg : email.MIME,
    email.fields (EmailMessageData.copy_headers headers msg)
    = email.fields msg
      ++ filter (fun kv => negb (EmailMessageData.skipped_header (fst kv))) headers.
Proof.
  unfold EmailMessageData.copy_headers.
  induction headers as [|[k v] headers IH]; intros msg; cbn [fold_left filter fst snd].
  - rewrite app_nil_r. reflexivity.
  - rewrite IH. destruct (EmailMessageData.skipped_header k); cbn [negb].
    + reflexivity.
    + cbn [email.setitem email.fields]. rewrite <- app_assoc. reflexivity.
Qed.

Lemma ensure_fields (name value : string) (msg : email.MIME) :
  email.fields (EmailMessageData.ensure name value msg) = email.fields msg
  \/ email.fields (EmailMessageData.ensure name value msg)
     = email.fields msg ++ [(name, value)].
Proof.
  unfold EmailMessageData.ensure.
  destruct (email.contains msg name); cbn [negb]; [left|right]; reflexivity.
Qed.

Lemma in_ensure_fields (name value : string) (msg : email.MIME) (kv : string * string) :
  In kv (email.fields (EmailMessageData.ensure name value msg)) ->
  In kv (email.fields msg) \/ fst kv = name.
Proof.
  destruct (ensure_fields name value msg) as [H|H]; rewrite H; [left; assumption|].
  intros Hin. apply in_app_or in Hin as [Hin|[<-|[]]]; [left; assumption|right; reflexivity].
Qed.

Lemma in_fields_ensure (name value : string) (msg : email.MIME) (kv : string * string) :
  In kv (email.fields msg) ->
  In kv (email.fields (EmailMessageData.ensure name value msg)).
Proof.
  intros Hin. destruct (ensure_fields name value msg) as [H|H]; rewrite H;
    [assumption|apply in_or_app; left; assumption].
Qed.

(** C8, as stated, fails: the message holds a header value with a line
    break, and the serialization returns bytes, without any error, even
    with a generator that refuses every field value holding CR or LF. *)
Lemma content_type_with_line_break_is_serialized :
  some_header_has_cr_or_lf injected_content_type = true
  /\ refuses_cr_or_lf PlainMail.as_bytes PlainMail.MalformedHeader
  /\ exists bytes,
       EmailMessageData.to_smtp_message PlainMail.as_bytes
         "Tue, 03 Nov 2026 10:00:00 -0000" "<1@relay>" injected_content_type
       = Ok bytes.
Proof.
  split; [reflexivity|]. split.
  - intros msg H. unfold PlainMail.as_bytes. rewrite H. reflexivity.
  - eexists. vm_compute. reflexivity.
Qed.

(** C8, amended: [to_smtp_message] checks no header value and raises
    nothing of its own.  Every header whose lower-cased name is neither
    [content-type] nor [content-transfer-encoding] reaches the generator
    with its value unchanged, so a CR or LF in such a value makes the
    serialization fail exactly when the generator refuses it; a header of
    one of those two names is dropped, and the fields of these names that
    the generator sees are the constructor's own. *)
Theorem to_smtp_message_leaves_header_values_to_generator :
  forall (as_bytes : email.MIME -> result string) (formatdate make_msgid : string)
         (m : EmailMessageData.t),
    (forall k v,
        In (k, v) (EmailMessageData.message_headers m) ->
        EmailMessageData.skipped_header k = false ->
        In (k, v) (email.fields (EmailMessageData.build_msg formatdate make_msgid m)))
    /\ (forall k v,
          In (k, v) (email.fields (EmailMessageData.build_msg formatdate make_msgid m)) ->
          EmailMessageData.skipped_header k = true ->
          In (k, v) (email.fields (EmailMessageData.new_msg m)))
    /\ (forall e k v,
          refuses_cr_or_lf as_bytes e ->
          In (k, v) (EmailMessageData.message_headers m) ->
          EmailMessageData.skipped_header k = false ->
          has_cr_or_lf v = true ->
          EmailMessageData.to_smtp_message as_bytes formatdate make_msgid m = Raise e).
Proof.
  intros as_bytes formatdate make_msgid m.
  assert (Hkept : forall k v,
             In (k, v) (EmailMessageData.message_headers m) ->
             EmailMessageData.skipped_header k = false ->
             In (k, v) (email.fields (EmailMessageData.build_msg formatdate make_msgid m))).
  { intros k v Hin Hk. unfold EmailMessageData.build_msg.
    do 4 apply in_fields_ensure.
    rewrite copy_headers_fields. apply in_or_app. right.
    apply filter_In. split; [exact Hin|]. cbn [fst]. rewrite Hk. reflexivity. }
  split; [exact Hkept|]. split.
  - intros k v Hin Hk. unfold EmailMessageData.build_msg in Hin.
    apply in_ensure_fields in Hin as [Hin|Hn];
      [|cbn [fst] in Hn; subst k; discriminate Hk].
    apply in_ensure_fields in Hin as [Hin|Hn];
      [|cbn [fst] in Hn; subst k; discriminate Hk].
    apply in_ensure_fields in Hin as [Hin|Hn];
      [|cbn [fst] in Hn; subst k; discriminate Hk].
    apply in_ensure_fields in Hin as [Hin|Hn];
      [|cbn [fst] in Hn; subst k; discriminate Hk].
    rewrite copy_headers_fields in Hin.
    apply in_app_or in Hin as [Hin|Hin]; [exact Hin|].
    apply filter_In in Hin as [_ Hf]. cbn [fst] in Hf. rewrite Hk in Hf. discriminate.
  - intros e k v Href Hin Hk Hv. unfold EmailMessageData.to_smtp_message.
    apply Href. apply existsb_exists. exists (k, v). split; [|exact Hv].
    apply Hkept; assumption.
Qed.

(** With the generator of [PlainMail], a line break in a [Subject] makes
    the serialization fail. *)
Example subject_with_line_break_is_refused :
  EmailMessageData.to_smtp_message PlainMail.as_bytes
    "Tue, 03 Nov 2026 10:00:00 -0000" "<1@relay>" injected_subject
  = Raise PlainMail.MalformedHeader.
Proof. vm_compute. reflexivity. Qed.


(** * Further properties of the code *)

(** ** The ingress handler *)

(** X1: [handle_DATA] never raises and answers 250, 550 or 451.  Unless
    the answer is 250 the queue manager is left as it was; when it is
    250 the message parsed from the envelope passed validation and was
    handed to [enqueue]. *)
Theorem handle_DATA_reply_and_queue :
  forall (message_from_bytes : string -> email.Message)
         (decode_utf8_ignore : string -> string) (max_message_size : Z)
         (fresh_uuid : string) (now : float)
         (envelope : EmailMessageData.Envelope) (qm : QueueManager.t),
  exists reply qm',
    SMTPProxyHandler.handle_DATA message_from_bytes decode_utf8_ignore
      max_message_size fresh_uuid now envelope qm = (Ok reply, qm')
    /\ (reply = SMTPProxyHandler.reply_250
        \/ reply = SMTPProxyHandler.reply_550
        \/ reply = SMTPProxyHandler.reply_451)
    /\ (reply <> SMTPProxyHandler.reply_250 -> qm' = qm)
    /\ (reply = SMTPProxyHandler.reply_250 ->
        exists m,
          EmailMessageData.from_smtp_message message_from_bytes decode_utf8_ignore
            fresh_uuid now envelope (EmailMessageData.content envelope) = Ok m
          /\ SMTPProxyHandler._validate_message max_message_size m = true
          /\ qm' = snd (QueueManager.enqueue m qm)).
Proof.
  intros mfb dec mx u n env qm.
  pose proof (handle_DATA_cases mfb dec mx u n env qm) as H.
  destruct (EmailMessageData.from_smtp_message mfb dec u n env _) as [m|e] eqn:Hp.
  - destruct (SMTPProxyHandler._validate_message mx m) eqn:Hv.
    + eexists; eexists. split; [exact H|].
      split; [left; reflexivity|]. split; [intros Hne; contradiction|].
      intros _. exists m. repeat split. exact Hv.
    + eexists; eexists. split; [exact H|].
      split; [right; left; reflexivity|]. split; [reflexivity|].
      intros Hr. discriminate Hr.
  - eexists; eexists. split; [exact H|].
    split; [right; right; reflexivity|]. split; [reflexivity|].
    intros Hr. discriminate Hr.
Qed.

(** ** Parsing the DATA block *)

Section DictFacts.

Variable V : Type.

Lemma dict_get_set_same (d : list (string * V)) (k : string) (v : V) :
  dict_get (dict_set d k v) k = Some v.
Proof.
  induction d as [|[k' v'] d IH]; cbn [dict_set dict_get].
  - rewrite String.eqb_refl. reflexivity.
  - destruct (String.eqb k' k) eqn:E; cbn [dict_get]; rewrite E; [reflexivity|exact IH].
Qed.

Lemma dict_get_set_other (d : list (string * V)) (k k' : string) (v : V) :
  k' <> k -> dict_get (dict_set d k v) k' = dict_get d k'.
Proof.
  intros Hne. induction d as [|[k0 v0] d IH]; cbn [dict_set dict_get].
  - destruct (String.eqb_spec k k'); [congruence|reflexivity].
  - destruct (String.eqb_spec k0 k) as [->|Hk]; cbn [dict_get].
    + destruct (String.eqb_spec k k'); [congruence|reflexivity].
    + destruct (String.eqb k0 k'); [reflexivity|exact IH].
Qed.

Lemma dict_set_keys (d : list (string * V)) (k : string) (v : V) :
  map fst (dict_set d k v)
  = if existsb (String.eqb k) (map fst d) then map fst d else map fst d ++ [k].
Proof.
  induction d as [|[k0 v0] d IH]; cbn [dict_set map existsb fst app]; [reflexivity|].
  rewrite (String.eqb_sym k k0).
  destruct (String.eqb_spec k0 k) as [->|Hk]; cbn [map fst orb]; [reflexivity|].
  rewrite IH. destruct (existsb (String.eqb k) (map fst d)); reflexivity.
Qed.

Lemma existsb_eqb_In (k : string) (l : list string) :
  existsb (String.eqb k) l = true <-> In k l.
Proof.
  rewrite existsb_exists. split.
  - intros (x & Hin & Heq). apply String.eqb_eq in Heq. subst. exact Hin.
  - intros Hin. exists k. split; [exact Hin|apply String.eqb_refl].
Qed.

Lemma dict_set_keys_NoDup (d : list (string * V)) (k : string) (v : V) :
  NoDup (map fst d) -> NoDup (map fst (dict_set d k v)).
Proof.
  intros Hnd. rewrite dict_set_keys.
  destruct (existsb (String.eqb k) (map fst d)) eqn:E; [exact Hnd|].
  apply NoDup_snoc; [exact Hnd|].
  intros Hin. apply existsb_eqb_In in Hin. congruence.
Qed.

Lemma in_dict_set_keys (d : list (string * V)) (k k' : string) (v : V) :
  In k' (map fst (dict_set d k v)) <-> k' = k \/ In k' (map fst d).
Proof.
  rewrite dict_set_keys.
  destruct (existsb (String.eqb k) (map fst d)) eqn:E.
  - apply existsb_eqb_In in E. split; [intros H; right; exact H|].
    intros [->|H]; assumption.
  - rewrite in_app_iff. cbn [In]. split.
    + intros [H|[H|[]]]; [right; exact H|left; symmetry; exact H].
    + intros [->|H]; [right; left; reflexivity|left; exact H].
Qed.

Variable f : string -> V.

(** The loop [for name in names: d[name] = f(name)]. *)
Lemma fill_dict (names : list string) :
  forall d : list (string * V),
    NoDup (map fst d) ->
    let d' := fold_left (fun d name => dict_set d name (f name)) names d in
    NoDup (map fst d')
    /\ (forall k, In k (map fst d') <-> In k names \/ In k (map fst d))
    /\ (forall k, In k names -> dict_get d' k = Some (f k))
    /\ (forall k, ~ In k names -> dict_get d' k = dict_get d k).
Proof.
  induction names as [|name names IH]; intros d Hnd; cbn [fold_left].
  - split; [exact Hnd|]. split; [intros k; cbn [In]; tauto|].
    split; [intros k []|reflexivity].
  - destruct (IH (dict_set d name (f name)) (dict_set_keys_NoDup d name (f name) Hnd))
      as (H1 & H2 & H3 & H4).
    split; [exact H1|]. split; [|split].
    + intros k. rewrite H2, in_dict_set_keys. cbn [In].
      split; [intros [H|[H|H]]|intros [[H|H]|H]]; auto.
    + intros k [->|Hin].
      * destruct (in_dec string_dec k names) as [Hk|Hk]; [apply H3; exact Hk|].
        rewrite (H4 k Hk). apply dict_get_set_same.
      * apply H3. exact Hin.
    + intros k Hnot. cbn [In] in Hnot.
      rewrite H4 by tauto. apply dict_get_set_other. intros ->. tauto.
Qed.

End DictFacts.

Lemma first_field_of_key (hs : list (string * string)) (k : string) :
  In k (map fst hs) -> exists v, email.first_field hs k = Some v.
Proof.
  induction hs as [|[k0 v0] hs IH]; intros Hin; [destruct Hin|].
  cbn [email.first_field]. destruct (String.eqb (lower k0) (lower k)) eqn:E.
  - eexists; reflexivity.
  - destruct Hin as [Heq|Hin]; [|exact (IH Hin)].
    cbn [fst] in Heq. subst k0. rewrite String.eqb_refl in E. discriminate.
Qed.

(** X2: the headers that [from_smtp_message] collects.  Every header name
    of the parsed message becomes a key, once; the value kept under a
    name is the value of the first field of that name, compared without
    case, which is what [message[name]] returns.  Of several fields with
    one name only the first value survives. *)
Theorem collect_headers_first_value :
  forall (message : email.Message),
    NoDup (map fst (EmailMessageData.collect_headers message))
    /\ (forall k, In k (map fst (EmailMessageData.collect_headers message))
                  <-> In k (email.keys message))
    /\ (forall k, In k (email.keys message) ->
                  dict_get (EmailMessageData.collect_headers message) k
                  = email.getitem message k).
Proof.
  intros message. unfold EmailMessageData.collect_headers.
  destruct (fill_dict string
              (fun name => match email.getitem message name with
                           | Some v => v
                           | None => EmptyString
                           end)
              (email.keys message) [] (NoDup_nil _)) as (H1 & H2 & H3 & _).
  split; [exact H1|]. split.
  - intros k. rewrite H2. cbn [map In]. tauto.
  - intros k Hin. rewrite (H3 k Hin).
    destruct (first_field_of_key (email.headers_of message) k Hin) as (v & Hv).
    unfold email.getitem. rewrite Hv. reflexivity.
Qed.

Lemma find_over_app {A : Type} (f : A -> bool) (l1 l2 : list A) :
  find f (l1 ++ l2) = match find f l1 with Some x => Some x | None => find f l2 end.
Proof.
  induction l1 as [|x l1 IH]; cbn [app find]; [reflexivity|].
  destruct (f x); [reflexivity|exact IH].
Qed.

Lemma walk_loop_singles (decode : string -> string) (parts : list email.Message) :
  forall dflt : string,
    Forall (fun p => email.is_multipart p = false) (before_plain parts) ->
    Forall (fun p => email.is_multipart p = false) (filter is_plain parts) ->
    EmailMessageData.walk_loop decode parts dflt
    = Ok (match find is_plain parts with
          | Some p => payload_text decode p
          | None =>
              match find is_html (rev (before_plain parts)) with
              | Some p => payload_text decode p
              | None => dflt
              end
          end).
Proof.
  induction parts as [|p parts IH]; intros dflt Hb Hp; [reflexivity|].
  cbn [EmailMessageData.walk_loop find before_plain filter] in *.
  unfold is_plain at 1 in Hb. unfold is_plain at 1 in Hp.
  unfold is_plain at 1. unfold is_plain at 2.
  destruct (String.eqb (email.get_content_type p) "text/plain") eqn:Epl.
  - inversion Hp as [|x l Hs _]. subst.
    unfold EmailMessageData.decoded_text, payload_text.
    destruct p as [h c b|h c ps]; [reflexivity|discriminate Hs].
  - inversion Hb as [|x l Hs Hb']. subst.
    destruct (String.eqb (email.get_content_type p) "text/html") eqn:Eh.
    + unfold EmailMessageData.decoded_text.
      destruct p as [h c b|h c ps]; [|discriminate Hs].
      cbn [email.get_payload_decoded]. rewrite (IH _ Hb' Hp).
      destruct (find is_plain parts); [reflexivity|].
      cbn [rev]. rewrite find_over_app.
      destruct (find is_html (rev (before_plain parts))); [reflexivity|].
      cbn [find]. unfold is_html at 1. cbn [email.get_content_type] in *. rewrite Eh.
      reflexivity.
    + rewrite (IH _ Hb' Hp).
      destruct (find is_plain parts); [reflexivity|].
      cbn [rev]. rewrite find_over_app.
      destruct (find is_html (rev (before_plain parts))); [reflexivity|].
      cbn [find]. unfold is_html at 1. rewrite Eh. reflexivity.
Qed.

Lemma flat_map_walk_singles (parts : list email.Message) :
  Forall (fun p => email.is_multipart p = false) parts ->
  flat_map email.walk parts = parts.
Proof.
  induction 1 as [|p parts Hp _ IH]; [reflexivity|].
  cbn [flat_map]. rewrite IH.
  destruct p as [h c b|h c ps]; [reflexivity|discriminate Hp].
Qed.

Lemma before_plain_all (parts : list email.Message) :
  find is_plain parts = None -> before_plain parts = parts.
Proof.
  induction parts as [|p parts IH]; cbn [find before_plain]; [reflexivity|].
  destruct (is_plain p); [discriminate|]. intros H. rewrite (IH H). reflexivity.
Qed.

Lemma Forall_before_plain (P : email.Message -> Prop) (parts : list email.Message) :
  Forall P parts -> Forall P (before_plain parts).
Proof.
  induction 1 as [|p parts Hp _ IH]; cbn [before_plain]; [constructor|].
  destruct (is_plain p); constructor; assumption.
Qed.

Lemma Forall_filter {A : Type} (P : A -> Prop) (f : A -> bool) (l : list A) :
  Forall P l -> Forall P (filter f l).
Proof.
  induction 1 as [|x l Hx _ IH]; cbn [filter]; [constructor|].
  destruct (f x); [constructor|]; assumption.
Qed.

(** X3: the body that [from_smtp_message] takes from a multipart message
    whose parts are all single parts: the text of the first [text/plain]
    part when there is one, whatever comes before it; otherwise the text
    of the last [text/html] part; otherwise the empty string. *)
Theorem multipart_body_is_first_plain_else_last_html :
  forall (message_from_bytes : string -> email.Message)
         (decode_utf8_ignore : string -> string)
         (fresh_uuid : string) (now : float) (envelope : EmailMessageData.Envelope)
         (headers : list (string * string)) (content_type : string)
         (parts : list email.Message),
    message_from_bytes (EmailMessageData.content envelope)
      = email.Multipart headers content_type parts ->
    content_type <> "text/plain"%string ->
    content_type <> "text/html"%string ->
    Forall (fun p => email.is_multipart p = false) parts ->
    exists m,
      EmailMessageData.from_smtp_message message_from_bytes decode_utf8_ignore
        fresh_uuid now envelope (EmailMessageData.content envelope) = Ok m
      /\ EmailMessageData.message_body m
         = first_plain_else_last_html decode_utf8_ignore parts EmptyString.
Proof.
  intros mfb dec u n env hs c parts Hparse Hnp Hnh Hsingle.
  unfold EmailMessageData.from_smtp_message. rewrite Hparse.
  cbn [email.is_multipart email.walk EmailMessageData.walk_loop email.get_content_type].
  destruct (String.eqb_spec c "text/plain") as [E|_]; [contradiction|].
  destruct (String.eqb_spec c "text/html") as [E|_]; [contradiction|].
  rewrite (flat_map_walk_singles parts Hsingle).
  rewrite (walk_loop_singles dec parts EmptyString
             (Forall_before_plain _ parts Hsingle) (Forall_filter _ _ parts Hsingle)).
  eexists. split; [reflexivity|].
  cbn [EmailMessageData.message_body]. unfold first_plain_else_last_html.
  destruct (find is_plain parts) eqn:E; [reflexivity|].
  rewrite (before_plain_all parts E). reflexivity.
Qed.

Lemma multipart_body_is_first_plain_else_last_html_witness :
  exists m,
    EmailMessageData.from_smtp_message (fun _ => three_part_message) (fun b => b)
      "uuid-6" 100%Q hello_envelope (EmailMessageData.content hello_envelope) = Ok m
    /\ EmailMessageData.message_body m
       = first_plain_else_last_html (fun b => b)
           [ email.Single [] "text/html" "<p>one</p>";
             email.Single [] "text/plain" "two";
             email.Single [] "text/html" "<p>three</p>" ] EmptyString.
Proof.
  apply (multipart_body_is_first_plain_else_last_html
           (fun _ => three_part_message) (fun b => b) "uuid-6" 100%Q hello_envelope
           [("Content-Type"%string, "multipart/alternative"%string)]
           "multipart/alternative").
  - reflexivity.
  - discriminate.
  - discriminate.
  - repeat constructor.
Defined.

(** ** Serialization *)

Lemma contains_ensure_same (name value : string) (msg : email.MIME) :
  email.contains (EmailMessageData.ensure name value msg) name = true.
Proof.
  unfold EmailMessageData.ensure.
  destruct (email.contains msg name) eqn:E; cbn [negb]; [exact E|].
  unfold email.contains, email.setitem. cbn [email.fields].
  rewrite existsb_app. cbn [existsb fst]. rewrite String.eqb_refl.
  rewrite orb_true_r. reflexivity.
Qed.

Lemma contains_ensure_other (name value name' : string) (msg : email.MIME) :
  email.contains msg name' = true ->
  email.contains (EmailMessageData.ensure name value msg) name' = true.
Proof.
  intros H. unfold EmailMessageData.ensure.
  destruct (email.contains msg name); cbn [negb]; [exact H|].
  unfold email.contains, email.setitem in *. cbn [email.fields].
  rewrite existsb_app, H. reflexivity.
Qed.

Lemma ensure_fields_tail (name value : string) (msg : email.MIME) :
  exists tail,
    email.fields (EmailMessageData.ensure name value msg) = email.fields msg ++ tail
    /\ (tail = [] \/ tail = [(name, value)]).
Proof.
  destruct (ensure_fields name value msg) as [H|H]; rewrite H.
  - exists []. rewrite app_nil_r. split; [reflexivity|left; reflexivity].
  - exists [(name, value)]. split; [reflexivity|right; reflexivity].
Qed.

(** X4: the message object that [to_smtp_message] hands to the generator
    always has a [From], a [To], a [Date] and a [Message-ID] field.  Its
    fields are the constructor's, then the copied headers in the order
    of the message, then the fields added for the names that were
    missing; a header of the message is never replaced. *)
Theorem built_message_has_required_fields :
  forall (formatdate make_msgid : string) (m : EmailMessageData.t),
    (forall name, In name ensured_names ->
       email.contains (EmailMessageData.build_msg formatdate make_msgid m) name = true)
    /\ exists added,
         email.fields (EmailMessageData.build_msg formatdate make_msgid m)
         = email.fields (EmailMessageData.new_msg m)
           ++ filter (fun kv => negb (EmailMessageData.skipped_header (fst kv)))
                (EmailMessageData.message_headers m)
           ++ added
         /\ Forall (fun kv => In (fst kv) ensured_names) added.
Proof.
  intros fd mid m. split.
  - intros name Hin. unfold EmailMessageData.build_msg. cbn zeta.
    destruct Hin as [<-|[<-|[<-|[<-|[]]]]].
    + do 3 apply contains_ensure_other. apply contains_ensure_same.
    + do 2 apply contains_ensure_other. apply contains_ensure_same.
    + apply contains_ensure_other. apply contains_ensure_same.
    + apply contains_ensure_same.
  - unfold EmailMessageData.build_msg. cbn zeta.
    set (m0 := EmailMessageData.copy_headers (EmailMessageData.message_headers m)
                 (EmailMessageData.new_msg m)).
    set (m1 := EmailMessageData.ensure "From" (EmailMessageData.from_addr m) m0).
    set (m2 := EmailMessageData.ensure "To"
                 (join ", " (EmailMessageData.to_addrs m)) m1).
    set (m3 := EmailMessageData.ensure "Date" fd m2).
    destruct (ensure_fields_tail "Message-ID" mid m3) as (t4 & H4 & Ht4).
    destruct (ensure_fields_tail "Date" fd m2) as (t3 & H3 & Ht3).
    destruct (ensure_fields_tail "To" (join ", " (EmailMessageData.to_addrs m)) m1)
      as (t2 & H2 & Ht2).
    destruct (ensure_fields_tail "From" (EmailMessageData.from_addr m) m0)
      as (t1 & H1 & Ht1).
    fold m1 in H1. fold m2 in H2. fold m3 in H3.
    exists (t1 ++ t2 ++ t3 ++ t4). split.
    + rewrite H4, H3, H2, H1. unfold m0. rewrite copy_headers_fields.
      rewrite <- !app_assoc. reflexivity.
    + repeat (apply Forall_app; split).
      * destruct Ht1 as [->| ->]; [constructor|constructor; [cbn; tauto|constructor]].
      * destruct Ht2 as [->| ->]; [constructor|constructor; [cbn; tauto|constructor]].
      * destruct Ht3 as [->| ->]; [constructor|constructor; [cbn; tauto|constructor]].
      * destruct Ht4 as [->| ->]; [constructor|constructor; [cbn; tauto|constructor]].
Qed.

(** ** The upstream client, the retry manager and the worker *)

(** X5: [send_email] stores a client before it connects and never
    connects again.  After any call the sender has a client, also when
    the connection attempt raised; and a sender that has a client does
    not look at what connecting would do. *)
Theorem send_email_connects_once :
  forall (as_bytes : email.MIME -> result string) (io : Upstream.io)
         (m : EmailMessageData.t) (sender : EmailSender.t),
    EmailSender.smtp_client (snd (EmailSender.send_email as_bytes io m sender)) = Some tt
    /\ (forall (c : result unit),
          EmailSender.smtp_client sender = Some tt ->
          EmailSender.send_email as_bytes
            {| Upstream.connect_outcome := c;
               Upstream.sendmail_outcome := Upstream.sendmail_outcome io;
               Upstream.formatdate := Upstream.formatdate io;
               Upstream.make_msgid := Upstream.make_msgid io;
               Upstream.time_time := Upstream.time_time io |} m sender
          = EmailSender.send_email as_bytes io m sender).
Proof.
  intros as_bytes io m sender. split.
  - unfold EmailSender.send_email, try_except, bind, get, ret.
    destruct sender as [[[]|]]; cbn [EmailSender.smtp_client].
    + destruct (EmailMessageData.to_smtp_message as_bytes _ _ m); [|reflexivity].
      destruct (Upstream.sendmail_outcome io) as [[|? ?]|?]; reflexivity.
    + unfold EmailSender.connect, try_except, bind, put, raise.
      destruct (Upstream.connect_outcome io) as [[]|?]; [|reflexivity].
      destruct (EmailMessageData.to_smtp_message as_bytes _ _ m); [|reflexivity].
      destruct (Upstream.sendmail_outcome io) as [[|? ?]|?]; reflexivity.
  - intros c Hc. unfold EmailSender.send_email, try_except, bind, get, ret.
    rewrite Hc. reflexivity.
Qed.

Section RetryFacts.

Variable as_bytes : email.MIME -> result string.
Variable config_rate_limit : RateLimitConfig.t.

(** What the loop does to the message: nothing but counting. *)
Lemma send_with_retry_keeps_message (script : list Upstream.io) :
  forall (m : EmailMessageData.t) (slept : list Z) (sender : EmailSender.t)
         (o : RetryManager.outcome),
    RetryManager.send_with_retry as_bytes config_rate_limit script m slept sender = Some o ->
    let m' := RetryManager.message_after o in
    EmailMessageData.id m' = EmailMessageData.id m
    /\ EmailMessageData.from_addr m' = EmailMessageData.from_addr m
    /\ EmailMessageData.to_addrs m' = EmailMessageData.to_addrs m
    /\ EmailMessageData.message_headers m' = EmailMessageData.message_headers m
    /\ EmailMessageData.message_body m' = EmailMessageData.message_body m
    /\ EmailMessageData.created_at m' = EmailMessageData.created_at m
    /\ EmailMessageData.status m' = EmailMessageData.status m
    /\ EmailMessageData.retry_count m <= EmailMessageData.retry_count m'
    /\ EmailMessageData.retry_count m'
       <= Z.max (EmailMessageData.retry_count m)
                (RateLimitConfig.max_retries config_rate_limit)
    /\ exists more,
         RetryManager.sleeps o = slept ++ more
         /\ Z.of_nat (List.length more)
            = EmailMessageData.retry_count m' - EmailMessageData.retry_count m.
Proof.
  induction script as [|io script IH]; intros m slept sender o H; [discriminate|].
  cbn [RetryManager.send_with_retry] in H.
  destruct (EmailSender.send_email as_bytes io m sender) as [[r|e] sender'].
  - destruct (SendingResult.success r).
    + injection H as <-. cbn [RetryManager.message_after RetryManager.sleeps].
      repeat split; try reflexivity; try lia.
      exists []. rewrite app_nil_r. split; [reflexivity|cbn; lia].
    + unfold EmailMessageData.can_retry in H.
      destruct (Z.ltb_spec (EmailMessageData.retry_count m)
                  (RateLimitConfig.max_retries config_rate_limit)) as [Hlt|Hge];
        cbn [negb] in H.
      * specialize (IH _ _ _ _ H). cbn zeta in IH.
        cbn [EmailMessageData.increment_retry EmailMessageData.id
             EmailMessageData.from_addr EmailMessageData.to_addrs
             EmailMessageData.message_headers EmailMessageData.message_body
             EmailMessageData.created_at EmailMessageData.status
             EmailMessageData.retry_count] in IH.
        destruct IH as (H1 & H2 & H3 & H4 & H5 & H6 & H7 & H8 & H9 & more & Hm & Hl).
        repeat split; try assumption; try lia.
        exists ((RateLimitConfig.retry_delay config_rate_limit
                 * 2 ^ EmailMessageData.retry_count m) :: more).
        split; [rewrite Hm, <- app_assoc; reflexivity|].
        cbn [List.length]. lia.
      * injection H as <-. cbn [RetryManager.message_after RetryManager.sleeps].
        repeat split; try reflexivity; try lia.
        exists []. rewrite app_nil_r. split; [reflexivity|cbn; lia].
  - injection H as <-. cbn [RetryManager.message_after RetryManager.sleeps].
    repeat split; try reflexivity; try lia.
    exists []. rewrite app_nil_r. split; [reflexivity|cbn; lia].
Qed.

Lemma sum_app (a b : list Z) :
  fold_right Z.add 0 (a ++ b) = fold_right Z.add 0 a + fold_right Z.add 0 b.
Proof. induction a as [|x a IH]; cbn [app fold_right]; [reflexivity|]. rewrite IH. lia. Qed.

(** An upstream that refuses every attempt. *)
Lemma send_with_retry_all_refused (k : nat) :
  forall (script : list Upstream.io) (m : EmailMessageData.t) (slept : list Z)
         (sender : EmailSender.t),
    EmailSender.smtp_client sender = Some tt ->
    Forall (fun io => exists e, Upstream.sendmail_outcome io = Raise e) script ->
    0 <= EmailMessageData.retry_count m ->
    EmailMessageData.retry_count m + Z.of_nat k
      = RateLimitConfig.max_retries config_rate_limit ->
    (k < List.length script)%nat ->
    exists o r,
      RetryManager.send_with_retry as_bytes config_rate_limit script m slept sender = Some o
      /\ RetryManager.returned o = Ok r
      /\ SendingResult.success r = false
      /\ EmailMessageData.retry_count (RetryManager.message_after o)
         = RateLimitConfig.max_retries config_rate_limit
      /\ RetryManager.script_left o = skipn (S k) script
      /\ fold_right Z.add 0 (RetryManager.sleeps o)
         = fold_right Z.add 0 slept
           + RateLimitConfig.retry_delay config_rate_limit
             * (2 ^ RateLimitConfig.max_retries config_rate_limit
                - 2 ^ EmailMessageData.retry_count m).
Proof.
  induction k as [|k IH]; intros script m slept sender Hc Hall Hrc Hmax Hlen.
  - destruct script as [|io script]; [cbn in Hlen; lia|].
    inversion Hall as [|x l [e He] _]. subst.
    destruct (send_email_sendmail_raises as_bytes io m sender e Hc He) as (r & Hs & Hf).
    rewrite (send_with_retry_gives_up as_bytes config_rate_limit io script m slept
               sender sender r Hs Hf) by lia.
    eexists; eexists. split; [reflexivity|].
    cbn [RetryManager.returned RetryManager.message_after RetryManager.script_left
         RetryManager.sleeps skipn].
    repeat split; try assumption; try lia.
    replace (RateLimitConfig.max_retries config_rate_limit)
      with (EmailMessageData.retry_count m) by lia.
    lia.
  - destruct script as [|io script]; [cbn in Hlen; lia|].
    inversion Hall as [|x l [e He] Hall']. subst.
    destruct (send_email_sendmail_raises as_bytes io m sender e Hc He) as (r & Hs & Hf).
    rewrite (send_with_retry_retries as_bytes config_rate_limit io script m slept
               sender sender r Hs Hf) by lia.
    destruct (IH script (EmailMessageData.increment_retry (Upstream.time_time io) m)
                (slept ++ [RateLimitConfig.retry_delay config_rate_limit
                           * 2 ^ EmailMessageData.retry_count m]) sender Hc Hall')
      as (o & r' & Ho & Hr & Hf' & Hrc' & Hleft & Hsum).
    + cbn [EmailMessageData.increment_retry EmailMessageData.retry_count]. lia.
    + cbn [EmailMessageData.increment_retry EmailMessageData.retry_count]. lia.
    + cbn [List.length] in Hlen. lia.
    + exists o, r'. split; [exact Ho|]. split; [exact Hr|]. split; [exact Hf'|].
      split; [exact Hrc'|]. split; [exact Hleft|].
      rewrite Hsum, sum_app.
      cbn [EmailMessageData.increment_retry EmailMessageData.retry_count fold_right].
      rewrite Z.pow_add_r by lia. lia.
Qed.

End RetryFacts.

(** X6: the retry loop changes nothing of the message but
    [retry_count] and [last_retry_at].  The count never goes down and
    never passes [max_retries] (or the count it started from, if that
    was larger), and one sleep is made per increment. *)
Theorem send_with_retry_only_counts :
  forall (as_bytes : email.MIME -> result string) (cfg : RateLimitConfig.t)
         (script : list Upstream.io) (m : EmailMessageData.t) (sender : EmailSender.t)
         (o : RetryManager.outcome),
    RetryManager.send_with_retry as_bytes cfg script m [] sender = Some o ->
    let m' := RetryManager.message_after o in
    EmailMessageData.id m' = EmailMessageData.id m
    /\ EmailMessageData.from_addr m' = EmailMessageData.from_addr m
    /\ EmailMessageData.to_addrs m' = EmailMessageData.to_addrs m
    /\ EmailMessageData.message_headers m' = EmailMessageData.message_headers m
    /\ EmailMessageData.message_body m' = EmailMessageData.message_body m
    /\ EmailMessageData.created_at m' = EmailMessageData.created_at m
    /\ EmailMessageData.status m' = EmailMessageData.status m
    /\ EmailMessageData.retry_count m <= EmailMessageData.retry_count m'
    /\ EmailMessageData.retry_count m'
       <= Z.max (EmailMessageData.retry_count m) (RateLimitConfig.max_retries cfg)
    /\ Z.of_nat (List.length (RetryManager.sleeps o))
       = EmailMessageData.retry_count m' - EmailMessageData.retry_count m.
Proof.
  intros as_bytes cfg script m sender o H.
  destruct (send_with_retry_keeps_message as_bytes cfg script m [] sender o H)
    as (H1 & H2 & H3 & H4 & H5 & H6 & H7 & H8 & H9 & more & Hm & Hl).
  cbn zeta. repeat split; try assumption.
  rewrite Hm. cbn [app]. exact Hl.
Qed.

Lemma send_with_retry_only_counts_witness :
  RetryManager.send_with_retry PlainMail.as_bytes scenario_config
    [answers_421 101%Q; answers_421 102%Q; accepts 103%Q] scenario_message []
    {| EmailSender.smtp_client := Some tt |}
  = Some retried_twice_outcome
  /\ EmailMessageData.message_headers (RetryManager.message_after retried_twice_outcome)
     = EmailMessageData.message_headers scenario_message
  /\ EmailMessageData.retry_count scenario_message
     <= EmailMessageData.retry_count (RetryManager.message_after retried_twice_outcome)
  /\ EmailMessageData.retry_count (RetryManager.message_after retried_twice_outcome)
     <= Z.max (EmailMessageData.retry_count scenario_message)
              (RateLimitConfig.max_retries scenario_config)
  /\ Z.of_nat (List.length (RetryManager.sleeps retried_twice_outcome))
     = EmailMessageData.retry_count (RetryManager.message_after retried_twice_outcome)
       - EmailMessageData.retry_count scenario_message.
Proof.
  split; [reflexivity|].
  pose proof (send_with_retry_only_counts PlainMail.as_bytes scenario_config
                [answers_421 101%Q; answers_421 102%Q; accepts 103%Q] scenario_message
                {| EmailSender.smtp_client := Some tt |} retried_twice_outcome eq_refl)
    as (_ & _ & _ & H4 & _ & _ & _ & H8 & H9 & H10).
  split; [exact H4|]. split; [exact H8|]. split; [exact H9|exact H10].
Defined.

(** X7: the retry loop returns.  A script that holds one entry more than
    the retries left is never used up: at most
    [max_retries - retry_count + 1] sends are made. *)
Theorem send_with_retry_bounded_attempts :
  forall (as_bytes : email.MIME -> result string) (cfg : RateLimitConfig.t)
         (script : list Upstream.io) (m : EmailMessageData.t) (sender : EmailSender.t),
    (Z.to_nat (RateLimitConfig.max_retries cfg - EmailMessageData.retry_count m)
     < List.length script)%nat ->
    exists o,
      RetryManager.send_with_retry as_bytes cfg script m [] sender = Some o
      /\ (List.length script - List.length (RetryManager.script_left o)
          <= S (Z.to_nat (RateLimitConfig.max_retries cfg
                          - EmailMessageData.retry_count m)))%nat.
Proof.
  intros as_bytes cfg script.
  assert (G : forall m slept sender,
             (Z.to_nat (RateLimitConfig.max_retries cfg - EmailMessageData.retry_count m)
              < List.length script)%nat ->
             exists o,
               RetryManager.send_with_retry as_bytes cfg script m slept sender = Some o
               /\ (List.length script - List.length (RetryManager.script_left o)
                   <= S (Z.to_nat (RateLimitConfig.max_retries cfg
                                   - EmailMessageData.retry_count m)))%nat).
  { induction script as [|io script IH]; intros m slept sender Hlen.
    - cbn in Hlen. lia.
    - destruct (send_email_cases as_bytes io m sender) as (r & sender' & Hsend & _).
      cbn [RetryManager.send_with_retry]. rewrite Hsend.
      destruct (SendingResult.success r).
      + eexists. split; [reflexivity|]. cbn [RetryManager.script_left List.length]. lia.
      + unfold EmailMessageData.can_retry.
        destruct (Z.ltb_spec (EmailMessageData.retry_count m)
                    (RateLimitConfig.max_retries cfg)) as [Hlt|Hge]; cbn [negb].
        * destruct (IH (EmailMessageData.increment_retry (Upstream.time_time io) m)
                      (slept ++ [EmailMessageData.get_retry_delay m
                                   (RateLimitConfig.retry_delay cfg)]) sender')
            as (o & Ho & Hb).
          { cbn [EmailMessageData.increment_retry EmailMessageData.retry_count].
            cbn [List.length] in Hlen. lia. }
          exists o. split; [exact Ho|].
          cbn [EmailMessageData.increment_retry EmailMessageData.retry_count] in Hb.
          cbn [List.length]. lia.
        * eexists. split; [reflexivity|].
          cbn [RetryManager.script_left List.length]. lia. }
  intros m sender. apply G.
Qed.

Lemma send_with_retry_bounded_attempts_witness :
  exists o,
    RetryManager.send_with_retry PlainMail.as_bytes scenario_config
      [answers_421 101%Q; answers_421 102%Q; answers_421 103%Q; answers_421 104%Q]
      scenario_message [] {| EmailSender.smtp_client := Some tt |} = Some o
    /\ (List.length [answers_421 101%Q; answers_421 102%Q; answers_421 103%Q;
                     answers_421 104%Q]
        - List.length (RetryManager.script_left o)
        <= S (Z.to_nat (RateLimitConfig.max_retries scenario_config
                        - EmailMessageData.retry_count scenario_message)))%nat.
Proof.
  apply (send_with_retry_bounded_attempts PlainMail.as_bytes scenario_config
           [answers_421 101%Q; answers_421 102%Q; answers_421 103%Q; answers_421 104%Q]
           scenario_message {| EmailSender.smtp_client := Some tt |}).
  vm_compute. lia.
Defined.

(** X8: an upstream that refuses every attempt.  A message that starts
    with [0 <= retry_count <= max_retries] is sent
    [max_retries - retry_count + 1] times, ends with
    [retry_count = max_retries] and a failing result, and the sleeps in
    between add up to
    [base_delay * (2 ^ max_retries - 2 ^ retry_count)]. *)
Theorem send_with_retry_exhausts_budget :
  forall (as_bytes : email.MIME -> result string) (cfg : RateLimitConfig.t)
         (script : list Upstream.io) (m : EmailMessageData.t) (sender : EmailSender.t),
    EmailSender.smtp_client sender = Some tt ->
    Forall (fun io => exists e, Upstream.sendmail_outcome io = Raise e) script ->
    0 <= EmailMessageData.retry_count m <= RateLimitConfig.max_retries cfg ->
    (Z.to_nat (RateLimitConfig.max_retries cfg - EmailMessageData.retry_count m)
     < List.length script)%nat ->
    exists o r,
      RetryManager.send_with_retry as_bytes cfg script m [] sender = Some o
      /\ RetryManager.returned o = Ok r
      /\ SendingResult.success r = false
      /\ EmailMessageData.retry_count (RetryManager.message_after o)
         = RateLimitConfig.max_retries cfg
      /\ RetryManager.script_left o
         = skipn (S (Z.to_nat (RateLimitConfig.max_retries cfg
                               - EmailMessageData.retry_count m))) script
      /\ fold_right Z.add 0 (RetryManager.sleeps o)
         = RateLimitConfig.retry_delay cfg
           * (2 ^ RateLimitConfig.max_retries cfg - 2 ^ EmailMessageData.retry_count m).
Proof.
  intros as_bytes cfg script m sender Hc Hall Hrc Hlen.
  destruct (send_with_retry_all_refused as_bytes cfg
              (Z.to_nat (RateLimitConfig.max_retries cfg - EmailMessageData.retry_count m))
              script m [] sender Hc Hall) as (o & r & H1 & H2 & H3 & H4 & H5 & H6);
    try lia.
  exists o, r. repeat split; assumption.
Qed.

Lemma send_with_retry_exhausts_budget_witness :
  exists o r,
    RetryManager.send_with_retry PlainMail.as_bytes scenario_config
      [answers_421 101%Q; answers_421 102%Q; answers_421 103%Q; answers_421 104%Q]
      scenario_message [] {| EmailSender.smtp_client := Some tt |} = Some o
    /\ RetryManager.returned o = Ok r
    /\ SendingResult.success r = false
    /\ EmailMessageData.retry_count (RetryManager.message_after o)
       = RateLimitConfig.max_retries scenario_config
    /\ RetryManager.script_left o
       = skipn (S (Z.to_nat (RateLimitConfig.max_retries scenario_config
                             - EmailMessageData.retry_count scenario_message)))
           [answers_421 101%Q; answers_421 102%Q; answers_421 103%Q; answers_421 104%Q]
    /\ fold_right Z.add 0 (RetryManager.sleeps o)
       = RateLimitConfig.retry_delay scenario_config
         * (2 ^ RateLimitConfig.max_retries scenario_config
            - 2 ^ EmailMessageData.retry_count scenario_message).
Proof.
  apply (send_with_retry_exhausts_budget PlainMail.as_bytes scenario_config
           [answers_421 101%Q; answers_421 102%Q; answers_421 103%Q; answers_421 104%Q]
           scenario_message {| EmailSender.smtp_client := Some tt |}).
  - reflexivity.
  - repeat constructor; eexists; reflexivity.
  - vm_compute. split; discriminate.
  - vm_compute. lia.
Defined.

Section WorkerOnBackends.

Variable as_bytes : email.MIME -> result string.
Variable config_rate_limit : RateLimitConfig.t.

(** X9: on the SQLite manager the worker settles every message it
    processes, and in one of two ways only: [sent] when the retry-wrapped
    send succeeded, [failed] when it did not.  The branch that enqueues
    the message again is never taken there, because the retry loop
    returns a failure only once the budget is used up. *)
Theorem process_message_settles_on_sqlite :
  forall (script : list Upstream.io) (m : EmailMessageData.t) (sender : EmailSender.t)
         (d : SQLite.db) (o : RetryManager.outcome),
    RetryManager.send_with_retry as_bytes config_rate_limit script m [] sender = Some o ->
    exists r,
      RetryManager.returned o = Ok r
      /\ EmailWorker._process_message as_bytes config_rate_limit script m sender
           (QueueManager.SQLiteQM d)
         = Some (QueueManager.SQLiteQM
                   (snd (SQLiteQueueManager.mark_completed (EmailMessageData.id m)
                           (if SendingResult.success r then "sent" else "failed") d)),
                 o).
Proof.
  intros script m sender d o Hsend.
  destruct (process_message_on_sqlite as_bytes config_rate_limit script m sender d o Hsend)
    as (r & Hr & Hp).
  destruct (send_with_retry_result as_bytes config_rate_limit script m [] sender o Hsend)
    as (r' & Hr' & Hdead).
  rewrite Hr in Hr'. injection Hr' as <-.
  destruct (send_with_retry_keeps_message as_bytes config_rate_limit script m [] sender o
              Hsend) as (Hid & _).
  exists r. split; [exact Hr|]. rewrite Hp. cbn zeta. rewrite Hid.
  destruct (SendingResult.success r); [reflexivity|].
  rewrite (Hdead eq_refl). reflexivity.
Qed.

(** X10: on the Redis manager the worker settles nothing.  Whatever the
    send returned, the message is handed to [enqueue] once more with
    status [pending] and the processing list is left as it was. *)
Theorem process_message_never_settles_on_redis :
  forall (script : list Upstream.io) (m : EmailMessageData.t) (sender : EmailSender.t)
         (s : Redis.store) (o : RetryManager.outcome),
    RetryManager.send_with_retry as_bytes config_rate_limit script m [] sender = Some o ->
    exists s',
      EmailWorker._process_message as_bytes config_rate_limit script m sender
        (QueueManager.RedisQM s) = Some (QueueManager.RedisQM s', o)
      /\ Redis.processing s' = Redis.processing s
      /\ Redis.queue s'
         = if Redis.up s
           then EmailMessageData.to_dict
                  (EmailMessageData.set_status "pending" (RetryManager.message_after o))
                :: Redis.queue s
           else Redis.queue s.
Proof.
  intros script m sender s o Hsend.
  rewrite (process_message_on_redis as_bytes config_rate_limit script m sender s o Hsend).
  eexists. split; [reflexivity|].
  unfold RedisQueueManager.enqueue, try_except, bind, ret, Redis.lpush, Redis.command.
  destruct (Redis.up s); split; reflexivity.
Qed.

End WorkerOnBackends.

Lemma process_message_settles_on_sqlite_witness :
  exists r,
    Ok (EmailSender.succeeded hello_message) = Ok r
    /\ EmailWorker._process_message PlainMail.as_bytes scenario_config [accepts 101%Q]
         hello_message {| EmailSender.smtp_client := Some tt |}
         (QueueManager.SQLiteQM two_row_table)
       = Some (QueueManager.SQLiteQM
                 (snd (SQLiteQueueManager.mark_completed (EmailMessageData.id hello_message)
                         (if SendingResult.success r then "sent" else "failed")
                         two_row_table)),
               {| RetryManager.returned := Ok (EmailSender.succeeded hello_message);
                  RetryManager.message_after := hello_message;
                  RetryManager.sleeps := [];
                  RetryManager.sender_after := {| EmailSender.smtp_client := Some tt |};
                  RetryManager.script_left := [] |}).
Proof.
  exact (process_message_settles_on_sqlite PlainMail.as_bytes scenario_config
           [accepts 101%Q] hello_message {| EmailSender.smtp_client := Some tt |}
           two_row_table _ eq_refl).
Defined.

Lemma process_message_never_settles_on_redis_witness :
  exists s',
    EmailWorker._process_message PlainMail.as_bytes scenario_config [accepts 101%Q]
      hello_message {| EmailSender.smtp_client := Some tt |} redis_in_flight
    = Some (QueueManager.RedisQM s',
            {| RetryManager.returned := Ok (EmailSender.succeeded hello_message);
               RetryManager.message_after := hello_message;
               RetryManager.sleeps := [];
               RetryManager.sender_after := {| EmailSender.smtp_client := Some tt |};
               RetryManager.script_left := [] |})
    /\ Redis.processing s' = [EmailMessageData.to_dict hello_message]
    /\ Redis.queue s'
       = [EmailMessageData.to_dict (EmailMessageData.set_status "pending" hello_message)].
Proof.
  exact (process_message_never_settles_on_redis PlainMail.as_bytes scenario_config
           [accepts 101%Q] hello_message {| EmailSender.smtp_client := Some tt |}
           {| Redis.queue := [];
              Redis.processing := [EmailMessageData.to_dict hello_message];
              Redis.up := true |} _ eq_refl).
Defined.

(** ** The Redis queue manager *)

Lemma from_dict_inverts_to_dict (fresh_uuid : string) (now : float)
    (m : EmailMessageData.t) :
  EmailMessageData.from_dict fresh_uuid now (EmailMessageData.to_dict m) = m.
Proof.
  destruct m as [i f t h b c r l s].
  unfold EmailMessageData.from_dict, EmailMessageData.to_dict, dict_get_default.
  cbn [dict_get String.eqb Ascii.eqb Bool.eqb
       EmailMessageData.id EmailMessageData.from_addr EmailMessageData.to_addrs
       EmailMessageData.message_headers EmailMessageData.message_body
       EmailMessageData.created_at EmailMessageData.retry_count
       EmailMessageData.last_retry_at EmailMessageData.status
       EmailMessageData.as_str EmailMessageData.as_int EmailMessageData.as_float
       EmailMessageData.as_str_list EmailMessageData.as_str_dict].
  rewrite strs_of_map_PStr, str_items_of_map_PStr.
  reflexivity.
Qed.

Lemma pop_right_snoc (l : list pydict) (x : pydict) :
  Redis.pop_right (l ++ [x]) = Some (l, x).
Proof.
  induction l as [|y l IH]; [reflexivity|].
  cbn [app Redis.pop_right]. rewrite IH. reflexivity.
Qed.

Lemma pop_right_none (l : list pydict) :
  Redis.pop_right l = None -> l = [].
Proof.
  destruct l as [|x l]; [reflexivity|].
  cbn [Redis.pop_right]. destruct (Redis.pop_right l) as [[? ?]|]; discriminate.
Qed.

Lemma redis_enqueue_all_queue (ms : list EmailMessageData.t) :
  forall s : Redis.store,
    Redis.up s = true ->
    redis_enqueue_all ms s
    = {| Redis.queue := rev (map EmailMessageData.to_dict ms) ++ Redis.queue s;
         Redis.processing := Redis.processing s;
         Redis.up := true |}.
Proof.
  unfold redis_enqueue_all.
  induction ms as [|m ms IH]; intros s Hup; cbn [fold_left map rev app].
  - destruct s as [q p u]. cbn in Hup. subst u. reflexivity.
  - unfold RedisQueueManager.enqueue at 2. unfold try_except, bind, ret, Redis.lpush,
      Redis.command. rewrite Hup. cbn [snd].
    rewrite IH by (cbn; exact Hup).
    cbn [Redis.write Redis.read RedisQueueManager.queue_key Redis.queue Redis.processing].
    rewrite <- app_assoc. reflexivity.
Qed.

Lemma redis_drain_messages (fresh_uuid : string) (now : float)
    (ms : list EmailMessageData.t) :
  forall (older p : list pydict),
    redis_drain fresh_uuid now (List.length ms)
      {| Redis.queue := older ++ rev (map EmailMessageData.to_dict ms);
         Redis.processing := p;
         Redis.up := true |}
    = (ms, {| Redis.queue := older;
              Redis.processing := rev (map EmailMessageData.to_dict ms) ++ p;
              Redis.up := true |}).
Proof.
  induction ms as [|m ms IH]; intros older p; cbn [List.length redis_drain map rev].
  - rewrite app_nil_r. reflexivity.
  - unfold RedisQueueManager.dequeue, try_except, bind, ret, Redis.rpoplpush, Redis.command.
    cbn [Redis.up Redis.read RedisQueueManager.queue_key Redis.queue].
    rewrite app_assoc, pop_right_snoc.
    cbn [Redis.write Redis.read RedisQueueManager.processing_key Redis.queue
         Redis.processing Redis.up].
    rewrite from_dict_inverts_to_dict.
    unfold RedisQueueManager.queue_key.
    cbn [Redis.write Redis.queue Redis.processing Redis.up].
    rewrite IH. rewrite <- app_assoc. reflexivity.
Qed.

(** X11: the Redis queue is first in, first out.  After the messages of
    a list were enqueued on a reachable server whose ready list was
    empty, as many calls of [dequeue] return those messages, unchanged
    and in the order they were enqueued, and leave them in the
    processing list. *)
Theorem redis_queue_is_fifo :
  forall (fresh_uuid : string) (now : float) (ms : list EmailMessageData.t)
         (s : Redis.store),
    Redis.up s = true ->
    Redis.queue s = [] ->
    redis_drain fresh_uuid now (List.length ms) (redis_enqueue_all ms s)
    = (ms, {| Redis.queue := [];
              Redis.processing := rev (map EmailMessageData.to_dict ms) ++ Redis.processing s;
              Redis.up := true |}).
Proof.
  intros u n ms s Hup Hq.
  rewrite (redis_enqueue_all_queue ms s Hup), Hq, app_nil_r.
  exact (redis_drain_messages u n ms [] (Redis.processing s)).
Qed.

Lemma redis_queue_is_fifo_witness :
  redis_drain "uuid-9" 101%Q 2
    (redis_enqueue_all [hello_message; scenario_message]
       {| Redis.queue := []; Redis.processing := []; Redis.up := true |})
  = ([hello_message; scenario_message],
     {| Redis.queue := [];
        Redis.processing :=
          rev (map EmailMessageData.to_dict [hello_message; scenario_message]) ++ [];
        Redis.up := true |}).
Proof.
  exact (redis_queue_is_fifo "uuid-9" 101%Q [hello_message; scenario_message]
           {| Redis.queue := []; Redis.processing := []; Redis.up := true |}
           eq_refl eq_refl).
Defined.

(** X12: [dequeue] on Redis hands an entry over without losing it.  When
    it returns a message, that message was decoded from the oldest ready
    entry, and the entry now heads the processing list; when it returns
    [None] the server is out of reach or the ready list is empty, and
    nothing changed.  It never raises. *)
Theorem redis_dequeue_hands_over :
  forall (fresh_uuid : string) (now : float) (s : Redis.store),
    match RedisQueueManager.dequeue fresh_uuid now s with
    | (Ok (Some m), s') =>
        exists front item,
          Redis.queue s = front ++ [item]
          /\ m = EmailMessageData.from_dict fresh_uuid now item
          /\ s' = {| Redis.queue := front;
                     Redis.processing := item :: Redis.processing s;
                     Redis.up := true |}
    | (Ok None, s') => s' = s /\ (Redis.up s = false \/ Redis.queue s = [])
    | (Raise _, _) => False
    end.
Proof.
  intros u n s.
  unfold RedisQueueManager.dequeue, try_except, bind, ret, Redis.rpoplpush, Redis.command.
  destruct (Redis.up s) eqn:Hup.
  - cbn [Redis.read RedisQueueManager.queue_key].
    destruct (Redis.pop_right (Redis.queue s)) as [[front item]|] eqn:E.
    + exists front, item. split; [exact (pop_right_some _ _ _ E)|].
      split; [reflexivity|].
      cbn [Redis.write Redis.read RedisQueueManager.processing_key Redis.queue
           Redis.processing Redis.up].
      unfold RedisQueueManager.queue_key.
      cbn [Redis.write Redis.queue Redis.processing Redis.up].
      rewrite Hup. reflexivity.
    + split; [reflexivity|right; exact (pop_right_none _ E)].
  - split; [reflexivity|left; reflexivity].
Qed.

Lemma pyval_eqb_refl : forall v : pyval, pyval_eqb v v = true.
Proof.
  fix IH 1. intros [ | s | z | q | l | d]; simpl.
  - reflexivity.
  - apply String.eqb_refl.
  - apply Z.eqb_refl.
  - apply Qeq_bool_iff. reflexivity.
  - induction l as [|x l IHl]; [reflexivity|]. rewrite IH. exact IHl.
  - induction d as [|[k x] d IHd]; [reflexivity|].
    rewrite String.eqb_refl, IH. exact IHd.
Qed.

Lemma pyval_eqb_PStr (v : pyval) (i : string) :
  pyval_eqb v (PStr i) = true -> v = PStr i.
Proof.
  destruct v; simpl; try discriminate.
  intros H. apply String.eqb_eq in H. subst. reflexivity.
Qed.

(** Two equal dictionaries hold equal values under every key. *)
Lemma pydict_eqb_get (k : string) (d : pydict) :
  forall e : pydict,
    pydict_eqb d e = true ->
    match dict_get d k, dict_get e k with
    | Some a, Some b => pyval_eqb a b = true
    | None, None => True
    | _, _ => False
    end.
Proof.
  unfold pydict_eqb.
  induction d as [|[k1 x] d IH]; intros [|[k2 y] e] H; simpl in H; try discriminate.
  - exact I.
  - apply andb_true_iff in H as [H Hrest]. apply andb_true_iff in H as [Hk Hxy].
    apply String.eqb_eq in Hk. subst k2. cbn [dict_get].
    destruct (String.eqb k1 k); [exact Hxy|].
    apply IH. simpl. exact Hrest.
Qed.

Lemma remove_first_at_match (item : pydict) (before after : list pydict) :
  Forall (fun x => pydict_eqb x item = false) before ->
  Redis.remove_first item (before ++ item :: after) = before ++ after.
Proof.
  induction 1 as [|x before Hx _ IH]; cbn [app Redis.remove_first].
  - unfold pydict_eqb. rewrite pyval_eqb_refl. reflexivity.
  - rewrite Hx, IH. reflexivity.
Qed.

Lemma scan_passes_others (i : string) (before rest : list pydict) (s : Redis.store) :
  Forall (fun x => exists v, dict_get x "id" = Some v /\ pyval_eqb v (PStr i) = false)
    before ->
  RedisQueueManager.mark_completed_scan i (before ++ rest) s
  = RedisQueueManager.mark_completed_scan i rest s.
Proof.
  induction 1 as [|x before (v & Hv & Hne) _ IH]; [reflexivity|].
  cbn [app RedisQueueManager.mark_completed_scan]. rewrite Hv, Hne. exact IH.
Qed.

(** X13: [mark_completed] on Redis removes one entry, the first of the
    processing list that carries the id, and leaves the others in place. *)
Theorem redis_mark_completed_removes_first_match :
  forall (i : string) (s : Redis.store) (before after : list pydict) (item : pydict),
    Redis.up s = true ->
    Redis.processing s = before ++ item :: after ->
    Forall (fun x => exists v, dict_get x "id" = Some v /\ pyval_eqb v (PStr i) = false)
      before ->
    dict_get item "id" = Some (PStr i) ->
    RedisQueueManager.mark_completed i s
    = (Ok tt, {| Redis.queue := Redis.queue s;
                 Redis.processing := before ++ after;
                 Redis.up := true |}).
Proof.
  intros i s before after item Hup Hp Hbefore Hitem.
  unfold RedisQueueManager.mark_completed, try_except, bind, ret,
    Redis.lrange_all, Redis.command.
  rewrite Hup. cbn [Redis.read RedisQueueManager.processing_key].
  rewrite Hp, (scan_passes_others i before (item :: after) s Hbefore).
  cbn [RedisQueueManager.mark_completed_scan]. rewrite Hitem.
  cbn [pyval_eqb]. rewrite String.eqb_refl.
  unfold Redis.lrem_1, Redis.command. rewrite Hup.
  cbn [Redis.write Redis.read RedisQueueManager.processing_key].
  rewrite Hp, remove_first_at_match; [rewrite Hup; reflexivity|].
  eapply Forall_impl; [|exact Hbefore].
  intros x (v & Hv & Hne).
  destruct (pydict_eqb x item) eqn:E; [|reflexivity].
  pose proof (pydict_eqb_get "id" x item E) as Hg. rewrite Hv, Hitem in Hg.
  congruence.
Qed.

Lemma redis_mark_completed_removes_first_match_witness :
  RedisQueueManager.mark_completed "uuid-1"
    {| Redis.queue := [];
       Redis.processing :=
         [EmailMessageData.to_dict scenario_message] ++
         EmailMessageData.to_dict hello_message ::
         [EmailMessageData.to_dict hello_message];
       Redis.up := true |}
  = (Ok tt, {| Redis.queue := [];
               Redis.processing :=
                 [EmailMessageData.to_dict scenario_message] ++
                 [EmailMessageData.to_dict hello_message];
               Redis.up := true |}).
Proof.
  apply (redis_mark_completed_removes_first_match "uuid-1"
           {| Redis.queue := [];
              Redis.processing :=
                [EmailMessageData.to_dict scenario_message] ++
                EmailMessageData.to_dict hello_message ::
                [EmailMessageData.to_dict hello_message];
              Redis.up := true |}
           [EmailMessageData.to_dict scenario_message]
           [EmailMessageData.to_dict hello_message]
           (EmailMessageData.to_dict hello_message)).
  - reflexivity.
  - reflexivity.
  - constructor; [|constructor]. eexists. split; reflexivity.
  - reflexivity.
Defined.

(** X14: [mark_completed] on Redis does nothing for an id that no entry
    of the processing list carries, and nothing when the server is out
    of reach; it never raises. *)
Theorem redis_mark_completed_unknown_id :
  forall (i : string) (s : Redis.store),
    Redis.up s = false
    \/ Forall (fun x => exists v, dict_get x "id" = Some v /\ pyval_eqb v (PStr i) = false)
         (Redis.processing s) ->
    RedisQueueManager.mark_completed i s = (Ok tt, s).
Proof.
  intros i s H.
  unfold RedisQueueManager.mark_completed, try_except, bind, ret,
    Redis.lrange_all, Redis.command.
  destruct (Redis.up s) eqn:Hup; [|reflexivity].
  destruct H as [H|H]; [discriminate|].
  cbn [Redis.read RedisQueueManager.processing_key].
  rewrite <- (app_nil_r (Redis.processing s)).
  rewrite (scan_passes_others i (Redis.processing s) [] s H).
  reflexivity.
Qed.

Lemma redis_mark_completed_unknown_id_witness :
  RedisQueueManager.mark_completed "uuid-7"
    {| Redis.queue := [];
       Redis.processing := [EmailMessageData.to_dict hello_message];
       Redis.up := true |}
  = (Ok tt, {| Redis.queue := [];
               Redis.processing := [EmailMessageData.to_dict hello_message];
               Redis.up := true |}).
Proof.
  apply (redis_mark_completed_unknown_id "uuid-7"
           {| Redis.queue := [];
              Redis.processing := [EmailMessageData.to_dict hello_message];
              Redis.up := true |}).
  right. constructor; [|constructor]. eexists. split; reflexivity.
Defined.

(** ** The SQLite queue manager *)

Lemma has_id_true (i : string) (rows : list SQLite.row) :
  SQLite.has_id i rows = true <-> In i (map SQLite.id rows).
Proof.
  unfold SQLite.has_id. rewrite existsb_exists, in_map_iff. split.
  - intros (r & Hin & Heq). apply String.eqb_eq in Heq. exists r. split; assumption.
  - intros (r & Heq & Hin). exists r. split; [exact Hin|]. subst. apply String.eqb_refl.
Qed.

(** X15: [enqueue] on SQLite returns [True] only when it added a row:
    then the file is usable, no row had the id, and the new row goes
    last and is not in processing.  A message whose id is already in the
    table is refused, and so is every message when the file cannot be
    used; whenever [enqueue] returns [False] the table is left
    untouched. *)
Theorem sqlite_enqueue_adds_or_refuses :
  forall (m : EmailMessageData.t) (d : SQLite.db),
  exists b d',
    SQLiteQueueManager.enqueue m d = (Ok b, d')
    /\ (b = true ->
        SQLite.usable d = true
        /\ ~ In (EmailMessageData.id m) (map SQLite.id (SQLite.smtp_queue d))
        /\ SQLite.smtp_queue d'
           = SQLite.smtp_queue d ++ [SQLiteQueueManager.row_of (EmailMessageData.to_dict m)]
        /\ SQLite.processing (SQLiteQueueManager.row_of (EmailMessageData.to_dict m)) = 0
        /\ SQLite.id (SQLiteQueueManager.row_of (EmailMessageData.to_dict m))
           = EmailMessageData.id m)
    /\ (In (EmailMessageData.id m) (map SQLite.id (SQLite.smtp_queue d)) -> b = false)
    /\ (SQLite.usable d = false -> b = false)
    /\ (b = false -> d' = d).
Proof.
  intros m d.
  unfold SQLiteQueueManager.enqueue, try_except, bind, ret, SQLite.insert, SQLite.statement.
  destruct (SQLite.usable d) eqn:Hu.
  - change (SQLite.id (SQLiteQueueManager.row_of (EmailMessageData.to_dict m)))
      with (EmailMessageData.id m).
    destruct (SQLite.has_id (EmailMessageData.id m) (SQLite.smtp_queue d)) eqn:Hh.
    + exists false. eexists. split; [reflexivity|]. split; [|split; [|split]].
      * discriminate.
      * reflexivity.
      * reflexivity.
      * intros _. destruct d as [rows u]. cbn in *. subst u. reflexivity.
    + exists true. eexists. split; [reflexivity|]. split; [|split; [|split]].
      * intros _. split; [reflexivity|]. split; [apply has_id_false; exact Hh|].
        repeat split.
      * intros Hin. exfalso. apply (has_id_false _ _ Hh). exact Hin.
      * discriminate.
      * discriminate.
  - exists false, d. split; [reflexivity|]. split; [|split; [|split]].
    + discriminate.
    + reflexivity.
    + reflexivity.
    + reflexivity.
Qed.

Lemma oldest_none_dispatchable (rows : list SQLite.row) (best : option SQLite.row) :
  filter SQLite.dispatchable rows = [] -> SQLite.oldest best rows = best.
Proof.
  revert best. induction rows as [|r rows IH]; intros best H; [reflexivity|].
  cbn [filter SQLite.oldest] in *.
  destruct (SQLite.dispatchable r); [discriminate|]. apply IH. exact H.
Qed.

Lemma oldest_app (rows1 rows2 : list SQLite.row) (best : option SQLite.row) :
  SQLite.oldest best (rows1 ++ rows2) = SQLite.oldest (SQLite.oldest best rows1) rows2.
Proof.
  revert best. induction rows1 as [|r rows1 IH]; intros best; [reflexivity|].
  cbn [app SQLite.oldest].
  destruct (SQLite.dispatchable r); [|apply IH].
  destruct best as [b|]; [|apply IH].
  destruct (Qle_bool (SQLite.created_at b) (SQLite.created_at r)); apply IH.
Qed.

Lemma message_data_of_row_of (m : EmailMessageData.t) :
  SQLiteQueueManager.message_data_of
    (SQLiteQueueManager.row_of (EmailMessageData.to_dict m))
  = EmailMessageData.to_dict m.
Proof. destruct m. reflexivity. Qed.

Lemma update_only_row (rows : list SQLite.row) (r : SQLite.row)
    (f : SQLite.row -> SQLite.row) :
  ~ In (SQLite.id r) (map SQLite.id rows) ->
  map (fun x => if String.eqb (SQLite.id x) (SQLite.id r) then f x else x) (rows ++ [r])
  = rows ++ [f r].
Proof.
  intros Hn. rewrite map_app. cbn [map]. rewrite String.eqb_refl. f_equal.
  induction rows as [|x rows IH]; [reflexivity|].
  cbn [map] in *. destruct (String.eqb_spec (SQLite.id x) (SQLite.id r)) as [E|_].
  - exfalso. apply Hn. left. exact E.
  - rewrite IH; [reflexivity|]. intros H. apply Hn. right. exact H.
Qed.

(** X16: what goes into the SQLite queue comes out.  On a usable file
    with no row waiting and no row of the same id, a message enqueued
    with status [pending] is what the next [dequeue] returns, field for
    field, and its row is then in processing.  A message enqueued with
    any other status is stored but never returned by [dequeue]. *)
Theorem sqlite_enqueue_then_dequeue :
  forall (fresh_uuid : string) (now : float) (m : EmailMessageData.t) (d : SQLite.db),
    SQLite.usable d = true ->
    filter SQLite.dispatchable (SQLite.smtp_queue d) = [] ->
    ~ In (EmailMessageData.id m) (map SQLite.id (SQLite.smtp_queue d)) ->
    SQLiteQueueManager.dequeue fresh_uuid now (snd (SQLiteQueueManager.enqueue m d))
    = if String.eqb (EmailMessageData.status m) "pending"
      then (Ok (Some m),
            {| SQLite.smtp_queue :=
                 SQLite.smtp_queue d
                 ++ [SQLite.set_processing 1
                       (SQLiteQueueManager.row_of (EmailMessageData.to_dict m))];
               SQLite.usable := true |})
      else (Ok None,
            {| SQLite.smtp_queue :=
                 SQLite.smtp_queue d
                 ++ [SQLiteQueueManager.row_of (EmailMessageData.to_dict m)];
               SQLite.usable := true |}).
Proof.
  intros u n m d Hu Hnone Hfresh.
  assert (Hen : snd (SQLiteQueueManager.enqueue m d)
                = {| SQLite.smtp_queue :=
                       SQLite.smtp_queue d
                       ++ [SQLiteQueueManager.row_of (EmailMessageData.to_dict m)];
                     SQLite.usable := true |}).
  { unfold SQLiteQueueManager.enqueue, try_except, bind, ret, SQLite.insert,
      SQLite.statement. rewrite Hu.
    change (SQLite.id (SQLiteQueueManager.row_of (EmailMessageData.to_dict m)))
      with (EmailMessageData.id m).
    destruct (SQLite.has_id (EmailMessageData.id m) (SQLite.smtp_queue d)) eqn:Hh.
    - apply has_id_true in Hh. contradiction.
    - reflexivity. }
  rewrite Hen.
  unfold SQLiteQueueManager.dequeue, try_except, bind, ret, SQLite.select_oldest_pending,
    SQLite.update_where_id, SQLite.statement.
  cbn [SQLite.usable SQLite.smtp_queue].
  rewrite oldest_app, (oldest_none_dispatchable _ None Hnone).
  cbn [SQLite.oldest].
  assert (Hd : SQLite.dispatchable (SQLiteQueueManager.row_of (EmailMessageData.to_dict m))
               = String.eqb (EmailMessageData.status m) "pending").
  { destruct m. reflexivity. }
  rewrite Hd.
  destruct (String.eqb (EmailMessageData.status m) "pending"); [|reflexivity].
  cbn [SQLite.usable SQLite.smtp_queue].
  rewrite message_data_of_row_of, from_dict_inverts_to_dict.
  rewrite update_only_row; [reflexivity|].
  change (SQLite.id (SQLiteQueueManager.row_of (EmailMessageData.to_dict m)))
    with (EmailMessageData.id m).
  exact Hfresh.
Qed.

Lemma sqlite_enqueue_then_dequeue_witness :
  SQLiteQueueManager.dequeue "uuid-9" 101%Q
    (snd (SQLiteQueueManager.enqueue hello_message
            {| SQLite.smtp_queue := []; SQLite.usable := true |}))
  = if String.eqb (EmailMessageData.status hello_message) "pending"
    then (Ok (Some hello_message),
          {| SQLite.smtp_queue :=
               [] ++ [SQLite.set_processing 1
                        (SQLiteQueueManager.row_of (EmailMessageData.to_dict hello_message))];
             SQLite.usable := true |})
    else (Ok None,
          {| SQLite.smtp_queue :=
               [] ++ [SQLiteQueueManager.row_of (EmailMessageData.to_dict hello_message)];
             SQLite.usable := true |}).
Proof.
  apply (sqlite_enqueue_then_dequeue "uuid-9" 101%Q hello_message
           {| SQLite.smtp_queue := []; SQLite.usable := true |}).
  - reflexivity.
  - reflexivity.
  - intros H. exact H.
Defined.

Lemma oldest_choice (rows : list SQLite.row) :
  forall (best : option SQLite.row) (r : SQLite.row),
    SQLite.oldest best rows = Some r ->
    (best = Some r \/ (In r rows /\ SQLite.dispatchable r = true))
    /\ (forall b, best = Some b -> (SQLite.created_at r <= SQLite.created_at b)%Q)
    /\ (forall r', In r' rows -> SQLite.dispatchable r' = true ->
                   (SQLite.created_at r <= SQLite.created_at r')%Q).
Proof.
  induction rows as [|x rows IH]; intros best r H; cbn [SQLite.oldest] in H.
  - subst best. split; [left; reflexivity|]. split.
    + intros b Hb. injection Hb as <-. apply Qle_refl.
    + intros r' [].
  - destruct (SQLite.dispatchable x) eqn:Hx.
    + destruct best as [b|].
      * destruct (Qle_bool (SQLite.created_at b) (SQLite.created_at x)) eqn:Hc.
        -- destruct (IH _ _ H) as (H1 & H2 & H3).
           split; [destruct H1 as [H1|[H1 H1']]; [left; exact H1|right; split;
                     [right; exact H1|exact H1']]|].
           split; [exact H2|].
           intros r' [<-|Hin] Hd; [|exact (H3 r' Hin Hd)].
           apply Qle_bool_iff in Hc.
           exact (Qle_trans _ _ _ (H2 b eq_refl) Hc).
        -- destruct (IH _ _ H) as (H1 & H2 & H3).
           assert (Hxb : (SQLite.created_at x <= SQLite.created_at b)%Q).
           { apply Qlt_le_weak. apply Qnot_le_lt. intros Hle.
             apply Qle_bool_iff in Hle. congruence. }
           split; [destruct H1 as [H1|[H1 H1']];
                     [right; injection H1 as <-; split; [left; reflexivity|exact Hx]
                     |right; split; [right; exact H1|exact H1']]|].
           split.
           ++ intros b' Hb'. injection Hb' as <-.
              exact (Qle_trans _ _ _ (H2 x eq_refl) Hxb).
           ++ intros r' [<-|Hin] Hd; [exact (H2 x eq_refl)|exact (H3 r' Hin Hd)].
      * destruct (IH _ _ H) as (H1 & H2 & H3).
        split; [destruct H1 as [H1|[H1 H1']];
                  [right; injection H1 as <-; split; [left; reflexivity|exact Hx]
                  |right; split; [right; exact H1|exact H1']]|].
        split; [intros b Hb; discriminate|].
        intros r' [<-|Hin] Hd; [exact (H2 x eq_refl)|exact (H3 r' Hin Hd)].
    + destruct (IH _ _ H) as (H1 & H2 & H3).
      split; [destruct H1 as [H1|[H1 H1']]; [left; exact H1|right; split;
                [right; exact H1|exact H1']]|].
      split; [exact H2|].
      intros r' [<-|Hin] Hd; [congruence|exact (H3 r' Hin Hd)].
Qed.

(** X17: [dequeue] on SQLite returns the oldest waiting message.  The
    message it returns is read from a row that was waiting (not in
    processing, status [pending]) and whose [created_at] is least among
    the waiting rows; every row of that id is then marked in processing
    and no other row changes.  When it returns [None] the table is
    unchanged.  It never raises. *)
Theorem sqlite_dequeue_takes_oldest :
  forall (fresh_uuid : string) (now : float) (d : SQLite.db),
    match SQLiteQueueManager.dequeue fresh_uuid now d with
    | (Ok (Some m), d') =>
        exists r,
          In r (SQLite.smtp_queue d)
          /\ SQLite.dispatchable r = true
          /\ (forall r', In r' (SQLite.smtp_queue d) -> SQLite.dispatchable r' = true ->
                         (SQLite.created_at r <= SQLite.created_at r')%Q)
          /\ m = EmailMessageData.from_dict fresh_uuid now
                   (SQLiteQueueManager.message_data_of r)
          /\ EmailMessageData.id m = SQLite.id r
          /\ SQLite.smtp_queue d'
             = map (fun x => if String.eqb (SQLite.id x) (SQLite.id r)
                             then SQLite.set_processing 1 x else x)
                 (SQLite.smtp_queue d)
    | (Ok None, d') => d' = d
    | (Raise _, _) => False
    end.
Proof.
  intros u n d.
  unfold SQLiteQueueManager.dequeue, try_except, bind, ret, SQLite.select_oldest_pending,
    SQLite.update_where_id, SQLite.statement.
  destruct (SQLite.usable d) eqn:Hu; [|reflexivity].
  destruct (SQLite.oldest None (SQLite.smtp_queue d)) as [r|] eqn:Ho.
  - cbn [SQLite.usable SQLite.smtp_queue].
    destruct (oldest_choice _ _ _ Ho) as ([H1|[H1 H1']] & _ & H3); [discriminate|].
    exists r. repeat split; try assumption.
  - destruct d as [rows us]. cbn in *. subst us. reflexivity.
Qed.


Lemma ids_after_update_other (P : SQLite.row -> bool) (i j : string)
    (f : SQLite.row -> SQLite.row) (rows : list SQLite.row) :
  (forall r, SQLite.id (f r) = SQLite.id r) ->
  j <> i ->
  (In j (map SQLite.id
           (filter P (map (fun r => if String.eqb (SQLite.id r) i then f r else r) rows)))
   <-> In j (map SQLite.id (filter P rows))).
Proof.
  intros Hf Hne. rewrite !in_map_iff. split.
  - intros (r & Hid & Hin). apply filter_In in Hin as [Hin HP].
    apply in_map_iff in Hin as (r0 & Hr0 & Hin0).
    destruct (String.eqb_spec (SQLite.id r0) i) as [E|E].
    + exfalso. apply Hne. rewrite <- Hid, <- Hr0, Hf. exact E.
    + subst r0. exists r. split; [exact Hid|]. apply filter_In. split; assumption.
  - intros (r & Hid & Hin). apply filter_In in Hin as [Hin HP].
    exists r. split; [exact Hid|]. apply filter_In. split; [|exact HP].
    apply in_map_iff. exists r. split; [|exact Hin].
    destruct (String.eqb_spec (SQLite.id r) i) as [E|E]; [congruence|reflexivity].
Qed.

Lemma ids_after_update_gone (P : SQLite.row -> bool) (i : string)
    (f : SQLite.row -> SQLite.row) (rows : list SQLite.row) :
  (forall r, SQLite.id (f r) = SQLite.id r) ->
  (forall r, P (f r) = false) ->
  ~ In i (map SQLite.id
            (filter P (map (fun r => if String.eqb (SQLite.id r) i then f r else r) rows))).
Proof.
  intros Hf HP Hin. apply in_map_iff in Hin as (r & Hid & Hin).
  apply filter_In in Hin as [Hin Hr].
  apply in_map_iff in Hin as (r0 & Hr0 & _).
  destruct (String.eqb_spec (SQLite.id r0) i) as [E|E].
  - subst r. rewrite HP in Hr. discriminate.
  - subst r0. contradiction.
Qed.

(** X18: [mark_completed] on SQLite settles a message for good.  With a
    status other than [pending], the id is afterwards neither ready nor
    in flight; no row is deleted; and for every other id nothing changes
    in either collection. *)
Theorem sqlite_mark_completed_settles :
  forall (i st : string) (d : SQLite.db),
    SQLite.usable d = true ->
    st <> "pending"%string ->
    let qm' := QueueManager.SQLiteQM (snd (SQLiteQueueManager.mark_completed i st d)) in
    ~ In i (QueueManager.ready_ids qm')
    /\ ~ In i (QueueManager.in_flight_ids qm')
    /\ map SQLite.id (SQLite.smtp_queue (snd (SQLiteQueueManager.mark_completed i st d)))
       = map SQLite.id (SQLite.smtp_queue d)
    /\ (forall j, j <> i ->
          (In j (QueueManager.ready_ids qm')
           <-> In j (QueueManager.ready_ids (QueueManager.SQLiteQM d)))
          /\ (In j (QueueManager.in_flight_ids qm')
              <-> In j (QueueManager.in_flight_ids (QueueManager.SQLiteQM d)))).
Proof.
  intros i st d Hu Hst.
  assert (Hd : snd (SQLiteQueueManager.mark_completed i st d)
               = {| SQLite.smtp_queue :=
                      map (fun r => if String.eqb (SQLite.id r) i
                                    then SQLite.set_status_processing st 0 r else r)
                        (SQLite.smtp_queue d);
                    SQLite.usable := true |}).
  { unfold SQLiteQueueManager.mark_completed, try_except, bind, ret,
      SQLite.update_where_id, SQLite.statement. rewrite Hu. reflexivity. }
  cbn zeta. rewrite Hd.
  cbn [QueueManager.ready_ids QueueManager.in_flight_ids SQLite.smtp_queue].
  split; [|split; [|split]].
  - apply ids_after_update_gone; [reflexivity|].
    intros r. unfold SQLite.dispatchable, SQLite.set_status_processing.
    cbn [SQLite.processing SQLite.status].
    destruct (String.eqb_spec st "pending"); [contradiction|reflexivity].
  - apply ids_after_update_gone; reflexivity.
  - apply update_keeps_ids. reflexivity.
  - intros j Hj. split; apply ids_after_update_other; try reflexivity; exact Hj.
Qed.

Lemma sqlite_mark_completed_settles_witness :
  ~ In "uuid-1"%string
      (QueueManager.ready_ids
         (QueueManager.SQLiteQM
            (snd (SQLiteQueueManager.mark_completed "uuid-1" "sent" two_row_table)))).
Proof.
  exact (proj1 (sqlite_mark_completed_settles "uuid-1" "sent" two_row_table eq_refl
                  ltac:(discriminate))).
Defined.

Lemma ids_after_update_same (P : SQLite.row -> bool) (i : string)
    (f : SQLite.row -> SQLite.row) (rows : list SQLite.row) :
  (forall r, SQLite.id (f r) = SQLite.id r) ->
  (forall r, P (f r) = P r) ->
  map SQLite.id
    (filter P (map (fun r => if String.eqb (SQLite.id r) i then f r else r) rows))
  = map SQLite.id (filter P rows).
Proof.
  intros Hf HP. induction rows as [|r rows IH]; [reflexivity|].
  cbn [map filter]. destruct (String.eqb (SQLite.id r) i).
  - rewrite HP. destruct (P r); cbn [map]; rewrite IH; [rewrite Hf|]; reflexivity.
  - destruct (P r); cbn [map]; rewrite IH; reflexivity.
Qed.

(** X19: [update_retry_count] on SQLite moves no message.  Whatever the
    id and the count, the ready ids and the in-flight ids are the same
    lists before and after, and so is the list of all ids; it never
    raises. *)
Theorem update_retry_count_moves_nothing :
  forall (now : float) (i : string) (retry_count : Z) (d : SQLite.db),
  exists d',
    update_retry_count now i retry_count d = (Ok tt, d')
    /\ QueueManager.ready_ids (QueueManager.SQLiteQM d')
       = QueueManager.ready_ids (QueueManager.SQLiteQM d)
    /\ QueueManager.in_flight_ids (QueueManager.SQLiteQM d')
       = QueueManager.in_flight_ids (QueueManager.SQLiteQM d)
    /\ map SQLite.id (SQLite.smtp_queue d') = map SQLite.id (SQLite.smtp_queue d).
Proof.
  intros now i rc d.
  unfold update_retry_count, try_except, bind, ret, SQLite.update_where_id,
    SQLite.statement.
  destruct (SQLite.usable d); eexists; (split; [reflexivity|]).
  - cbn [QueueManager.ready_ids QueueManager.in_flight_ids SQLite.smtp_queue].
    split; [|split].
    + apply ids_after_update_same; reflexivity.
    + apply ids_after_update_same; reflexivity.
    + apply update_keeps_ids. reflexivity.
  - repeat split.
Qed.
(** ** The rate limiters *)

(** X20: the token bucket grants as soon as the refill it computes makes
    up a token.  With room for one token, a caller that finds less than
    one token waits [(1 - tokens) / rate], sleeping once when that is
    positive, and is granted on its next pass whenever the refill
    computed there, [(later - last_refill) * rate], is at least one; the
    count afterwards is within bounds. *)
Theorem token_bucket_grants_when_refill_reaches_one :
  forall (max_tokens tokens_per_second now later : Binary64.t)
         (self : TokenBucketRateLimiter.t) (sleeps : list Binary64.t),
    Binary64.le Binary64.one max_tokens ->
    TokenBucketRateLimiter.within max_tokens self ->
    Binary64.lt
      (TokenBucketRateLimiter.tokens
         (TokenBucketRateLimiter._refill_tokens max_tokens tokens_per_second now self))
      Binary64.one ->
    Binary64.le Binary64.one
      (PrimFloat.mul
         (PrimFloat.sub later
            (TokenBucketRateLimiter.last_refill_time
               (TokenBucketRateLimiter._refill_tokens
                  max_tokens tokens_per_second now self)))
         tokens_per_second) ->
    exists self',
      TokenBucketRateLimiter.acquire max_tokens tokens_per_second [now; later] self sleeps
      = Some (Ok tt, self',
              sleeps
              ++ TokenBucketRateLimiter.sleeps_of
                   [PrimFloat.div
                      (PrimFloat.sub Binary64.one
                         (TokenBucketRateLimiter.tokens
                            (TokenBucketRateLimiter._refill_tokens
                               max_tokens tokens_per_second now self)))
                      tokens_per_second])
      /\ TokenBucketRateLimiter.within max_tokens self'.
Proof.
  intros max_tokens tokens_per_second now later self sleeps Hcap Hw Hlow Hadd.
  pose proof (refill_within max_tokens tokens_per_second now self Hw) as Hwa.
  set (a := TokenBucketRateLimiter._refill_tokens max_tokens tokens_per_second now self) in *.
  set (amount := PrimFloat.mul
                   (PrimFloat.sub later (TokenBucketRateLimiter.last_refill_time a))
                   tokens_per_second) in *.
  assert (Hpos : Binary64.lt Binary64.zero amount).
  { eapply f64_lt_le_trans; [|exact Hadd]. reflexivity. }
  assert (Hrate : PrimFloat.eqb tokens_per_second Binary64.zero = false).
  { exact (rate_not_zero tokens_per_second _ Hpos). }
  assert (Hacq : exists self',
             TokenBucketRateLimiter.acquire max_tokens tokens_per_second [now; later]
               self sleeps
             = Some (Ok tt, self',
                     sleeps ++ TokenBucketRateLimiter.sleeps_of
                                 [PrimFloat.div
                                    (PrimFloat.sub Binary64.one
                                       (TokenBucketRateLimiter.tokens a))
                                    tokens_per_second])).
  { cbn [TokenBucketRateLimiter.acquire].
    unfold TokenBucketRateLimiter.acquire_pass at 1. fold a.
    pose proof (f64_lt_not_le _ _ Hlow) as Hn. unfold Binary64.one in Hn. rewrite Hn.
    unfold Binary64.zero in Hrate. rewrite Hrate.
    unfold TokenBucketRateLimiter.acquire_pass.
    unfold TokenBucketRateLimiter._refill_tokens at 1 2 3. fold amount.
    pose proof Hpos as Hpos'. unfold Binary64.lt, Binary64.zero in Hpos'. rewrite Hpos'.
    cbn [TokenBucketRateLimiter.tokens TokenBucketRateLimiter.last_refill_time].
    destruct Hwa as [Ha0 Ha1].
    destruct (f64_add_pos (TokenBucketRateLimiter.tokens a) amount Ha0 Hpos) as [_ Hsum].
    assert (Hone : Binary64.le Binary64.one
                     (Binary64.py_min max_tokens
                        (PrimFloat.add (TokenBucketRateLimiter.tokens a) amount))).
    { unfold Binary64.py_min. destruct (PrimFloat.ltb _ max_tokens); [|exact Hcap].
      eapply f64_le_trans; [exact Hadd|exact Hsum]. }
    unfold Binary64.le, Binary64.one in Hone. rewrite Hone.
    eexists. unfold TokenBucketRateLimiter.sleeps_of. cbn [filter].
    unfold Binary64.one.
    match goal with
    | |- context [if ?c then sleeps ++ _ else sleeps] =>
        destruct c; [|rewrite app_nil_r]; reflexivity
    end. }
  destruct Hacq as [self' Hacq]. exists self'. split; [exact Hacq|].
  exact (acquire_within max_tokens tokens_per_second [now; later] self sleeps
           (Ok tt) self' _ Hw Hacq).
Qed.

Lemma token_bucket_grants_when_refill_reaches_one_witness :
  exists self',
    TokenBucketRateLimiter.acquire FloatExamples.two Binary64.one
      [FloatExamples.quarter; FloatExamples.two]
      (TokenBucketRateLimiter.mk FloatExamples.half Binary64.zero) []
    = Some (Ok tt, self',
            [] ++ TokenBucketRateLimiter.sleeps_of
                    [PrimFloat.div
                       (PrimFloat.sub Binary64.one
                          (TokenBucketRateLimiter.tokens
                             (TokenBucketRateLimiter._refill_tokens
                                FloatExamples.two Binary64.one FloatExamples.quarter
                                (TokenBucketRateLimiter.mk FloatExamples.half
                                   Binary64.zero))))
                       Binary64.one])
    /\ TokenBucketRateLimiter.within FloatExamples.two self'.
Proof.
  apply (token_bucket_grants_when_refill_reaches_one FloatExamples.two Binary64.one
           FloatExamples.quarter FloatExamples.two
           (TokenBucketRateLimiter.mk FloatExamples.half Binary64.zero) []).
  - reflexivity.
  - split; reflexivity.
  - reflexivity.
  - reflexivity.
Defined.

(** Rounding decides: with 0.7 tokens and a rate of 0.1, three seconds
    refill to [0.7 + 3 * 0.1], which is [1.0] in floats, and the pass
    grants. *)
Example token_bucket_grants_at_rounded_sum :
  TokenBucketRateLimiter.acquire_pass FloatExamples.five FloatExamples.tenth
    FloatExamples.three
    (TokenBucketRateLimiter.mk FloatExamples.seven_tenths Binary64.zero)
  = TokenBucketRateLimiter.Granted
      (TokenBucketRateLimiter.mk Binary64.zero FloatExamples.three).
Proof. reflexivity. Qed.

(** Waking after the wait computed is not always enough: at a rate of
    0.7 a caller that finds 0.16259558211053038 tokens and wakes exactly
    the computed wait later is refilled to 0.9999999999999999 and waits
    again. *)
Example token_bucket_waits_again_after_computed_wait :
  PrimFloat.sub FloatExamples.awake_at FloatExamples.asleep_at
  = PrimFloat.div (PrimFloat.sub Binary64.one FloatExamples.tokens_left)
      FloatExamples.seven_tenths
  /\ TokenBucketRateLimiter.acquire_pass FloatExamples.five FloatExamples.seven_tenths
       FloatExamples.awake_at
       (TokenBucketRateLimiter.mk FloatExamples.tokens_left FloatExamples.asleep_at)
     = TokenBucketRateLimiter.Waits
         (PrimFloat.div (PrimFloat.sub Binary64.one FloatExamples.below_one)
            FloatExamples.seven_tenths)
         true
         (TokenBucketRateLimiter.mk FloatExamples.below_one FloatExamples.awake_at).
Proof. split; reflexivity. Qed.

(** X21: a bucket that cannot hold one token never grants.  When the
    capacity is below one and the count is not above it, no pass of
    [acquire] grants, whatever the clock: the call either is still
    waiting when the readings are used up or ends in the division by
    zero. *)
Theorem token_bucket_below_one_never_grants :
  forall (max_tokens tokens_per_second : Binary64.t) (clock : list Binary64.t)
         (self : TokenBucketRateLimiter.t) (sleeps : list Binary64.t),
    Binary64.lt max_tokens Binary64.one ->
    Binary64.le (TokenBucketRateLimiter.tokens self) max_tokens ->
    forall self' sleeps',
      TokenBucketRateLimiter.acquire max_tokens tokens_per_second clock self sleeps
      <> Some (Ok tt, self', sleeps').
Proof.
  intros max_tokens tokens_per_second clock.
  induction clock as [|now clock IH]; intros self sleeps Hcap Hle self' sleeps'.
  - discriminate.
  - cbn [TokenBucketRateLimiter.acquire].
    unfold TokenBucketRateLimiter.acquire_pass.
    set (a := TokenBucketRateLimiter._refill_tokens max_tokens tokens_per_second now self).
    assert (Ha : Binary64.le (TokenBucketRateLimiter.tokens a) max_tokens).
    { unfold a, TokenBucketRateLimiter._refill_tokens.
      destruct (PrimFloat.ltb _ _); cbn [TokenBucketRateLimiter.tokens]; [|exact Hle].
      apply f64_py_min_le. eapply f64_le_refl_r. exact Hle. }
    assert (E : PrimFloat.leb Binary64.one (TokenBucketRateLimiter.tokens a) = false).
    { apply f64_lt_not_le. eapply f64_le_lt_trans; eassumption. }
    unfold Binary64.one in E. rewrite E.
    destruct (PrimFloat.eqb tokens_per_second _); [discriminate|].
    apply IH; assumption.
Qed.

Lemma token_bucket_below_one_never_grants_witness :
  Binary64.lt FloatExamples.half Binary64.one
  /\ forall self' sleeps',
       TokenBucketRateLimiter.acquire FloatExamples.half Binary64.one
         [Binary64.zero; FloatExamples.ten]
         (TokenBucketRateLimiter.init FloatExamples.half Binary64.zero) []
       <> Some (Ok tt, self', sleeps').
Proof.
  split; [reflexivity|].
  apply (token_bucket_below_one_never_grants FloatExamples.half Binary64.one
           [Binary64.zero; FloatExamples.ten]
           (TokenBucketRateLimiter.init FloatExamples.half Binary64.zero) []).
  - reflexivity.
  - reflexivity.
Defined.

(** X22: the fixed window never counts past its quota.  Starting from a
    count that is not negative, the count after [acquire] is at least 1
    and at most the quota (at most 1 when the quota is below 1), so the
    bound holds after every call. *)
Theorem fixed_window_count_within_quota :
  forall (window_seconds : Binary64.t) (requests_per_window : Z)
         (now later : Binary64.t) (self : FixedWindowRateLimiter.t),
    0 <= FixedWindowRateLimiter.request_count self ->
    1 <= FixedWindowRateLimiter.request_count
           (fst (FixedWindowRateLimiter.acquire
                   window_seconds requests_per_window now later self))
      <= Z.max 1 requests_per_window.
Proof.
  intros W limit now later self H0.
  unfold FixedWindowRateLimiter.acquire.
  destruct (PrimFloat.leb W _);
    cbn [FixedWindowRateLimiter.request_count FixedWindowRateLimiter.window_start].
  - destruct (Z.geb_spec 0 limit); cbn [fst FixedWindowRateLimiter.request_count]; lia.
  - destruct (Z.geb_spec (FixedWindowRateLimiter.request_count self) limit);
      cbn [fst FixedWindowRateLimiter.request_count]; lia.
Qed.

Lemma fixed_window_count_within_quota_witness :
  1 <= FixedWindowRateLimiter.request_count
         (fst (FixedWindowRateLimiter.acquire FloatExamples.sixty 2
                 FloatExamples.ten FloatExamples.seventy
                 (FixedWindowRateLimiter.mk Binary64.zero 2)))
    <= Z.max 1 2.
Proof.
  apply (fixed_window_count_within_quota FloatExamples.sixty 2
           FloatExamples.ten FloatExamples.seventy
           (FixedWindowRateLimiter.mk Binary64.zero 2)).
  cbn. lia.
Defined.

(** X23: when the fixed window makes the caller wait.  With a quota of
    at least 1, [acquire] sleeps only when the quota is used up and the
    window has not run out by the code's own test, and then for
    [window_start + window_seconds - now] as the code computes it, which
    is positive.  A caller that finds the quota used up opens the next
    window at the reading taken after the wait with its request as the
    first, also when the wait computed was not positive and it did not
    sleep.  Otherwise the request is counted in the running window, or
    opens a new one at [now] when the old one had run out. *)
Theorem fixed_window_sleeps_to_end_of_window :
  forall (window_seconds : Binary64.t) (requests_per_window : Z)
         (now later : Binary64.t) (self : FixedWindowRateLimiter.t),
    1 <= requests_per_window ->
    let elapsed := PrimFloat.sub now (FixedWindowRateLimiter.window_start self) in
    let wait := PrimFloat.sub
                  (PrimFloat.add (FixedWindowRateLimiter.window_start self) window_seconds)
                  now in
    match FixedWindowRateLimiter.acquire
            window_seconds requests_per_window now later self with
    | (self', Some wait_time) =>
        requests_per_window <= FixedWindowRateLimiter.request_count self
        /\ PrimFloat.leb window_seconds elapsed = false
        /\ wait_time = wait
        /\ Binary64.lt Binary64.zero wait_time
        /\ self' = FixedWindowRateLimiter.mk later 1
    | (self', None) =>
        (Binary64.le window_seconds elapsed
         /\ self' = FixedWindowRateLimiter.mk now 1)
        \/ (PrimFloat.leb window_seconds elapsed = false
            /\ FixedWindowRateLimiter.request_count self < requests_per_window
            /\ self' = FixedWindowRateLimiter.mk
                         (FixedWindowRateLimiter.window_start self)
                         (FixedWindowRateLimiter.request_count self + 1))
        \/ (PrimFloat.leb window_seconds elapsed = false
            /\ requests_per_window <= FixedWindowRateLimiter.request_count self
            /\ PrimFloat.ltb Binary64.zero wait = false
            /\ self' = FixedWindowRateLimiter.mk later 1)
    end.
Proof.
  intros W limit now later self Hlimit. cbn zeta.
  unfold FixedWindowRateLimiter.acquire.
  destruct (PrimFloat.leb W _) eqn:Ew;
    cbn [FixedWindowRateLimiter.request_count FixedWindowRateLimiter.window_start].
  - destruct (Z.geb_spec 0 limit); [lia|].
    left. split; [exact Ew|reflexivity].
  - destruct (Z.geb_spec (FixedWindowRateLimiter.request_count self) limit).
    + destruct (PrimFloat.ltb _ _) eqn:Ep.
      * repeat split; try assumption; reflexivity.
      * right. right. repeat split; assumption.
    + right. left. repeat split; assumption.
Qed.

Lemma fixed_window_sleeps_to_end_of_window_witness :
  FixedWindowRateLimiter.acquire FloatExamples.sixty 2
    FloatExamples.ten FloatExamples.seventy
    (FixedWindowRateLimiter.mk Binary64.zero 2)
  = (FixedWindowRateLimiter.mk FloatExamples.seventy 1, Some FloatExamples.fifty)
  /\ 2 <= 2
  /\ Binary64.lt Binary64.zero FloatExamples.fifty.
Proof.
  split; [reflexivity|].
  pose proof (fixed_window_sleeps_to_end_of_window FloatExamples.sixty 2
                FloatExamples.ten FloatExamples.seventy
                (FixedWindowRateLimiter.mk Binary64.zero 2) ltac:(lia)) as H.
  cbn zeta in H.
  change (FixedWindowRateLimiter.acquire FloatExamples.sixty 2
            FloatExamples.ten FloatExamples.seventy
            (FixedWindowRateLimiter.mk Binary64.zero 2))
    with (FixedWindowRateLimiter.mk FloatExamples.seventy 1, Some FloatExamples.fifty) in H.
  split; [exact (proj1 H)|exact (proj1 (proj2 (proj2 (proj2 H))))].
Defined.

(** At the very end of a window the wait computed can round to zero: with
    a window of 0.1 opened at 1700000000.0 and the quota used up, a
    caller at 1700000000.1 does not sleep and starts the next window at
    the following reading of the clock. *)
Example fixed_window_no_sleep_at_window_end :
  FixedWindowRateLimiter.acquire FloatExamples.tenth 1
    FloatExamples.window_end FloatExamples.window_after
    (FixedWindowRateLimiter.mk FloatExamples.window_opened 1)
  = (FixedWindowRateLimiter.mk FloatExamples.window_after 1, None)
  /\ PrimFloat.leb FloatExamples.tenth
       (PrimFloat.sub FloatExamples.window_end FloatExamples.window_opened)
     = false.
Proof. split; reflexivity. Qed.








(** X26: the limiters of the composite limiter.  [__init__] never
    leaves the list empty and creates no limiter twice; the three
    single strategies give that limiter alone; the composite strategy
    gives the enabled limiters in the order token bucket, fixed window,
    leaky bucket; and any other strategy name, like the composite
    strategy with nothing enabled, falls back to the token bucket
    alone. *)
Theorem composite_limiters :
  forall (strategy : string) (tb fw lb : bool),
    CompositeRateLimiter.init strategy tb fw lb <> []
    /\ NoDup (CompositeRateLimiter.init strategy tb fw lb)
    /\ CompositeRateLimiter.init "token_bucket" tb fw lb
       = [CompositeRateLimiter.TokenBucket]
    /\ CompositeRateLimiter.init "fixed_window" tb fw lb
       = [CompositeRateLimiter.FixedWindow]
    /\ CompositeRateLimiter.init "leaky_bucket" tb fw lb
       = [CompositeRateLimiter.LeakyBucket]
    /\ (In CompositeRateLimiter.FixedWindow (CompositeRateLimiter.init "composite" tb fw lb)
        <-> fw = true)
    /\ (In CompositeRateLimiter.LeakyBucket (CompositeRateLimiter.init "composite" tb fw lb)
        <-> lb = true)
    /\ (In CompositeRateLimiter.TokenBucket (CompositeRateLimiter.init "composite" tb fw lb)
        <-> tb = true \/ (fw = false /\ lb = false))
    /\ (strategy <> "token_bucket"%string -> strategy <> "fixed_window"%string ->
        strategy <> "leaky_bucket"%string -> strategy <> "composite"%string ->
        CompositeRateLimiter.init strategy tb fw lb = [CompositeRateLimiter.TokenBucket]).
Proof.
  intros strategy tb fw lb.
  assert (Hnd : forall l, In l [[CompositeRateLimiter.TokenBucket];
                                [CompositeRateLimiter.FixedWindow];
                                [CompositeRateLimiter.LeakyBucket];
                                [CompositeRateLimiter.TokenBucket; CompositeRateLimiter.FixedWindow];
                                [CompositeRateLimiter.TokenBucket; CompositeRateLimiter.LeakyBucket];
                                [CompositeRateLimiter.FixedWindow; CompositeRateLimiter.LeakyBucket];
                                [CompositeRateLimiter.TokenBucket; CompositeRateLimiter.FixedWindow;
                                 CompositeRateLimiter.LeakyBucket]] ->
                     l <> [] /\ NoDup l).
  { intros l Hl. cbn in Hl.
    repeat (destruct Hl as [<-|Hl];
            [split; [discriminate|];
             repeat (constructor; [cbn; intuition discriminate|]); constructor|]).
    contradiction. }
  assert (Hin : In (CompositeRateLimiter.init strategy tb fw lb)
                  [[CompositeRateLimiter.TokenBucket];
                   [CompositeRateLimiter.FixedWindow];
                   [CompositeRateLimiter.LeakyBucket];
                   [CompositeRateLimiter.TokenBucket; CompositeRateLimiter.FixedWindow];
                   [CompositeRateLimiter.TokenBucket; CompositeRateLimiter.LeakyBucket];
                   [CompositeRateLimiter.FixedWindow; CompositeRateLimiter.LeakyBucket];
                   [CompositeRateLimiter.TokenBucket; CompositeRateLimiter.FixedWindow;
                    CompositeRateLimiter.LeakyBucket]]).
  { unfold CompositeRateLimiter.init.
    destruct (String.eqb strategy "token_bucket"); [cbn; tauto|].
    destruct (String.eqb strategy "fixed_window"); [cbn; tauto|].
    destruct (String.eqb strategy "leaky_bucket"); [cbn; tauto|].
    destruct (String.eqb strategy "composite"); [|cbn; tauto].
    destruct tb, fw, lb; cbn; tauto. }
  destruct (Hnd _ Hin) as [Hne Hno].
  split; [exact Hne|]. split; [exact Hno|].
  split; [reflexivity|]. split; [reflexivity|]. split; [reflexivity|].
  split; [|split; [|split]].
  - destruct tb, fw, lb; cbn; intuition discriminate.
  - destruct tb, fw, lb; cbn; intuition discriminate.
  - destruct tb, fw, lb; cbn; intuition discriminate.
  - intros H1 H2 H3 H4. unfold CompositeRateLimiter.init.
    apply String.eqb_neq in H1, H2, H3, H4.
    rewrite H1, H2, H3, H4. reflexivity.
Qed.

(** ** The handlers of AUTH and MAIL *)

(** X27: AUTH LOGIN and AUTH PLAIN accept any credentials.  When
    authentication is required and a user name and a password are
    configured, an AUTH command whose mechanism is LOGIN or PLAIN is
    answered 235 whatever argument the client sends, as long as its
    bytes decode as UTF-8: the argument is decoded and never compared.
    The session is then marked authenticated under the configured user
    name. *)
Theorem handle_AUTH_accepts_any_credentials :
  forall (split : string -> list string) (upper : string -> string)
         (decode_utf8 : string -> result string)
         (auth_username auth_password command arg : string) (s : session),
    str_truthy auth_username = true ->
    str_truthy auth_password = true ->
    (2 <= List.length (split command))%nat ->
    (upper (nth 1 (split command) ""%string) = "LOGIN"%string
     \/ upper (nth 1 (split command) ""%string) = "PLAIN"%string) ->
    (exists text, decode_utf8 arg = Ok text) ->
    exists s',
      EnhancedSMTPProxyHandler.handle_AUTH split upper decode_utf8
        true auth_username auth_password command arg s
      = (Ok EnhancedSMTPProxyHandler.reply_235, s')
      /\ dict_get s' "authenticated" = Some (SBool true)
      /\ dict_get s' "username" = Some (SStr auth_username).
Proof.
  intros split upper decode_utf8 u p command arg s Hu Hp Hlen Hmech [text Hdec].
  assert (Harg : (if str_truthy arg then arg else ""%string) = arg).
  { unfold str_truthy. destruct (String.eqb_spec arg ""); [subst|]; reflexivity. }
  assert (Hauth :
    SMTPAuthHandler._authenticate decode_utf8 true u p arg s
    = (Ok true, dict_set (dict_set s "authenticated" (SBool true)) "username" (SStr u))).
  { unfold SMTPAuthHandler._authenticate, SMTPAuthHandler.valid_users,
      try_except, bind, ret, session_setitem.
    cbn [negb]. rewrite Hdec, Hu, Hp. cbn [andb list_truthy negb dict_get].
    rewrite !String.eqb_refl. reflexivity. }
  exists (dict_set (dict_set (dict_set s "authenticated" (SBool true))
                      "username" (SStr u)) "authenticated" (SBool true)).
  split; [|split].
  - unfold EnhancedSMTPProxyHandler.handle_AUTH. unfold try_except at 1.
    cbn [negb].
    destruct (Z.ltb_spec (Z.of_nat (List.length (split command))) 2); [lia|].
    assert (Hget : exists m,
               EnhancedSMTPProxyHandler.getattr_auth_handler
                 ("auth_" ++ upper (nth 1 (split command) ""%string)) = Some m
               /\ (m = EnhancedSMTPProxyHandler.Auth_LOGIN
                   \/ m = EnhancedSMTPProxyHandler.Auth_PLAIN)).
    { destruct Hmech as [-> | ->]; eexists; (split; [reflexivity|]); tauto. }
    destruct Hget as [m [-> Hm]].
    unfold bind at 1. rewrite Harg.
    assert (Hcall : EnhancedSMTPProxyHandler.call_auth_method decode_utf8 true u p m arg s
                    = (Ok true, dict_set (dict_set s "authenticated" (SBool true))
                                  "username" (SStr u))).
    { destruct Hm as [-> | ->]; exact Hauth. }
    rewrite Hcall. reflexivity.
  - apply dict_get_set_same.
  - rewrite dict_get_set_other by discriminate. apply dict_get_set_same.
Qed.

Lemma handle_AUTH_accepts_any_credentials_witness :
  exists s',
    EnhancedSMTPProxyHandler.handle_AUTH
      (fun _ => ["AUTH"; "PLAIN"]%string) (fun m => m) (fun b => Ok b)
      true "relay" "secret" "AUTH PLAIN" "not the password" []
    = (Ok EnhancedSMTPProxyHandler.reply_235, s')
    /\ dict_get s' "authenticated" = Some (SBool true)
    /\ dict_get s' "username" = Some (SStr "relay").
Proof.
  apply (handle_AUTH_accepts_any_credentials
           (fun _ => ["AUTH"; "PLAIN"]%string) (fun m => m) (fun b => Ok b)
           "relay" "secret" "AUTH PLAIN" "not the password" []).
  - reflexivity.
  - reflexivity.
  - cbn. lia.
  - right. reflexivity.
  - eexists. reflexivity.
Defined.

Lemma handle_AUTH_235_marks_session
    (split : string -> list string) (upper : string -> string)
    (decode_utf8 : string -> result string) (auth_required : bool)
    (auth_username auth_password command arg : string) (s s' : session) :
  EnhancedSMTPProxyHandler.handle_AUTH split upper decode_utf8
    auth_required auth_username auth_password command arg s
  = (Ok EnhancedSMTPProxyHandler.reply_235, s') ->
  dict_get s' "authenticated" = Some (SBool true).
Proof.
  unfold EnhancedSMTPProxyHandler.handle_AUTH, try_except.
  destruct auth_required; cbn [negb]; [|unfold ret; discriminate].
  destruct (Z.of_nat (List.length (split command)) <? 2)%Z; [unfold ret; discriminate|].
  destruct (EnhancedSMTPProxyHandler.getattr_auth_handler _) as [m|];
    [|unfold ret; discriminate].
  unfold bind at 1.
  destruct (EnhancedSMTPProxyHandler.call_auth_method _ _ _ _ _ _ _) as [[[|]|e] s1];
    cbn [bind ret session_setitem]; unfold bind, ret, session_setitem;
    intros H; try discriminate.
  injection H as <-. apply dict_get_set_same.
Qed.

(** X28: the handler of MAIL never accepts a sender.  [handle_MAIL]
    answers 530 exactly when authentication is required and the session
    is not marked authenticated, and 451 in every other case, because
    the call to the parent class raises; it leaves the session as it
    was.  In particular a session that [handle_AUTH] has just answered
    235 gets 451 for its MAIL command. *)
Theorem handle_MAIL_never_accepts :
  forall (auth_required : bool) (command from_addr : string) (s : session),
    EnhancedSMTPProxyHandler.handle_MAIL auth_required command from_addr s
    = (Ok (if auth_required && negb (session_truthy (dict_get s "authenticated"))
           then EnhancedSMTPProxyHandler.reply_530
           else EnhancedSMTPProxyHandler.reply_451_mail), s)
    /\ (forall split upper decode_utf8 auth_username auth_password command' arg s0,
          EnhancedSMTPProxyHandler.handle_AUTH split upper decode_utf8
            auth_required auth_username auth_password command' arg s0
          = (Ok EnhancedSMTPProxyHandler.reply_235, s) ->
          EnhancedSMTPProxyHandler.handle_MAIL auth_required command from_addr s
          = (Ok EnhancedSMTPProxyHandler.reply_451_mail, s)).
Proof.
  intros auth_required command from_addr s.
  assert (H : EnhancedSMTPProxyHandler.handle_MAIL auth_required command from_addr s
              = (Ok (if auth_required
                          && negb (session_truthy (dict_get s "authenticated"))
                     then EnhancedSMTPProxyHandler.reply_530
                     else EnhancedSMTPProxyHandler.reply_451_mail), s)).
  { unfold EnhancedSMTPProxyHandler.handle_MAIL, try_except, bind, get.
    destruct (auth_required && negb (session_truthy (dict_get s "authenticated")));
      reflexivity. }
  split; [exact H|].
  intros split upper decode_utf8 u p command' arg s0 Hauth.
  apply handle_AUTH_235_marks_session in Hauth.
  rewrite H, Hauth. cbn [session_truthy negb]. rewrite andb_false_r. reflexivity.
Qed.

Lemma handle_MAIL_never_accepts_witness :
  EnhancedSMTPProxyHandler.handle_MAIL true "MAIL" "a@x"
    [("authenticated"%string, SBool true); ("username"%string, SStr "relay")]
  = (Ok EnhancedSMTPProxyHandler.reply_451_mail,
     [("authenticated"%string, SBool true); ("username"%string, SStr "relay")]).
Proof.
  apply (proj2 (handle_MAIL_never_accepts true "MAIL" "a@x"
                  [("authenticated"%string, SBool true); ("username"%string, SStr "relay")])
           (fun _ => ["AUTH"; "PLAIN"]%string) (fun m => m) (fun b => Ok b)
           "relay"%string "secret"%string "AUTH PLAIN"%string
           "not the password"%string []).
  reflexivity.
Defined.

(** ** Monitoring *)

Lemma collect_metrics_history (A : Type) (status : A) (metrics_history : list A) :
  (Z.of_nat (List.length metrics_history) <= MetricsCollector.max_history_size)%Z ->
  snd (MetricsCollector.collect_metrics status metrics_history)
  = skipn (List.length (metrics_history ++ [status])
           - Z.to_nat MetricsCollector.max_history_size)
      (metrics_history ++ [status])
  /\ (Z.of_nat (List.length (snd (MetricsCollector.collect_metrics status metrics_history)))
      <= MetricsCollector.max_history_size)%Z.
Proof.
  intros Hlen. unfold MetricsCollector.collect_metrics. cbn [snd].
  assert (Hl : List.length (metrics_history ++ [status])
               = S (List.length metrics_history)).
  { rewrite length_app. cbn [List.length]. lia. }
  destruct (Z.gtb_spec (Z.of_nat (List.length (metrics_history ++ [status])))
              MetricsCollector.max_history_size) as [Hgt|Hle].
  - assert (E : (List.length (metrics_history ++ [status])
                 - Z.to_nat MetricsCollector.max_history_size = 1)%nat) by lia.
    rewrite E. split; [reflexivity|].
    destruct (metrics_history ++ [status]) as [|x l]; cbn [List.tl List.length] in *; lia.
  - assert (E : (List.length (metrics_history ++ [status])
                 - Z.to_nat MetricsCollector.max_history_size = 0)%nat) by lia.
    rewrite E. split; [reflexivity|exact Hle].
Qed.

(** X29: the history of the metrics collector keeps the newest 1000
    entries.  From a history of at most 1000 entries, after any number
    of calls of [collect_metrics] the history is the old entries
    followed by the collected ones, cut to the last 1000; and
    [get_metrics_history] with a positive limit then returns the last
    [min(limit, 1000)] of them, oldest first. *)
Theorem metrics_history_keeps_newest :
  forall (A : Type) (statuses metrics_history : list A),
    (Z.of_nat (List.length metrics_history) <= MetricsCollector.max_history_size)%Z ->
    MetricsCollector.collect_all statuses metrics_history
    = skipn (List.length (metrics_history ++ statuses)
             - Z.to_nat MetricsCollector.max_history_size)
        (metrics_history ++ statuses)
    /\ (Z.of_nat (List.length (MetricsCollector.collect_all statuses metrics_history))
        <= MetricsCollector.max_history_size)%Z
    /\ (forall limit,
          (0 < limit)%Z ->
          MetricsCollector.get_metrics_history limit
            (MetricsCollector.collect_all statuses metrics_history)
          = skipn (List.length (metrics_history ++ statuses)
                   - Z.to_nat (Z.min limit MetricsCollector.max_history_size))
              (metrics_history ++ statuses)).
Proof.
  intros A statuses.
  assert (Hmain : forall metrics_history : list A,
    (Z.of_nat (List.length metrics_history) <= MetricsCollector.max_history_size)%Z ->
    MetricsCollector.collect_all statuses metrics_history
    = skipn (List.length (metrics_history ++ statuses)
             - Z.to_nat MetricsCollector.max_history_size)
        (metrics_history ++ statuses)).
  { induction statuses as [|status statuses IH]; intros h Hlen.
    - cbn [MetricsCollector.collect_all]. rewrite app_nil_r.
      replace (List.length h - Z.to_nat MetricsCollector.max_history_size)%nat
        with 0%nat by lia.
      reflexivity.
    - cbn [MetricsCollector.collect_all].
      destruct (collect_metrics_history A status h Hlen) as [Hh Hb].
      rewrite (IH _ Hb). rewrite Hh.
      replace (h ++ status :: statuses) with ((h ++ [status]) ++ statuses)
        by (rewrite <- app_assoc; reflexivity).
      set (L := h ++ [status]) in *.
      assert (HL : List.length L = S (List.length h)).
      { unfold L. rewrite length_app. cbn [List.length]. lia. }
      set (n := Z.to_nat MetricsCollector.max_history_size) in *.
      assert (Hn : (List.length h <= n)%nat) by (unfold n; lia).
      destruct (Nat.le_gt_cases (List.length L) n) as [Hle|Hgt].
      + replace (List.length L - n)%nat with 0%nat by lia.
        cbn [skipn]. reflexivity.
      + replace (List.length L - n)%nat with 1%nat by lia.
        destruct L as [|x L']; [cbn in HL; lia|].
        cbn [skipn app List.length] in *.
        rewrite !length_app.
        replace (S (List.length L' + List.length statuses) - n)%nat
          with (S (List.length L' + List.length statuses - n))%nat by lia.
        reflexivity. }
  intros h Hlen. pose proof (Hmain h Hlen) as Hc.
  assert (Hb : (Z.of_nat (List.length (MetricsCollector.collect_all statuses h))
                <= MetricsCollector.max_history_size)%Z).
  { rewrite Hc, length_skipn. lia. }
  split; [exact Hc|]. split; [exact Hb|].
  intros limit Hlimit.
  unfold MetricsCollector.get_metrics_history, MetricsCollector.slice_from.
  destruct (Z.eqb_spec limit 0) as [->|_]; [lia|]. cbn [negb].
  destruct (Z.ltb_spec (- limit) 0); [|lia].
  rewrite Hc at 2. rewrite skipn_skipn. f_equal.
  rewrite Hc, length_skipn.
  unfold MetricsCollector.max_history_size in *. lia.
Qed.

Lemma metrics_history_keeps_newest_witness :
  (Z.of_nat (List.length (@nil Z)) <= MetricsCollector.max_history_size)%Z
  /\ MetricsCollector.collect_all [1; 2; 3]%Z []
     = skipn (List.length ([] ++ [1; 2; 3]%Z)
              - Z.to_nat MetricsCollector.max_history_size)
         ([] ++ [1; 2; 3]%Z).
Proof.
  split; [unfold MetricsCollector.max_history_size; cbn; lia|].
  apply (proj1 (metrics_history_keeps_newest Z [1; 2; 3]%Z []
                  ltac:(unfold MetricsCollector.max_history_size; cbn; lia))).
Defined.

Lemma success_rate_of_stats (now : float) (m : EmailMetrics.t) :
  dict_get_default (EmailMetrics.get_stats now m) "success_rate" (PFloat 1%Q)
  = if (EmailMetrics.sent_count m + EmailMetrics.failed_count m >? 0)%Z
    then PFloat (inject_Z (EmailMetrics.sent_count m)
                 / inject_Z (EmailMetrics.sent_count m + EmailMetrics.failed_count m))%Q
    else PInt 0.
Proof. reflexivity. Qed.

(** X30: when the service is reported healthy.  On the statistics of
    [get_stats], [_calculate_health_status] answers [healthy] only if
    at least one send was attempted and at least four fifths of the
    attempts succeeded, with the processor, the memory and the disk at
    80 per cent or less; so a service that has not yet attempted a send
    is never reported healthy. *)
Theorem healthy_needs_successful_attempts :
  forall (system : HealthChecker.system_metrics) (queue_stats : pydict)
         (now : float) (m : EmailMetrics.t),
    HealthChecker._calculate_health_status system queue_stats
      (EmailMetrics.get_stats now m) = Ok "healthy"%string ->
    (0 < EmailMetrics.sent_count m + EmailMetrics.failed_count m)%Z
    /\ (4 * (EmailMetrics.sent_count m + EmailMetrics.failed_count m)
        <= 5 * EmailMetrics.sent_count m)%Z
    /\ (HealthChecker.cpu_usage system <= 80)%Q
    /\ (HealthChecker.memory_percent system <= 80)%Q
    /\ (HealthChecker.disk_percent system <= 80)%Q.
Proof.
  intros system queue_stats now m.
  unfold HealthChecker._calculate_health_status.
  rewrite success_rate_of_stats.
  destruct (Qlt_bool 90 (HealthChecker.cpu_usage system)
            || Qlt_bool 90 (HealthChecker.memory_percent system)
            || Qlt_bool 90 (HealthChecker.disk_percent system)); [discriminate|].
  destruct (Qlt_bool 80 (HealthChecker.cpu_usage system)) eqn:Ec; [discriminate|].
  destruct (Qlt_bool 80 (HealthChecker.memory_percent system)) eqn:Em; [discriminate|].
  destruct (Qlt_bool 80 (HealthChecker.disk_percent system)) eqn:Ed; [discriminate|].
  cbn [orb].
  assert (Hnot : forall a b, Qlt_bool a b = false -> (b <= a)%Q).
  { intros a b H. apply Qnot_lt_le. intros Hlt. apply Qlt_bool_iff in Hlt. congruence. }
  apply Hnot in Ec, Em, Ed.
  destruct (HealthChecker.gt _ 1000%Q) as [[|]|e]; try discriminate.
  destruct (Z.gtb_spec (EmailMetrics.sent_count m + EmailMetrics.failed_count m) 0)
    as [Hpos|Hzero].
  - unfold HealthChecker.lt, HealthChecker.number.
    set (total := (EmailMetrics.sent_count m + EmailMetrics.failed_count m)%Z) in *.
    set (rate := (inject_Z (EmailMetrics.sent_count m) / inject_Z total)%Q).
    destruct (Qlt_bool rate (1 # 2)); [discriminate|].
    destruct (Qlt_bool rate (4 # 5)) eqn:Er; [discriminate|].
    intros _. apply Hnot in Er.
    split; [lia|]. split; [|repeat split; assumption].
    assert (Ht : (0 < inject_Z total)%Q).
    { replace 0%Q with (inject_Z 0) by reflexivity. rewrite <- Zlt_Qlt. lia. }
    assert (Hr : (rate * inject_Z total == inject_Z (EmailMetrics.sent_count m))%Q).
    { unfold rate. field. lra. }
    assert (Hq : (inject_Z 4 * inject_Z total
                  <= inject_Z 5 * inject_Z (EmailMetrics.sent_count m))%Q).
    { rewrite <- Hr.
      assert (H1 : ((4 # 5) * inject_Z total <= rate * inject_Z total)%Q).
      { apply Qmult_le_compat_r; lra. }
      change (inject_Z 4) with 4%Q. change (inject_Z 5) with 5%Q. lra. }
    rewrite <- !inject_Z_mult in Hq. rewrite <- Zle_Qle in Hq. exact Hq.
  - unfold HealthChecker.lt, HealthChecker.number.
    change (Qlt_bool (inject_Z 0) (1 # 2)) with true. discriminate.
Qed.

Lemma healthy_needs_successful_attempts_witness :
  HealthChecker._calculate_health_status
    (HealthChecker.mk_system 10%Q 20%Q 30%Q) []
    (EmailMetrics.get_stats 100%Q (EmailMetrics.mk 4 1 0 0%Q)) = Ok "healthy"%string
  /\ (0 < 4 + 1)%Z /\ (4 * (4 + 1) <= 5 * 4)%Z.
Proof.
  pose proof (healthy_needs_successful_attempts
                (HealthChecker.mk_system 10%Q 20%Q 30%Q) []
                100%Q (EmailMetrics.mk 4 1 0 0%Q) eq_refl) as H.
  split; [reflexivity|].
  split; [exact (proj1 H)|exact (proj1 (proj2 H))].
Defined.
